(** * supachat: call signaling of the chat page and the call modal's clock

    A shallow embedding of the call-related code of the chat page
    (the second, WebRTC-wired page component: [cleanupCall],
    [ensureLocalMedia], [setupPeerConnection], the six broadcast handlers
    of the "calls" channel, [sendCallEvent], [handleStartCall] and the
    handlers passed to the call modal) and of [formatDuration] of
    [VoiceCallModal.tsx].

    Conventions of the embedding.
    - React state cells ([useState]) and refs ([useRef]) are fields of one
      record, [World]; a setter call is a field update.
    - Media tracks live in a store indexed by track id, because the same
      track object is reached from the local stream and from the senders of
      the peer connection.
    - Everything the browser decides (the clock, whether a promise of the
      media or WebRTC API rejects, whether a method throws) is read from an
      [Env] record given to each handler run.
    - A handler is a computation in the monad [JS]: it returns normally or
      throws, and keeps the effects made before the throw, as JavaScript
      does.  An [await] on a rejected promise is a throw.
    - An async handler body runs to completion without interleaving with
      other handlers. *)

From Stdlib Require Import ZArith Lia Ascii.
From stdpp Require Import base option list strings pretty gmap.

Open Scope Z_scope.

(** ** JavaScript string helpers used by [formatDuration] *)

(** [String(n)] for an integer [n]: its decimal numeral. *)
Definition String_of (n : Z) : string := pretty n.

(** The first [n] characters of [pad] repeated for ever; [rest] is what is
    left of the copy being emitted. *)
Fixpoint filler (n : nat) (pad rest : string) : string :=
  match n with
  | O => EmptyString
  | S n' =>
      match rest with
      | String c r => String c (filler n' pad r)
      | EmptyString =>
          match pad with
          | String c r => String c (filler n' pad r)
          | EmptyString => EmptyString
          end
      end
  end.

(** [s.padStart(target, pad)]. *)
Definition padStart (target : nat) (pad s : string) : string :=
  if (target <=? String.length s)%nat then s
  else match pad with
       | EmptyString => s
       | _ => filler (target - String.length s) pad pad +:+ s
       end.

(** ** [formatDuration] (VoiceCallModal.tsx)

    [ms] is an integer number of milliseconds (a difference of two
    [Date.now()] values).  [Math.floor(ms / 1000)] is the floor division
    [Z.div]; [%] is the truncating remainder [Z.rem]. *)
Definition formatDuration (ms : Z) : string :=
  let total := Z.max 0 (ms / 1000) in
  let h := total / 3600 in
  let m := Z.rem total 3600 / 60 in
  let s := Z.rem total 60 in
  if 0 <? h
  then String_of h +:+ ":" +:+ padStart 2 "0" (String_of m)
                   +:+ ":" +:+ padStart 2 "0" (String_of s)
  else String_of m +:+ ":" +:+ padStart 2 "0" (String_of s).

(** The clock formats in the words of the specification: a decimal digit,
    a field of exactly two decimal digits, [m:ss] and [h:mm:ss]. *)
Definition digit_char (d : Z) : Ascii.ascii :=
  Ascii.ascii_of_nat (48 + Z.to_nat d).

Definition two_digits (n : Z) : string :=
  String (digit_char (n / 10)) (String (digit_char (n mod 10)) EmptyString).

Definition clock_m_ss (total : Z) : string :=
  String_of (total / 60) +:+ ":" +:+ two_digits (total mod 60).

Definition clock_h_mm_ss (total : Z) : string :=
  String_of (total / 3600) +:+ ":" +:+ two_digits (total mod 3600 / 60)
                           +:+ ":" +:+ two_digits (total mod 60).

(** ** Data of the call signaling *)

Inductive CallState := incoming | outgoing | active.

Inductive ConnectionStatus := connecting | good | fair | poor | disconnected.

(** [pc.connectionState] of the browser. *)
Inductive RTCPeerConnectionState :=
  st_new | st_connecting | st_connected | st_disconnected | st_failed | st_closed.

(** The six broadcast events of the "calls" channel. *)
Inductive EventKind := ev_call | ev_answer | ev_ice | ev_decline | ev_hangup | ev_cancel.

Record SDP := { sdp_type : string; sdp_text : string }.

Definition IceCandidate := string.

(** A broadcast payload.  It comes from the network, so every field may be
    missing ([None] is JavaScript's [undefined]). *)
Record Payload := {
  p_callId : option string;
  p_from : option string;
  p_to : option string;
  p_fromName : option string;
  p_fromUsername : option string;
  p_fromAvatarUrl : option string;
  p_sdp : option SDP;
  p_candidate : option IceCandidate;
  p_ts : option Z
}.

Record CallContact := {
  cc_name : option string;
  cc_username : option string;
  cc_avatarUrl : option string
}.

Record User := {
  u_id : string;
  u_username : string;
  u_displayName : string;
  u_avatarUrl : option string
}.

Record Contact := {
  c_id : string;
  c_name : string;
  c_username : option string;
  c_avatarUrl : option string
}.

Inductive TrackKind := audio | video.

#[global] Instance TrackKind_eq_dec : EqDecision TrackKind.
Proof. solve_decision. Defined.

(** A [MediaStreamTrack]: [ended] is [readyState === "ended"]. *)
Record Track := { kind : TrackKind; enabled : bool; ended : bool }.

(** A [MediaStream] is the list of the ids of its tracks. *)
Definition MediaStream := list nat.

Record RTCPeerConnection := {
  senders : list (option nat);
  receivers : list (option nat);
  closed : bool;
  localDescription : option SDP;
  remoteDescription : option SDP;
  iceCandidates : list IceCandidate
}.

(** A [<video>] element, of which only [srcObject] matters here. *)
Record VideoElement := { srcObject : option MediaStream }.

Record World := mkWorld {
  (* React state of the page *)
  callOpen : bool;
  callState : CallState;
  callContact : option CallContact;
  callMuted : bool;
  callSpeaker : bool;
  callStartedAt : option Z;
  connectionStatus : ConnectionStatus;
  callPeerId : option string;
  activeCallId : option string;
  callCameraOff : bool;
  (* refs *)
  callSignalChannelRef : bool;
  localVideoRef : option VideoElement;
  remoteVideoRef : option VideoElement;
  pcRef : option RTCPeerConnection;
  localStreamRef : option MediaStream;
  remoteStreamRef : option MediaStream;
  pendingRemoteSDPRef : option SDP;
  isCallerRef : bool;
  (* browser side: the track store and the broadcasts handed to channel.send *)
  tracks : list Track;
  sent : list (EventKind * Payload)
}.

Definition setCallOpen (v : bool) (w : World) : World :=
  mkWorld
    v (callState w) (callContact w) (callMuted w) (callSpeaker w)
    (callStartedAt w) (connectionStatus w) (callPeerId w) (activeCallId w)
    (callCameraOff w) (callSignalChannelRef w) (localVideoRef w)
    (remoteVideoRef w) (pcRef w) (localStreamRef w) (remoteStreamRef w)
    (pendingRemoteSDPRef w) (isCallerRef w) (tracks w) (sent w).

Definition setCallState (v : CallState) (w : World) : World :=
  mkWorld
    (callOpen w) v (callContact w) (callMuted w) (callSpeaker w)
    (callStartedAt w) (connectionStatus w) (callPeerId w) (activeCallId w)
    (callCameraOff w) (callSignalChannelRef w) (localVideoRef w)
    (remoteVideoRef w) (pcRef w) (localStreamRef w) (remoteStreamRef w)
    (pendingRemoteSDPRef w) (isCallerRef w) (tracks w) (sent w).

Definition setCallContact (v : option CallContact) (w : World) : World :=
  mkWorld
    (callOpen w) (callState w) v (callMuted w) (callSpeaker w)
    (callStartedAt w) (connectionStatus w) (callPeerId w) (activeCallId w)
    (callCameraOff w) (callSignalChannelRef w) (localVideoRef w)
    (remoteVideoRef w) (pcRef w) (localStreamRef w) (remoteStreamRef w)
    (pendingRemoteSDPRef w) (isCallerRef w) (tracks w) (sent w).

Definition setCallMuted (v : bool) (w : World) : World :=
  mkWorld
    (callOpen w) (callState w) (callContact w) v (callSpeaker w)
    (callStartedAt w) (connectionStatus w) (callPeerId w) (activeCallId w)
    (callCameraOff w) (callSignalChannelRef w) (localVideoRef w)
    (remoteVideoRef w) (pcRef w) (localStreamRef w) (remoteStreamRef w)
    (pendingRemoteSDPRef w) (isCallerRef w) (tracks w) (sent w).

Definition setCallSpeaker (v : bool) (w : World) : World :=
  mkWorld
    (callOpen w) (callState w) (callContact w) (callMuted w) v
    (callStartedAt w) (connectionStatus w) (callPeerId w) (activeCallId w)
    (callCameraOff w) (callSignalChannelRef w) (localVideoRef w)
    (remoteVideoRef w) (pcRef w) (localStreamRef w) (remoteStreamRef w)
    (pendingRemoteSDPRef w) (isCallerRef w) (tracks w) (sent w).

Definition setCallStartedAt (v : option Z) (w : World) : World :=
  mkWorld
    (callOpen w) (callState w) (callContact w) (callMuted w)
    (callSpeaker w) v (connectionStatus w) (callPeerId w) (activeCallId w)
    (callCameraOff w) (callSignalChannelRef w) (localVideoRef w)
    (remoteVideoRef w) (pcRef w) (localStreamRef w) (remoteStreamRef w)
    (pendingRemoteSDPRef w) (isCallerRef w) (tracks w) (sent w).

Definition setConnectionStatus (v : ConnectionStatus) (w : World) : World :=
  mkWorld
    (callOpen w) (callState w) (callContact w) (callMuted w)
    (callSpeaker w) (callStartedAt w) v (callPeerId w) (activeCallId w)
    (callCameraOff w) (callSignalChannelRef w) (localVideoRef w)
    (remoteVideoRef w) (pcRef w) (localStreamRef w) (remoteStreamRef w)
    (pendingRemoteSDPRef w) (isCallerRef w) (tracks w) (sent w).

Definition setCallPeerId (v : option string) (w : World) : World :=
  mkWorld
    (callOpen w) (callState w) (callContact w) (callMuted w)
    (callSpeaker w) (callStartedAt w) (connectionStatus w) v
    (activeCallId w) (callCameraOff w) (callSignalChannelRef w)
    (localVideoRef w) (remoteVideoRef w) (pcRef w) (localStreamRef w)
    (remoteStreamRef w) (pendingRemoteSDPRef w) (isCallerRef w) (tracks w)
    (sent w).

Definition setActiveCallId (v : option string) (w : World) : World :=
  mkWorld
    (callOpen w) (callState w) (callContact w) (callMuted w)
    (callSpeaker w) (callStartedAt w) (connectionStatus w) (callPeerId w)
    v (callCameraOff w) (callSignalChannelRef w) (localVideoRef w)
    (remoteVideoRef w) (pcRef w) (localStreamRef w) (remoteStreamRef w)
    (pendingRemoteSDPRef w) (isCallerRef w) (tracks w) (sent w).

Definition setCallCameraOff (v : bool) (w : World) : World :=
  mkWorld
    (callOpen w) (callState w) (callContact w) (callMuted w)
    (callSpeaker w) (callStartedAt w) (connectionStatus w) (callPeerId w)
    (activeCallId w) v (callSignalChannelRef w) (localVideoRef w)
    (remoteVideoRef w) (pcRef w) (localStreamRef w) (remoteStreamRef w)
    (pendingRemoteSDPRef w) (isCallerRef w) (tracks w) (sent w).

Definition set_callSignalChannelRef (v : bool) (w : World) : World :=
  mkWorld
    (callOpen w) (callState w) (callContact w) (callMuted w)
    (callSpeaker w) (callStartedAt w) (connectionStatus w) (callPeerId w)
    (activeCallId w) (callCameraOff w) v (localVideoRef w)
    (remoteVideoRef w) (pcRef w) (localStreamRef w) (remoteStreamRef w)
    (pendingRemoteSDPRef w) (isCallerRef w) (tracks w) (sent w).

Definition set_localVideoRef (v : option VideoElement) (w : World) : World :=
  mkWorld
    (callOpen w) (callState w) (callContact w) (callMuted w)
    (callSpeaker w) (callStartedAt w) (connectionStatus w) (callPeerId w)
    (activeCallId w) (callCameraOff w) (callSignalChannelRef w) v
    (remoteVideoRef w) (pcRef w) (localStreamRef w) (remoteStreamRef w)
    (pendingRemoteSDPRef w) (isCallerRef w) (tracks w) (sent w).

Definition set_remoteVideoRef (v : option VideoElement) (w : World) : World :=
  mkWorld
    (callOpen w) (callState w) (callContact w) (callMuted w)
    (callSpeaker w) (callStartedAt w) (connectionStatus w) (callPeerId w)
    (activeCallId w) (callCameraOff w) (callSignalChannelRef w)
    (localVideoRef w) v (pcRef w) (localStreamRef w) (remoteStreamRef w)
    (pendingRemoteSDPRef w) (isCallerRef w) (tracks w) (sent w).

Definition set_pcRef (v : option RTCPeerConnection) (w : World) : World :=
  mkWorld
    (callOpen w) (callState w) (callContact w) (callMuted w)
    (callSpeaker w) (callStartedAt w) (connectionStatus w) (callPeerId w)
    (activeCallId w) (callCameraOff w) (callSignalChannelRef w)
    (localVideoRef w) (remoteVideoRef w) v (localStreamRef w)
    (remoteStreamRef w) (pendingRemoteSDPRef w) (isCallerRef w) (tracks w)
    (sent w).

Definition set_localStreamRef (v : option MediaStream) (w : World) : World :=
  mkWorld
    (callOpen w) (callState w) (callContact w) (callMuted w)
    (callSpeaker w) (callStartedAt w) (connectionStatus w) (callPeerId w)
    (activeCallId w) (callCameraOff w) (callSignalChannelRef w)
    (localVideoRef w) (remoteVideoRef w) (pcRef w) v (remoteStreamRef w)
    (pendingRemoteSDPRef w) (isCallerRef w) (tracks w) (sent w).

Definition set_remoteStreamRef (v : option MediaStream) (w : World) : World :=
  mkWorld
    (callOpen w) (callState w) (callContact w) (callMuted w)
    (callSpeaker w) (callStartedAt w) (connectionStatus w) (callPeerId w)
    (activeCallId w) (callCameraOff w) (callSignalChannelRef w)
    (localVideoRef w) (remoteVideoRef w) (pcRef w) (localStreamRef w) v
    (pendingRemoteSDPRef w) (isCallerRef w) (tracks w) (sent w).

Definition set_pendingRemoteSDPRef (v : option SDP) (w : World) : World :=
  mkWorld
    (callOpen w) (callState w) (callContact w) (callMuted w)
    (callSpeaker w) (callStartedAt w) (connectionStatus w) (callPeerId w)
    (activeCallId w) (callCameraOff w) (callSignalChannelRef w)
    (localVideoRef w) (remoteVideoRef w) (pcRef w) (localStreamRef w)
    (remoteStreamRef w) v (isCallerRef w) (tracks w) (sent w).

Definition set_isCallerRef (v : bool) (w : World) : World :=
  mkWorld
    (callOpen w) (callState w) (callContact w) (callMuted w)
    (callSpeaker w) (callStartedAt w) (connectionStatus w) (callPeerId w)
    (activeCallId w) (callCameraOff w) (callSignalChannelRef w)
    (localVideoRef w) (remoteVideoRef w) (pcRef w) (localStreamRef w)
    (remoteStreamRef w) (pendingRemoteSDPRef w) v (tracks w) (sent w).

Definition set_tracks (v : list Track) (w : World) : World :=
  mkWorld
    (callOpen w) (callState w) (callContact w) (callMuted w)
    (callSpeaker w) (callStartedAt w) (connectionStatus w) (callPeerId w)
    (activeCallId w) (callCameraOff w) (callSignalChannelRef w)
    (localVideoRef w) (remoteVideoRef w) (pcRef w) (localStreamRef w)
    (remoteStreamRef w) (pendingRemoteSDPRef w) (isCallerRef w) v (sent w).

Definition set_sent (v : list (EventKind * Payload)) (w : World) : World :=
  mkWorld
    (callOpen w) (callState w) (callContact w) (callMuted w)
    (callSpeaker w) (callStartedAt w) (connectionStatus w) (callPeerId w)
    (activeCallId w) (callCameraOff w) (callSignalChannelRef w)
    (localVideoRef w) (remoteVideoRef w) (pcRef w) (localStreamRef w)
    (remoteStreamRef w) (pendingRemoteSDPRef w) (isCallerRef w) (tracks w)
    v.

(** ** What the browser decides

    One record per handler run: the clock and the outcome of every call
    into the media, WebRTC and channel APIs. *)
Record Env := {
  now : Z;                                  (* Date.now() *)
  getUserMedia : option (list TrackKind);   (* None: the promise rejects *)
  newPeerConnection_ok : bool;              (* new RTCPeerConnection(..) *)
  addTrack_ok : nat -> bool;                (* pc.addTrack(t, stream) *)
  createOffer : option SDP;                 (* None: the promise rejects *)
  createAnswer : option SDP;
  setLocalDescription_ok : bool;
  setRemoteDescription_ok : bool;
  addIceCandidate_ok : bool;
  send_ok : bool;                           (* channel.send(..) *)
  stop_ok : nat -> bool;                    (* track.stop() *)
  close_ok : bool                           (* pc.close() *)
}.

(** ** The monad of handler bodies *)

Inductive Completion (A : Type) :=
| Normal (a : A)
| Thrown.
Arguments Normal {A} a.
Arguments Thrown {A}.

Definition JS (A : Type) : Type := World -> Completion A * World.

Definition ret {A} (a : A) : JS A := fun w => (Normal a, w).

Definition throw {A} : JS A := fun w => (Thrown, w).

Definition bind {A B} (c : JS A) (k : A -> JS B) : JS B :=
  fun w => match c w with
           | (Normal a, w') => k a w'
           | (Thrown, w') => (Thrown, w')
           end.

Declare Scope js_scope.
Delimit Scope js_scope with js.
Notation "x <- c ;; k" := (bind c (fun x => k))
  (at level 100, c at next level, right associativity) : js_scope.
Notation "c ;; k" := (bind c (fun _ => k))
  (at level 100, right associativity) : js_scope.
Open Scope js_scope.

(** [try { body } catch { handler }]. *)
Definition try_catch (body handler : JS unit) : JS unit :=
  fun w => match body w with
           | (Normal _, w') => (Normal tt, w')
           | (Thrown, w') => handler w'
           end.

(** [try { body } catch {}]. *)
Definition try_ (body : JS unit) : JS unit := try_catch body (ret tt).

(** A promise started and not awaited: its rejection never reaches the
    code that started it. *)
Definition not_awaited (c : JS unit) : JS unit :=
  fun w => (Normal tt, snd (c w)).

Definition gets {A} (f : World -> A) : JS A := fun w => (Normal (f w), w).

Definition modify (f : World -> World) : JS unit := fun w => (Normal tt, f w).

(** [await p] for a promise of no value that resolves iff [ok]. *)
Definition await_ok (ok : bool) : JS unit := if ok then ret tt else throw.

(** [l.forEach(f)]: stops at the first throw. *)
Fixpoint forEach {A} (l : list A) (f : A -> JS unit) : JS unit :=
  match l with
  | [] => ret tt
  | x :: l' => f x ;; forEach l' f
  end.

(** [x || null] for a string, and the truthiness of a string that may be
    missing: the empty string is falsy. *)
Definition or_null (x : option string) : option string :=
  match x with
  | Some EmptyString => None
  | _ => x
  end.

Definition truthy (x : option string) : bool :=
  match or_null x with Some _ => true | None => false end.

(** ** Browser objects *)

Definition set_ended (t : Track) : Track :=
  {| kind := kind t; enabled := enabled t; ended := true |}.

Definition set_enabled (b : bool) (t : Track) : Track :=
  {| kind := kind t; enabled := b; ended := ended t |}.

(** [t.stop()]. *)
Definition track_stop (env : Env) (t : nat) : JS unit :=
  if stop_ok env t
  then modify (fun w => set_tracks (alter set_ended t (tracks w)) w)
  else throw.

(** [stream.getAudioTracks()] and [stream.getVideoTracks()]. *)
Definition tracks_of_kind (k : TrackKind) (store : list Track) (stream : MediaStream)
  : list nat :=
  filter (fun t => (kind <$> store !! t) = Some k) stream.

Definition new_pc : RTCPeerConnection :=
  {| senders := []; receivers := []; closed := false;
     localDescription := None; remoteDescription := None; iceCandidates := [] |}.

(** A method of the peer connection held in [pcRef]: it throws when the
    browser says so ([ok] false) or when there is no object. *)
Definition pc_method (ok : bool) (f : RTCPeerConnection -> RTCPeerConnection)
  : JS unit :=
  pc <- gets pcRef ;;
  match pc with
  | Some pc => if ok then modify (set_pcRef (Some (f pc))) else throw
  | None => throw
  end.

(** What the methods do to the connection when they succeed. *)
Definition set_closed (pc : RTCPeerConnection) : RTCPeerConnection :=
  {| senders := senders pc; receivers := receivers pc; closed := true;
     localDescription := localDescription pc;
     remoteDescription := remoteDescription pc;
     iceCandidates := iceCandidates pc |}.

Definition add_sender (t : nat) (pc : RTCPeerConnection) : RTCPeerConnection :=
  {| senders := senders pc ++ [Some t]; receivers := receivers pc;
     closed := closed pc;
     localDescription := localDescription pc;
     remoteDescription := remoteDescription pc;
     iceCandidates := iceCandidates pc |}.

Definition set_localDescription (d : SDP) (pc : RTCPeerConnection) : RTCPeerConnection :=
  {| senders := senders pc; receivers := receivers pc; closed := closed pc;
     localDescription := Some d;
     remoteDescription := remoteDescription pc;
     iceCandidates := iceCandidates pc |}.

Definition set_remoteDescription (d : SDP) (pc : RTCPeerConnection) : RTCPeerConnection :=
  {| senders := senders pc; receivers := receivers pc; closed := closed pc;
     localDescription := localDescription pc;
     remoteDescription := Some d;
     iceCandidates := iceCandidates pc |}.

Definition add_candidates (cs : list IceCandidate) (pc : RTCPeerConnection)
  : RTCPeerConnection :=
  {| senders := senders pc; receivers := receivers pc; closed := closed pc;
     localDescription := localDescription pc;
     remoteDescription := remoteDescription pc;
     iceCandidates := iceCandidates pc ++ cs |}.

Definition pc_close (env : Env) : JS unit :=
  pc_method (close_ok env) set_closed.

Definition pc_addTrack (env : Env) (t : nat) : JS unit :=
  pc_method (addTrack_ok env t) (add_sender t).

Definition pc_setLocalDescription (env : Env) (d : SDP) : JS unit :=
  pc_method (setLocalDescription_ok env) (set_localDescription d).

Definition pc_setRemoteDescription (env : Env) (d : SDP) : JS unit :=
  pc_method (setRemoteDescription_ok env) (set_remoteDescription d).

Definition pc_addIceCandidate (env : Env) (c : IceCandidate) : JS unit :=
  pc_method (addIceCandidate_ok env) (add_candidates [c]).

(** [await pc.createOffer(..)] and [await pc.createAnswer()]. *)
Definition await_sdp (r : option SDP) : JS SDP :=
  match r with
  | Some d => ret d
  | None => throw
  end.

(** ** The page's WebRTC helpers *)

(** [x?.stop()] on the track of a sender or receiver. *)
Definition stop_track_of (env : Env) (t : option nat) : JS unit :=
  match t with
  | Some t => track_stop env t
  | None => ret tt
  end.

Definition clear_srcObject (v : option VideoElement) : option VideoElement :=
  match v with
  | Some _ => Some {| srcObject := None |}
  | None => None
  end.

(** [cleanupCall], line for line. *)
Definition cleanupCall (env : Env) : JS unit :=
  try_ (pc <- gets pcRef ;;
        match pc with
        | Some pc => forEach (senders pc) (fun s => try_ (stop_track_of env s))
        | None => ret tt
        end) ;;
  try_ (pc <- gets pcRef ;;
        match pc with
        | Some pc => forEach (receivers pc) (fun r => try_ (stop_track_of env r))
        | None => ret tt
        end) ;;
  try_ (pc <- gets pcRef ;;
        match pc with
        | Some _ => pc_close env
        | None => ret tt
        end) ;;
  modify (set_pcRef None) ;;
  try_ (s <- gets localStreamRef ;;
        match s with
        | Some s => forEach s (track_stop env)
        | None => ret tt
        end) ;;
  try_ (s <- gets remoteStreamRef ;;
        match s with
        | Some s => forEach s (track_stop env)
        | None => ret tt
        end) ;;
  modify (set_localStreamRef None) ;;
  modify (set_remoteStreamRef None) ;;
  modify (fun w => set_localVideoRef (clear_srcObject (localVideoRef w)) w) ;;
  modify (fun w => set_remoteVideoRef (clear_srcObject (remoteVideoRef w)) w).

Definition fresh_track (k : TrackKind) : Track :=
  {| kind := k; enabled := true; ended := false |}.

Definition show_stream (s : MediaStream) (v : option VideoElement) : option VideoElement :=
  match v with
  | Some _ => Some {| srcObject := Some s |}
  | None => None
  end.

(** [ensureLocalMedia]: the stream already held, or a new one whose tracks
    are allocated at the end of the store. *)
Definition ensureLocalMedia (env : Env) : JS MediaStream :=
  held <- gets localStreamRef ;;
  match held with
  | Some s => ret s
  | None =>
      match getUserMedia env with
      | None => throw
      | Some kinds =>
          store <- gets tracks ;;
          let stream := seq (length store) (length kinds) in
          modify (set_tracks (store ++ map fresh_track kinds)) ;;
          modify (set_localStreamRef (Some stream)) ;;
          modify (fun w => set_localVideoRef (show_stream stream (localVideoRef w)) w) ;;
          ret stream
      end
  end.

(** [setupPeerConnection]: afterwards [pcRef] holds the connection the
    function returns.  Its three callbacks are not part of the object here;
    [onconnectionstatechange] is the function below. *)
Definition setupPeerConnection (env : Env) : JS unit :=
  pc <- gets pcRef ;;
  match pc with
  | Some _ => ret tt
  | None =>
      if newPeerConnection_ok env
      then modify (set_pcRef (Some new_pc))
      else throw
  end.

(** [pc.onconnectionstatechange], given [pc.connectionState]. *)
Definition onconnectionstatechange (st : RTCPeerConnectionState) : JS unit :=
  match st with
  | st_connected => modify (setConnectionStatus good)
  | st_connecting => modify (setConnectionStatus connecting)
  | st_disconnected | st_failed => modify (setConnectionStatus disconnected)
  | st_new | st_closed => ret tt
  end.

(** ** Signaling: the handlers of the "calls" channel *)

(** [!payload || payload.to !== myId]. *)
Definition not_for_me (myId : string) (payload : option Payload) : bool :=
  match payload with
  | None => true
  | Some p => negb (bool_decide (p_to p = Some myId))
  end.

Definition sdp_of_type (ty : string) (d : option SDP) : option SDP :=
  match d with
  | Some d => if bool_decide (sdp_type d = ty) then Some d else None
  | None => None
  end.

Definition on_call (myId : string) (payload : option Payload) : JS unit :=
  try_
    (match payload with
     | Some p =>
         if not_for_me myId payload then ret tt else
         modify (setActiveCallId (or_null (p_callId p))) ;;
         modify (setCallPeerId (p_from p)) ;;
         modify (setCallContact
                   (Some {| cc_name := p_fromName p;
                            cc_username := p_fromUsername p;
                            cc_avatarUrl := p_fromAvatarUrl p |})) ;;
         modify (setCallState incoming) ;;
         modify (setConnectionStatus connecting) ;;
         modify (setCallMuted false) ;;
         modify (setCallSpeaker false) ;;
         modify (setCallStartedAt None) ;;
         match sdp_of_type "offer" (p_sdp p) with
         | Some d => modify (set_pendingRemoteSDPRef (Some d))
         | None => ret tt
         end ;;
         modify (setCallOpen true)
     | None => ret tt
     end).

Definition on_answer (env : Env) (myId : string) (payload : option Payload) : JS unit :=
  try_
    (match payload with
     | Some p =>
         if not_for_me myId payload then ret tt else
         pc <- gets pcRef ;;
         match sdp_of_type "answer" (p_sdp p), pc with
         | Some d, Some _ => pc_setRemoteDescription env d
         | _, _ => ret tt
         end ;;
         modify (setCallState active) ;;
         modify (setConnectionStatus good) ;;
         modify (setCallStartedAt (Some (now env)))
     | None => ret tt
     end).

Definition on_ice (env : Env) (myId : string) (payload : option Payload) : JS unit :=
  try_
    (match payload with
     | Some p =>
         if not_for_me myId payload then ret tt else
         pc <- gets pcRef ;;
         match pc, p_candidate p with
         | Some _, Some c => pc_addIceCandidate env c
         | _, _ => ret tt
         end
     | None => ret tt
     end).

(** The bodies of the [decline], [hangup] and [cancel] handlers are the
    same five statements. *)
Definition on_peer_end (env : Env) (myId : string) (payload : option Payload) : JS unit :=
  try_
    (match payload with
     | Some p =>
         if not_for_me myId payload then ret tt else
         cleanupCall env ;;
         modify (setCallOpen false) ;;
         modify (setCallStartedAt None) ;;
         modify (setActiveCallId None) ;;
         modify (setCallPeerId None)
     | None => ret tt
     end).

Definition on_decline := on_peer_end.
Definition on_hangup := on_peer_end.
Definition on_cancel := on_peer_end.

(** The channel calls the handler registered for the event. *)
Definition on_broadcast (env : Env) (myId : string) (ev : EventKind)
  (payload : option Payload) : JS unit :=
  match ev with
  | ev_call => on_call myId payload
  | ev_answer => on_answer env myId payload
  | ev_ice => on_ice env myId payload
  | ev_decline => on_decline env myId payload
  | ev_hangup => on_hangup env myId payload
  | ev_cancel => on_cancel env myId payload
  end.

(** One delivery: what the browser decides during it, the event, the
    payload. *)
Record Delivery := {
  d_env : Env;
  d_event : EventKind;
  d_payload : option Payload
}.

Definition deliver (myId : string) (d : Delivery) (w : World) : World :=
  snd (on_broadcast (d_env d) myId (d_event d) (d_payload d) w).

(** The world after a sequence of deliveries, first to last. *)
Definition deliver_all (myId : string) (ds : list Delivery) (w : World) : World :=
  foldl (fun w d => deliver myId d w) w ds.

Definition addressed_to (myId : string) (d : Delivery) : bool :=
  negb (not_for_me myId (d_payload d)).

(** ** Outbound signaling and the local intents *)

(** [sendCallEvent]: every broadcast handed to [channel.send] is recorded in
    [sent], whether or not the promise then rejects. *)
Definition sendCallEvent (env : Env) (ev : EventKind) (payload : Payload) : JS unit :=
  channel <- gets callSignalChannelRef ;;
  if negb channel then ret tt else
  modify (fun w => set_sent (sent w ++ [(ev, payload)]) w) ;;
  await_ok (send_ok env).

(** An envelope without further fields. *)
Definition envelope (callId from to : string) (ts : Z) : Payload :=
  {| p_callId := Some callId; p_from := Some from; p_to := Some to;
     p_fromName := None; p_fromUsername := None; p_fromAvatarUrl := None;
     p_sdp := None; p_candidate := None; p_ts := Some ts |}.

(** The first statements of [handleStartCall], up to the async block. *)
Definition handleStartCall_begin (newCallId : string) (contact : Contact) : JS unit :=
  modify (setActiveCallId (Some newCallId)) ;;
  modify (setCallPeerId (Some (c_id contact))) ;;
  modify (setCallContact
            (Some {| cc_name := Some (c_name contact);
                     cc_username := c_username contact;
                     cc_avatarUrl := c_avatarUrl contact |})) ;;
  modify (setCallState outgoing) ;;
  modify (setConnectionStatus connecting) ;;
  modify (setCallMuted false) ;;
  modify (setCallSpeaker false) ;;
  modify (setCallCameraOff false) ;;
  modify (setCallStartedAt None) ;;
  modify (setCallOpen true) ;;
  modify (set_isCallerRef true).

(** The [try] block of the offer flow. *)
Definition offer_flow (env : Env) (newCallId : string) (user : User) (contact : Contact)
  : JS unit :=
  stream <- ensureLocalMedia env ;;
  setupPeerConnection env ;;
  forEach stream (pc_addTrack env) ;;
  offer <- await_sdp (createOffer env) ;;
  pc_setLocalDescription env offer ;;
  sendCallEvent env ev_call
    {| p_callId := Some newCallId;
       p_from := Some (u_id user);
       p_to := Some (c_id contact);
       p_fromName := Some (u_displayName user);
       p_fromUsername := Some (u_username user);
       p_fromAvatarUrl := u_avatarUrl user;
       p_sdp := Some offer;
       p_candidate := None;
       p_ts := Some (now env) |}.

(** Its [catch] block. *)
Definition offer_flow_failed (env : Env) : JS unit :=
  cleanupCall env ;;
  modify (setCallOpen false) ;;
  modify (setActiveCallId None) ;;
  modify (setCallPeerId None).

Definition handleStartCall (env : Env) (currentUser : option User)
  (activeContact : option Contact) : JS unit :=
  match activeContact, currentUser with
  | Some contact, Some user =>
      let newCallId := "call_" +:+ String_of (now env) in
      handleStartCall_begin newCallId contact ;;
      try_catch (offer_flow env newCallId user contact) (offer_flow_failed env)
  | _, _ => ret tt
  end.

(** The modal's [onAnswer]. *)
Definition onAnswer (env : Env) (currentUser : option User) : JS unit :=
  try_
    (modify (set_isCallerRef false) ;;
     setupPeerConnection env ;;
     stream <- ensureLocalMedia env ;;
     modify (setCallCameraOff false) ;;
     forEach stream (pc_addTrack env) ;;
     remoteSDP <- gets pendingRemoteSDPRef ;;
     match sdp_of_type "offer" remoteSDP with
     | Some d => pc_setRemoteDescription env d
     | None => ret tt
     end ;;
     answer <- await_sdp (createAnswer env) ;;
     pc_setLocalDescription env answer ;;
     modify (setCallState active) ;;
     modify (setConnectionStatus good) ;;
     modify (setCallStartedAt (Some (now env))) ;;
     peer <- gets callPeerId ;;
     callId <- gets activeCallId ;;
     match or_null peer, or_null callId, currentUser with
     | Some peer, Some callId, Some user =>
         sendCallEvent env ev_answer
           {| p_callId := Some callId; p_from := Some (u_id user); p_to := Some peer;
              p_fromName := None; p_fromUsername := None; p_fromAvatarUrl := None;
              p_sdp := Some answer; p_candidate := None; p_ts := Some (now env) |}
     | _, _, _ => ret tt
     end).

(** [onDecline], [onHangup] and [onCancel] differ in the event they send. *)
Definition end_locally (ev : EventKind) (env : Env) (currentUser : option User) : JS unit :=
  modify (setCallOpen false) ;;
  modify (setCallStartedAt None) ;;
  cleanupCall env ;;
  peer <- gets callPeerId ;;
  callId <- gets activeCallId ;;
  match or_null peer, or_null callId, currentUser with
  | Some peer, Some callId, Some user =>
      not_awaited (sendCallEvent env ev (envelope callId (u_id user) peer (now env)))
  | _, _, _ => ret tt
  end ;;
  modify (setActiveCallId None) ;;
  modify (setCallPeerId None).

Definition onDecline := end_locally ev_decline.
Definition onHangup := end_locally ev_hangup.
Definition onCancel := end_locally ev_cancel.

(** [t.enabled = b] on every track of the list. *)
Definition enable_all (b : bool) (ts : list nat) : JS unit :=
  forEach ts (fun t => modify (fun w => set_tracks (alter (set_enabled b) t (tracks w)) w)).

Definition onMuteToggle (m : bool) : JS unit :=
  modify (setCallMuted m) ;;
  try_ (stream <- gets localStreamRef ;;
        match stream with
        | Some s => store <- gets tracks ;; enable_all (negb m) (tracks_of_kind audio store s)
        | None => ret tt
        end).

Definition onCameraToggle (off : bool) : JS unit :=
  modify (setCallCameraOff off) ;;
  try_ (stream <- gets localStreamRef ;;
        match stream with
        | Some s => store <- gets tracks ;; enable_all (negb off) (tracks_of_kind video store s)
        | None => ret tt
        end).

Definition onSpeakerToggle (s : bool) : JS unit := modify (setCallSpeaker s).

(** ** The session as the specification names it *)

(** The lifecycle state: the page has no Idle value; the call is idle when
    the modal is closed. *)
Inductive Lifecycle := Idle | Outgoing | Incoming | Active.

Definition lifecycleState (w : World) : Lifecycle :=
  if callOpen w then
    match callState w with
    | incoming => Incoming
    | outgoing => Outgoing
    | active => Active
    end
  else Idle.

(** The page before any call: the initial values of the state cells and
    refs, the channel subscribed, both video elements mounted. *)
Definition initial_world : World :=
  {| callOpen := false; callState := outgoing; callContact := None;
     callMuted := false; callSpeaker := false; callStartedAt := None;
     connectionStatus := connecting; callPeerId := None; activeCallId := None;
     callCameraOff := false; callSignalChannelRef := true;
     localVideoRef := Some {| srcObject := None |};
     remoteVideoRef := Some {| srcObject := None |};
     pcRef := None; localStreamRef := None; remoteStreamRef := None;
     pendingRemoteSDPRef := None; isCallerRef := false;
     tracks := []; sent := [] |}.

(** A browser in which every call succeeds at time [t]. *)
Definition env_ok (t : Z) : Env :=
  {| now := t; getUserMedia := Some [audio; video]; newPeerConnection_ok := true;
     addTrack_ok := fun _ => true;
     createOffer := Some {| sdp_type := "offer"; sdp_text := "v=0 offer" |};
     createAnswer := Some {| sdp_type := "answer"; sdp_text := "v=0 answer" |};
     setLocalDescription_ok := true; setRemoteDescription_ok := true;
     addIceCandidate_ok := true; send_ok := true;
     stop_ok := fun _ => true; close_ok := true |}.

(** ** Views of the world that the statements use *)

(** What teardown leaves of a world: no connection, no streams, cleared
    video elements, and a track store [ts]. *)
Definition released (ts : list Track) (w : World) : World :=
  set_remoteVideoRef (clear_srcObject (remoteVideoRef w))
    (set_localVideoRef (clear_srcObject (localVideoRef w))
       (set_remoteStreamRef None
          (set_localStreamRef None
             (set_pcRef None (set_tracks ts w))))).

(** [t.stop()] on every track of a list, on the store. *)
Definition stop_all (l : list nat) (ts : list Track) : list Track :=
  foldl (fun ts t => alter set_ended t ts) ts l.

(** The tracks a world holds: those of the senders and receivers of the
    connection and those of the two streams. *)
Definition held_tracks (w : World) : list nat :=
  match pcRef w with
  | Some pc => omap id (senders pc) ++ omap id (receivers pc)
  | None => []
  end ++ default [] (localStreamRef w) ++ default [] (remoteStreamRef w).

(** Repeated teardown, each call in a browser of its own. *)
Definition cleanup_again (envs : list Env) (w : World) : World :=
  foldl (fun w e => snd (cleanupCall e w)) w envs.

(** [t.enabled = b] on every track of a list, on the store. *)
Definition enable_in (b : bool) (l : list nat) (ts : list Track) : list Track :=
  foldl (fun ts t => alter (set_enabled b) t ts) ts l.

(** Whether track [t], which the store holds as [x], is an audio track of
    the local stream. *)
Definition local_audio (w : World) (t : nat) (x : Track) : bool :=
  bool_decide (kind x = audio /\ t ∈ default [] (localStreamRef w)).

(** The three state updates that make a call active at time [t]. *)
Definition activate (t : Z) (w : World) : World :=
  setCallStartedAt (Some t) (setConnectionStatus good (setCallState active w)).

(** The state updates with which a call ends on a peer's event. *)
Definition ended_by_peer (ts : list Track) (w : World) : World :=
  setCallPeerId None
    (setActiveCallId None
       (setCallStartedAt None
          (setCallOpen false (released ts w)))).

(** The state updates of an incoming call. *)
Definition ring (p : Payload) (w : World) : World :=
  setCallOpen true
    (match sdp_of_type "offer" (p_sdp p) with
     | Some d => set_pendingRemoteSDPRef (Some d)
     | None => id
     end
       (setCallStartedAt None
          (setCallSpeaker false
             (setCallMuted false
                (setConnectionStatus connecting
                   (setCallState incoming
                      (setCallContact
                         (Some {| cc_name := p_fromName p;
                                  cc_username := p_fromUsername p;
                                  cc_avatarUrl := p_fromAvatarUrl p |})
                         (setCallPeerId (p_from p)
                            (setActiveCallId (or_null (p_callId p)) w))))))))).

(** The payload with another [callId]. *)
Definition with_callId (c : option string) (p : Payload) : Payload :=
  {| p_callId := c; p_from := p_from p; p_to := p_to p;
     p_fromName := p_fromName p; p_fromUsername := p_fromUsername p;
     p_fromAvatarUrl := p_fromAvatarUrl p;
     p_sdp := p_sdp p; p_candidate := p_candidate p; p_ts := p_ts p |}.

(** Whether the browser refuses the description of an answer event: there
    is a connection, the payload carries a description of type answer, and
    [setRemoteDescription] rejects. *)
Definition answer_refused (env : Env) (p : Payload) (w : World) : bool :=
  match sdp_of_type "answer" (p_sdp p), pcRef w with
  | Some _, Some _ => negb (setRemoteDescription_ok env)
  | _, _ => false
  end.

(** The candidates the connection has been given; none without a
    connection. *)
Definition applied_candidates (w : World) : list IceCandidate :=
  default [] (iceCandidates <$> pcRef w).

(** The candidates that a run of deliveries carries, in arrival order. *)
Definition candidates_of (ds : list Delivery) : list IceCandidate :=
  omap (fun d => d_payload d ≫= p_candidate) ds.

(** An ice event addressed to the local user that the browser accepts. *)
Definition ice_accepted (myId : string) (d : Delivery) : Prop :=
  d_event d = ev_ice /\ addressed_to myId d = true /\
  addIceCandidate_ok (d_env d) = true.

(** [keeps V c]: running [c] does not change the view [V] of the world,
    whether [c] returns or throws. *)
Definition keeps {X A} (V : World -> X) (c : JS A) : Prop :=
  forall w, V (snd (c w)) = V w.

(** ** Sample parties and runs *)

Definition alice : User :=
  {| u_id := "alice"; u_username := "al"; u_displayName := "Alice"; u_avatarUrl := None |}.

Definition bob : User :=
  {| u_id := "bob"; u_username := "bobby"; u_displayName := "Bob"; u_avatarUrl := None |}.

Definition bob_contact : Contact :=
  {| c_id := "bob"; c_name := "Bob"; c_username := Some "bobby"; c_avatarUrl := None |}.

Definition carol_contact : Contact :=
  {| c_id := "carol"; c_name := "Carol"; c_username := None; c_avatarUrl := None |}.

(** Alice calls Bob at time 1000: she is Outgoing with call [call_1000]. *)
Definition alice_calling : World :=
  snd (handleStartCall (env_ok 1000) (Some alice) (Some bob_contact) initial_world).

(** The offer as Bob receives it. *)
Definition offer_of_alice : Payload :=
  {| p_callId := Some "call_1000"; p_from := Some "alice"; p_to := Some "bob";
     p_fromName := Some "Alice"; p_fromUsername := Some "al"; p_fromAvatarUrl := None;
     p_sdp := Some {| sdp_type := "offer"; sdp_text := "v=0 offer" |};
     p_candidate := None; p_ts := Some 1000 |}.

(** Bob's answer as Alice receives it. *)
Definition answer_of_bob : Payload :=
  {| p_callId := Some "call_1000"; p_from := Some "bob"; p_to := Some "alice";
     p_fromName := None; p_fromUsername := None; p_fromAvatarUrl := None;
     p_sdp := Some {| sdp_type := "answer"; sdp_text := "v=0 answer" |};
     p_candidate := None; p_ts := Some 1500 |}.

(** Alice after Bob's answer arrived at time 2000: Active. *)
Definition alice_in_call : World :=
  snd (on_answer (env_ok 2000) "alice" (Some answer_of_bob) alice_calling).

(** Bob after Alice's offer arrived: Incoming, no connection yet. *)
Definition bob_ringing : World :=
  snd (on_call "bob" (Some offer_of_alice) initial_world).

(** A hangup of some other, older call, addressed to Alice. *)
Definition stale_hangup : Payload := envelope "call_999" "mallory" "alice" 2500.

(** A call from Carol to Alice. *)
Definition offer_of_carol : Payload :=
  {| p_callId := Some "call_7"; p_from := Some "carol"; p_to := Some "alice";
     p_fromName := Some "Carol"; p_fromUsername := None; p_fromAvatarUrl := None;
     p_sdp := Some {| sdp_type := "offer"; sdp_text := "v=0 carol" |};
     p_candidate := None; p_ts := Some 2500 |}.

(** A candidate of Alice for Bob. *)
Definition candidate_of_alice : Payload :=
  {| p_callId := Some "call_1000"; p_from := Some "alice"; p_to := Some "bob";
     p_fromName := None; p_fromUsername := None; p_fromAvatarUrl := None;
     p_sdp := None; p_candidate := Some "candidate:1 1 udp 2122260223 10.0.0.1 5000 typ host";
     p_ts := Some 1100 |}.

(** A browser in which the user denies the camera and microphone. *)
Definition env_media_denied (t : Z) : Env :=
  {| now := t; getUserMedia := None; newPeerConnection_ok := true;
     addTrack_ok := fun _ => true;
     createOffer := createOffer (env_ok t); createAnswer := createAnswer (env_ok t);
     setLocalDescription_ok := true; setRemoteDescription_ok := true;
     addIceCandidate_ok := true; send_ok := true;
     stop_ok := fun _ => true; close_ok := true |}.

(** A browser that refuses [addTrack], as it does for a track that the
    connection already sends. *)
Definition env_track_refused (t : Z) : Env :=
  {| now := t; getUserMedia := getUserMedia (env_ok t); newPeerConnection_ok := true;
     addTrack_ok := fun _ => false;
     createOffer := createOffer (env_ok t); createAnswer := createAnswer (env_ok t);
     setLocalDescription_ok := true; setRemoteDescription_ok := true;
     addIceCandidate_ok := true; send_ok := true;
     stop_ok := fun _ => true; close_ok := true |}.

(** Bob, ringing, after an answer event addressed to him arrived at time
    1000: Active, without a connection. *)
Definition bob_answered_remotely : World :=
  deliver "bob"
    {| d_env := env_ok 1000; d_event := ev_answer;
       d_payload := Some (envelope "call_1000" "alice" "bob" 900) |}
    bob_ringing.

(** Two candidates of Bob as they reach Alice, one after the other. *)
Definition ice_of_bob (t : Z) (c : IceCandidate) : Delivery :=
  {| d_env := env_ok t; d_event := ev_ice;
     d_payload := Some {| p_callId := Some "call_1000"; p_from := Some "bob";
                          p_to := Some "alice"; p_fromName := None;
                          p_fromUsername := None; p_fromAvatarUrl := None;
                          p_sdp := None; p_candidate := Some c;
                          p_ts := Some t |} |}.

Definition two_candidates : list Delivery :=
  [ice_of_bob 1100 "candidate:1"; ice_of_bob 1101 "candidate:2"].

(** ** The callbacks of the peer connection

    [setupPeerConnection] gives the connection two more callbacks.  They
    are closures: [onicecandidate] reads the peer id, the callId and the
    signed-in user of the render in which [setupPeerConnection] was made,
    which are arguments here, and the channel ref at the time it runs. *)

(** [pc.onicecandidate], given [e.candidate].  [channel.send] is not
    awaited. *)
Definition onicecandidate (capturedPeerId capturedCallId sessionUserId : option string)
  (env : Env) (candidate : option IceCandidate) : JS unit :=
  match candidate, or_null capturedPeerId, or_null capturedCallId, sessionUserId with
  | Some c, Some peer, Some callId, Some me =>
      channel <- gets callSignalChannelRef ;;
      if channel
      then modify (fun w =>
                     set_sent (sent w ++ [(ev_ice,
                                 {| p_callId := Some callId; p_from := Some me;
                                    p_to := Some peer; p_fromName := None;
                                    p_fromUsername := None; p_fromAvatarUrl := None;
                                    p_sdp := None; p_candidate := Some c;
                                    p_ts := Some (now env) |})]) w)
      else ret tt
  | _, _, _, _ => ret tt
  end.

(** [if (!remote.getTracks().includes(t)) remote.addTrack(t)] on the track
    list of the remote stream. *)
Definition add_if_missing (remote : MediaStream) (t : nat) : MediaStream :=
  if bool_decide (t ∈ remote) then remote else remote ++ [t].

(** The remote video element shows the remote stream object itself: the
    page assigns its [srcObject] only that object (in [ontrack]) or null (in
    [cleanupCall]).  So when its [srcObject] is set, a track added to the
    remote stream is added to what the element shows. *)
Definition reshow (s : MediaStream) (v : option VideoElement) : option VideoElement :=
  match v with
  | Some {| srcObject := Some _ |} => Some {| srcObject := Some s |}
  | _ => v
  end.

Definition add_remote_track (t : nat) (w : World) : World :=
  match remoteStreamRef w with
  | Some r =>
      set_remoteVideoRef (reshow (add_if_missing r t) (remoteVideoRef w))
        (set_remoteStreamRef (Some (add_if_missing r t)) w)
  | None => w
  end.

(** [pc.ontrack], given the tracks of [e.streams[0]] when there is one. *)
Definition ontrack (streams0 : option (list nat)) : JS unit :=
  remote <- gets remoteStreamRef ;;
  match remote with
  | Some _ => ret tt
  | None =>
      modify (set_remoteStreamRef (Some [])) ;;
      modify (fun w => set_remoteVideoRef (show_stream [] (remoteVideoRef w)) w)
  end ;;
  match streams0 with
  | Some ts => forEach ts (fun t => modify (add_remote_track t))
  | None => ret tt
  end.

(** ** Views used by the further properties *)

(** What a local decline, hangup or cancel hands to the channel: one
    envelope for the peer when the session has a peer id and a callId, a
    user is signed in and the channel is there; nothing otherwise. *)
Definition notified (ev : EventKind) (env : Env) (currentUser : option User) (w : World)
  : list (EventKind * Payload) :=
  match or_null (callPeerId w), or_null (activeCallId w), currentUser with
  | Some peer, Some callId, Some user =>
      if callSignalChannelRef w
      then [(ev, envelope callId (u_id user) peer (now env))]
      else []
  | _, _, _ => []
  end.

(** The part of the session that the modal shows and the envelopes carry. *)
Definition session_view (w : World)
  : bool * CallState * option string * option string * option Z :=
  (callOpen w, callState w, activeCallId w, callPeerId w, callStartedAt w).

(** The session, the quality, the broadcasts and the channel: what the
    media and connection steps of a flow leave alone. *)
Definition observable (w : World)
  : (bool * CallState * option string * option string * option Z)
    * ConnectionStatus * list (EventKind * Payload) * bool :=
  (session_view w, connectionStatus w, sent w, callSignalChannelRef w).

(** The answer envelope of [onAnswer]. *)
Definition answer_envelope (callId from to : string) (answer : SDP) (ts : Z) : Payload :=
  {| p_callId := Some callId; p_from := Some from; p_to := Some to;
     p_fromName := None; p_fromUsername := None; p_fromAvatarUrl := None;
     p_sdp := Some answer; p_candidate := None; p_ts := Some ts |}.

(** What an answer that got as far as its local description hands to the
    channel. *)
Definition answered (env : Env) (currentUser : option User) (answer : SDP) (w : World)
  : list (EventKind * Payload) :=
  match or_null (callPeerId w), or_null (activeCallId w), currentUser with
  | Some peer, Some callId, Some user =>
      if callSignalChannelRef w
      then [(ev_answer, answer_envelope callId (u_id user) peer answer (now env))]
      else []
  | _, _, _ => []
  end.

(** The envelope of [handleStartCall]. *)
Definition call_envelope (callId : string) (user : User) (contact : Contact)
  (offer : SDP) (ts : Z) : Payload :=
  {| p_callId := Some callId; p_from := Some (u_id user); p_to := Some (c_id contact);
     p_fromName := Some (u_displayName user);
     p_fromUsername := Some (u_username user);
     p_fromAvatarUrl := u_avatarUrl user;
     p_sdp := Some offer; p_candidate := None; p_ts := Some ts |}.

(** A browser at time [t] in which every call succeeds: the user grants
    one audio and one video track, and the created descriptions are an
    offer and an answer with the given texts. *)
Definition cooperative (t : Z) (offer answer : string) : Env :=
  {| now := t; getUserMedia := Some [audio; video]; newPeerConnection_ok := true;
     addTrack_ok := fun _ => true;
     createOffer := Some {| sdp_type := "offer"; sdp_text := offer |};
     createAnswer := Some {| sdp_type := "answer"; sdp_text := answer |};
     setLocalDescription_ok := true; setRemoteDescription_ok := true;
     addIceCandidate_ok := true; send_ok := true;
     stop_ok := fun _ => true; close_ok := true |}.

(** Whether track [t], which the store holds as [x], is a video track of
    the local stream. *)
Definition local_video (w : World) (t : nat) (x : Track) : bool :=
  bool_decide (kind x = video /\ t ∈ default [] (localStreamRef w)).

(** The track list of the remote stream after the tracks [ts] of an
    [ontrack] event were offered to it one by one. *)
Definition add_all (remote : MediaStream) (ts : list nat) : MediaStream :=
  foldl add_if_missing remote ts.

(** The remote video element, when it shows a stream, shows the remote
    stream. *)
Definition shows_remote (w : World) : Prop :=
  forall s, remoteVideoRef w = Some {| srcObject := Some s |} ->
            remoteStreamRef w = Some s.

(** The number of colons of a string. *)
Fixpoint colons (s : string) : nat :=
  match s with
  | EmptyString => 0
  | String c s' => (if Ascii.eqb c ":"%char then 1 else 0) + colons s'
  end.

(** The clock string of a number of whole seconds, in the words of the
    specification. *)
Definition clock (total : Z) : string :=
  if total <? 3600 then clock_m_ss total else clock_h_mm_ss total.

(** ** Conversations and messages: the chat side of the page

    The three state cells [conversations], [messagesByConv] and
    [activeConversationId].  [messagesByConv] is a JavaScript object used
    as a map from conversation ids to message lists; the memos [messages],
    [activeConversation] and [activeContact] are functions of the state. *)

Inductive MessageType := msg_text | msg_image | msg_file.

Inductive MessageStatus := status_sent | status_delivered | status_read.

Record ChatMessage := {
  m_id : string;
  m_senderId : string;
  m_senderName : option string;
  m_type : MessageType;
  m_content : string;
  m_imageAlt : option string;
  m_fileName : option string;
  m_fileSize : option Z;
  m_createdAt : string;
  m_status : option MessageStatus
}.

(** [createdAt] of a last message is an ISO string or a number. *)
Record LastMessage := { lm_text : string; lm_createdAt : string + Z }.

Record Conversation := {
  conv_id : string;
  conv_contact : User;
  conv_lastMessage : option LastMessage;
  conv_unreadCount : option Z
}.

Record Chat := {
  conversations : list Conversation;
  messagesByConv : gmap string (list ChatMessage);
  activeConversationId : option string
}.

(** A [File] handed to an upload handler, with what the browser answers
    while the handler maps over it: [URL.createObjectURL(f)], [Date.now()]
    and [new Date().toISOString()]. *)
Record Upload := {
  f_name : string;
  f_size : Z;
  f_url : string;
  f_now : Z;
  f_iso : string
}.

Definition handleSelectConversation (conversationId : string) (c : Chat) : Chat :=
  {| conversations := conversations c; messagesByConv := messagesByConv c;
     activeConversationId := Some conversationId |}.

(** [handleStartChatWithUser]: the updater of [setConversations], which
    also sets the active conversation. *)
Definition handleStartChatWithUser (nowMs : Z) (user : User) (c : Chat) : Chat :=
  match List.find (fun cv => bool_decide (u_id (conv_contact cv) = u_id user))
          (conversations c) with
  | Some existing =>
      {| conversations := conversations c; messagesByConv := messagesByConv c;
         activeConversationId := Some (conv_id existing) |}
  | None =>
      let newConv :=
        {| conv_id := "c_" +:+ String_of nowMs;
           conv_contact := {| u_id := u_id user; u_username := u_username user;
                              u_displayName := u_displayName user;
                              u_avatarUrl := u_avatarUrl user |};
           conv_lastMessage := None;
           conv_unreadCount := Some 0 |} in
      {| conversations := newConv :: conversations c;
         messagesByConv := messagesByConv c;
         activeConversationId := Some (conv_id newConv) |}
  end.

(** [{ ...prev, [id]: [...(prev[id] ?? []), ...more] }]. *)
Definition append_messages (id : string) (more : list ChatMessage)
  (m : gmap string (list ChatMessage)) : gmap string (list ChatMessage) :=
  <[id := default [] (m !! id) ++ more]> m.

(** [handleSendMessage]; [iso] and [iso'] are its two
    [new Date().toISOString()]. *)
Definition handleSendMessage (currentUser : option User) (text : string)
  (nowMs : Z) (iso iso' : string) (c : Chat) : Chat :=
  match currentUser, or_null (activeConversationId c) with
  | Some user, Some convId =>
      let newMessage :=
        {| m_id := "m_" +:+ String_of nowMs;
           m_senderId := u_id user;
           m_senderName := Some (u_displayName user);
           m_type := msg_text;
           m_content := text;
           m_imageAlt := None; m_fileName := None; m_fileSize := None;
           m_createdAt := iso;
           m_status := Some status_sent |} in
      {| conversations :=
           map (fun cv =>
                  if bool_decide (conv_id cv = convId)
                  then {| conv_id := conv_id cv; conv_contact := conv_contact cv;
                          conv_lastMessage :=
                            Some {| lm_text := text; lm_createdAt := inl iso' |};
                          conv_unreadCount := conv_unreadCount cv |}
                  else cv)
             (conversations c);
         messagesByConv := append_messages convId [newMessage] (messagesByConv c);
         activeConversationId := activeConversationId c |}
  | _, _ => c
  end.

Definition file_message (user : User) (idx : nat) (f : Upload) : ChatMessage :=
  {| m_id := "f_" +:+ String_of (f_now f) +:+ "_" +:+ String_of (Z.of_nat idx);
     m_senderId := u_id user;
     m_senderName := Some (u_displayName user);
     m_type := msg_file;
     m_content := f_url f;
     m_imageAlt := None; m_fileName := Some (f_name f); m_fileSize := Some (f_size f);
     m_createdAt := f_iso f;
     m_status := Some status_sent |}.

Definition image_message (user : User) (idx : nat) (f : Upload) : ChatMessage :=
  {| m_id := "i_" +:+ String_of (f_now f) +:+ "_" +:+ String_of (Z.of_nat idx);
     m_senderId := u_id user;
     m_senderName := Some (u_displayName user);
     m_type := msg_image;
     m_content := f_url f;
     m_imageAlt := Some (f_name f); m_fileName := None; m_fileSize := None;
     m_createdAt := f_iso f;
     m_status := Some status_sent |}.

Definition handleUploadFiles (currentUser : option User) (files : list Upload)
  (c : Chat) : Chat :=
  match currentUser, or_null (activeConversationId c) with
  | Some user, Some convId =>
      {| conversations := conversations c;
         messagesByConv :=
           append_messages convId (imap (file_message user) files) (messagesByConv c);
         activeConversationId := activeConversationId c |}
  | _, _ => c
  end.

Definition handleUploadImages (currentUser : option User) (files : list Upload)
  (c : Chat) : Chat :=
  match currentUser, or_null (activeConversationId c) with
  | Some user, Some convId =>
      {| conversations := conversations c;
         messagesByConv :=
           append_messages convId (imap (image_message user) files) (messagesByConv c);
         activeConversationId := activeConversationId c |}
  | _, _ => c
  end.

(** The memo [messages]. *)
Definition messages (c : Chat) : list ChatMessage :=
  match or_null (activeConversationId c) with
  | Some convId => default [] (messagesByConv c !! convId)
  | None => []
  end.

(** The memo [activeConversation]:
    [conversations.find((c) => c.id === activeConversationId) ?? null]. *)
Definition activeConversation (c : Chat) : option Conversation :=
  List.find (fun cv => bool_decide (Some (conv_id cv) = activeConversationId c))
    (conversations c).

(** The memo [activeContact]; its constant fields [online] and [isGroup]
    are not part of [Contact]. *)
Definition activeContact (c : Chat) : option Contact :=
  match activeConversation c with
  | Some cv =>
      Some {| c_id := u_id (conv_contact cv);
              c_name := u_displayName (conv_contact cv);
              c_username := Some (u_username (conv_contact cv));
              c_avatarUrl := or_null (u_avatarUrl (conv_contact cv)) |}
  | None => None
  end.

(** ** The page as a transition system *)

(** What can happen to the page between two renders: a broadcast on the
    channel, the call button of the chat, a button of the modal, a
    dismissal of the modal ([onOpenChange] is [setCallOpen]), a callback of
    the connection. *)
Inductive PageEvent :=
| Broadcast (d : Delivery)
| StartCall (env : Env) (currentUser : option User) (activeContact : option Contact)
| Answered (env : Env) (currentUser : option User)
| Declined (env : Env) (currentUser : option User)
| HungUp (env : Env) (currentUser : option User)
| Cancelled (env : Env) (currentUser : option User)
| MuteToggled (m : bool)
| CameraToggled (off : bool)
| SpeakerToggled (s : bool)
| OpenChanged (open : bool)
| ConnectionStateChanged (st : RTCPeerConnectionState)
| CandidateFound (capturedPeerId capturedCallId sessionUserId : option string)
    (env : Env) (candidate : option IceCandidate)
| TrackArrived (streams0 : option (list nat)).

Definition handle (myId : string) (e : PageEvent) : JS unit :=
  match e with
  | Broadcast d => on_broadcast (d_env d) myId (d_event d) (d_payload d)
  | StartCall env user contact => handleStartCall env user contact
  | Answered env user => onAnswer env user
  | Declined env user => onDecline env user
  | HungUp env user => onHangup env user
  | Cancelled env user => onCancel env user
  | MuteToggled m => onMuteToggle m
  | CameraToggled off => onCameraToggle off
  | SpeakerToggled s => onSpeakerToggle s
  | OpenChanged open => modify (setCallOpen open)
  | ConnectionStateChanged st => onconnectionstatechange st
  | CandidateFound peer callId me env candidate =>
      onicecandidate peer callId me env candidate
  | TrackArrived streams0 => ontrack streams0
  end.

Definition page_step (myId : string) (w : World) (e : PageEvent) : World :=
  snd (handle myId e w).

(** The world after a sequence of events, first to last. *)
Definition page_run (myId : string) (es : list PageEvent) (w : World) : World :=
  foldl (page_step myId) w es.

(** The qualities that the page gives the modal. *)
Definition quality_shown (q : ConnectionStatus) : Prop :=
  q = connecting \/ q = good \/ q = disconnected.

Definition quality_step (a b : ConnectionStatus) : Prop := b = a \/ quality_shown b.

(** A handler body moves a view of the world along a relation. *)
Definition moves {X A} (V : World -> X) (R : X -> X -> Prop) (c : JS A) : Prop :=
  forall w, R (V w) (V (snd (c w))).

(** A video element, when mounted, shows the stream held (or nothing when
    none is held). *)
Definition shows (v : option VideoElement) (s : option MediaStream) : Prop :=
  forall e, v = Some e -> srcObject e = s.

Definition video_view (w : World)
  : option VideoElement * option MediaStream * option VideoElement * option MediaStream :=
  (localVideoRef w, localStreamRef w, remoteVideoRef w, remoteStreamRef w).

Definition shows_held_in
  (x : option VideoElement * option MediaStream * option VideoElement * option MediaStream)
  : Prop :=
  shows x.1.1.1 x.1.1.2 /\ shows x.1.2 x.2.

Definition shows_held (w : World) : Prop := shows_held_in (video_view w).

Definition shows_held_step
  (a b : option VideoElement * option MediaStream * option VideoElement * option MediaStream)
  : Prop :=
  shows_held_in a -> shows_held_in b.

Definition appends_at_most (n : nat) (before after : list (EventKind * Payload)) : Prop :=
  exists l, after = before ++ l /\ (length l <= n)%nat.

(** ** The composer of the chat (ChatInterface.tsx) *)

(** A [File] in the composer: the file as the page's upload handlers see
    it, its MIME type, and what [URL.createObjectURL] answers when
    [handleFiles] makes its preview. *)
Record ComposerFile := {
  cf_file : Upload;
  cf_type : string;
  cf_previewUrl : string
}.

Record Preview := { pv_file : ComposerFile; pv_url : string }.

(** The state cells of [ChatInterface], and the object URLs revoked so
    far. *)
Record Composer := {
  input : string;
  isDragging : bool;
  imagePreviews : list Preview;
  fileQueue : list ComposerFile;
  sending : bool;
  error : option string;
  revoked : list string
}.

(** [f.type.startsWith("image/")]. *)
Definition is_image (f : ComposerFile) : bool := String.prefix "image/" (cf_type f).

(** [l.length > 0]. *)
Definition has_items {A} (l : list A) : bool :=
  match l with
  | [] => false
  | _ :: _ => true
  end.

(** The truthiness of a string. *)
Definition nonblank (s : string) : bool :=
  match s with
  | EmptyString => false
  | String _ _ => true
  end.

Definition preview_of (f : ComposerFile) : Preview :=
  {| pv_file := f; pv_url := cf_previewUrl f |}.

Definition handleFiles (files : list ComposerFile) (c : Composer) : Composer :=
  let imgs := List.filter is_image files in
  let nonImgs := List.filter (fun f => negb (is_image f)) files in
  {| input := input c; isDragging := isDragging c;
     imagePreviews :=
       if has_items imgs then imagePreviews c ++ map preview_of imgs
       else imagePreviews c;
     fileQueue := if has_items nonImgs then fileQueue c ++ nonImgs else fileQueue c;
     sending := sending c; error := error c; revoked := revoked c |}.

Definition removeImage (url : string) (c : Composer) : Composer :=
  {| input := input c; isDragging := isDragging c;
     imagePreviews :=
       List.filter (fun p => negb (bool_decide (pv_url p = url))) (imagePreviews c);
     fileQueue := fileQueue c;
     sending := sending c; error := error c; revoked := revoked c ++ [url] |}.

Definition removeFile (name : string) (size : Z) (c : Composer) : Composer :=
  {| input := input c; isDragging := isDragging c;
     imagePreviews := imagePreviews c;
     fileQueue :=
       List.filter
         (fun f => negb (bool_decide (f_name (cf_file f) = name)
                         && bool_decide (f_size (cf_file f) = size)))
         (fileQueue c);
     sending := sending c; error := error c; revoked := revoked c |}.

(** [isDisabled]; [trim] is [String.prototype.trim]. *)
Definition isDisabled (trim : string -> string) (c : Composer) : bool :=
  sending c
  || (negb (nonblank (trim (input c)))
      && negb (has_items (imagePreviews c))
      && negb (has_items (fileQueue c))).

(** How the promise of a callback settles; a rejection carries the
    [message] of what was thrown, when it has one. *)
Inductive Settled := Fulfilled | Rejected (message : option string).

(** The callbacks that the page gives the composer, acting on a state [S]
    of the page. *)
Record ChatProps (S : Type) := {
  onUploadImages : option (list ComposerFile -> S -> Settled * S);
  onUploadFiles : option (list ComposerFile -> S -> Settled * S);
  onSendMessage : option (string -> S -> Settled * S)
}.
Arguments onUploadImages {S} _.
Arguments onUploadFiles {S} _.
Arguments onSendMessage {S} _.

(** [if (cond && f) await f(a)]. *)
Definition await_prop {S A} (cond : bool) (f : option (A -> S -> Settled * S))
  (a : A) (s : S) : Settled * S :=
  match cond, f with
  | true, Some f => f a s
  | _, _ => (Fulfilled, s)
  end.

Definition and_then {S} (r : Settled * S) (k : S -> Settled * S) : Settled * S :=
  match r with
  | (Fulfilled, s) => k s
  | (Rejected m, s) => (Rejected m, s)
  end.

(** The three awaits of the [try] block of [handleSend]. *)
Definition send_all {S} (trim : string -> string) (props : ChatProps S)
  (c : Composer) (s : S) : Settled * S :=
  and_then
    (await_prop (has_items (imagePreviews c)) (onUploadImages props)
       (map pv_file (imagePreviews c)) s)
    (fun s =>
       and_then
         (await_prop (has_items (fileQueue c)) (onUploadFiles props) (fileQueue c) s)
         (fun s =>
            await_prop (nonblank (trim (input c))) (onSendMessage props)
              (trim (input c)) s)).

(** [e?.message || "Failed to send. Please try again."]. *)
Definition failure_text (m : option string) : string :=
  match m with
  | Some t => if nonblank t then t else "Failed to send. Please try again."
  | None => "Failed to send. Please try again."
  end.

Definition handleSend {S} (trim : string -> string) (props : ChatProps S)
  (c : Composer) (s : S) : Composer * S :=
  if isDisabled trim c then (c, s) else
  match send_all trim props c s with
  | (Fulfilled, s') =>
      ({| input := ""; isDragging := isDragging c;
          imagePreviews := []; fileQueue := [];
          sending := false; error := None;
          revoked := revoked c ++ map pv_url (imagePreviews c) |}, s')
  | (Rejected m, s') =>
      ({| input := input c; isDragging := isDragging c;
          imagePreviews := imagePreviews c; fileQueue := fileQueue c;
          sending := false; error := Some (failure_text m);
          revoked := revoked c |}, s')
  end.

(** The callbacks as the page passes them: its three handlers, which
    settle without throwing. *)
Definition page_props (currentUser : option User) (nowMs : Z) (iso iso' : string)
  : ChatProps Chat :=
  {| onUploadImages :=
       Some (fun files c =>
               (Fulfilled, handleUploadImages currentUser (map cf_file files) c));
     onUploadFiles :=
       Some (fun files c =>
               (Fulfilled, handleUploadFiles currentUser (map cf_file files) c));
     onSendMessage :=
       Some (fun text c =>
               (Fulfilled, handleSendMessage currentUser text nowMs iso iso' c)) |}.

(** Images among the previews, other files in the queue. *)
Definition sorted_by_kind (c : Composer) : Prop :=
  Forall (fun p => is_image (pv_file p) = true) (imagePreviews c) /\
  Forall (fun f => is_image f = false) (fileQueue c).

Definition same_key (name : string) (size : Z) (f : ComposerFile) : Prop :=
  f_name (cf_file f) = name /\ f_size (cf_file f) = size.

(** ** What the browser lets through *)

(** The stream that [ensureLocalMedia] returns in a world: the one held,
    or a new one when the browser grants the media. *)
Definition granted_stream (env : Env) (w : World) : option MediaStream :=
  match localStreamRef w with
  | Some s => Some s
  | None =>
      match getUserMedia env with
      | Some kinds => Some (seq (length (tracks w)) (length kinds))
      | None => None
      end
  end.

(** Whether [setupPeerConnection] has a connection to return: the one
    held, or a new one when the browser makes it. *)
Definition connection_available (env : Env) (w : World) : bool :=
  match pcRef w with
  | Some _ => true
  | None => newPeerConnection_ok env
  end.

(** Whether the browser lets the offer flow of [handleStartCall] through:
    the media are held or granted, a connection is held or made, every
    track of the stream is added, an offer is created and taken as local
    description, and the channel, when there, takes the envelope. *)
Definition offer_flow_ok (env : Env) (w : World) : bool :=
  match granted_stream env w with
  | Some s =>
      connection_available env w
      && forallb (addTrack_ok env) s
      && match createOffer env with Some _ => true | None => false end
      && setLocalDescription_ok env
      && (negb (callSignalChannelRef w) || send_ok env)
  | None => false
  end.

(** Whether the browser lets [onAnswer] get as far as its first state
    update: a connection is held or made, the media are held or granted,
    every track is added, the pending offer (when there is one) is taken
    as remote description, and an answer is created and taken as local
    description. *)
Definition answer_flow_ok (env : Env) (w : World) : bool :=
  connection_available env w
  && match granted_stream env w with
     | Some s =>
         forallb (addTrack_ok env) s
         && match sdp_of_type "offer" (pendingRemoteSDPRef w) with
            | Some _ => setRemoteDescription_ok env
            | None => true
            end
         && match createAnswer env with Some _ => true | None => false end
         && setLocalDescription_ok env
     | None => false
     end.

(** A start of a call during whose media prompt the user cancels: the
    statements of [handleStartCall] up to the prompt, then [onCancel], then
    the rest of the offer flow once the prompt is answered.  The callId is
    made at time [t0]; [env1] is the browser during the cancel, [env2] the
    browser from the answer to the prompt on.  There is a prompt only when
    no stream is held. *)
Definition start_cancelled_at_prompt (t0 : Z) (env1 env2 : Env) (user : User)
  (contact : Contact) : JS unit :=
  let newCallId := "call_" +:+ String_of t0 in
  handleStartCall_begin newCallId contact ;;
  onCancel env1 (Some user) ;;
  try_catch (offer_flow env2 newCallId user contact) (offer_flow_failed env2).

(** * Properties *)

(** Linear arithmetic with division and remainder by constants. *)
Ltac zdiv := Z.div_mod_to_equations; lia.

(** ** The clock string *)

Lemma padStart_two_digits (n : Z) :
  0 <= n < 60 -> padStart 2 "0" (String_of n) = two_digits n.
Proof.
  intros Hn.
  assert (Hall : forallb
            (fun k => bool_decide (padStart 2 "0" (String_of (Z.of_nat k))
                                   = two_digits (Z.of_nat k)))
            (seq 0 60) = true) by (vm_compute; reflexivity).
  rewrite forallb_forall in Hall.
  specialize (Hall (Z.to_nat n)).
  rewrite Z2Nat.id in Hall by lia.
  eapply bool_decide_eq_true_1, Hall, in_seq. lia.
Qed.

(** The two-digit field is made of two decimal digits. *)
Lemma two_digits_shape (n : Z) :
  0 <= n < 100 ->
  exists a b : Z, 0 <= a < 10 /\ 0 <= b < 10 /\ n = 10 * a + b /\
    two_digits n = String (digit_char a) (String (digit_char b) EmptyString).
Proof.
  intros Hn. exists (n / 10), (n mod 10).
  split; [zdiv|]. split; [zdiv|]. split; [zdiv | reflexivity].
Qed.

(** C10. [formatDuration] returns ["0:00"] for every input that is zero or
    negative, [m:ss] with a two-digit seconds field below one hour, and
    [h:mm:ss] with two-digit minutes and seconds fields from one hour on. *)
Theorem formatDuration_clock (ms : Z) :
  (ms <= 0 -> formatDuration ms = "0:00") /\
  (ms < 3600000 -> formatDuration ms = clock_m_ss (Z.max 0 (ms / 1000))) /\
  (3600000 <= ms -> formatDuration ms = clock_h_mm_ss (ms / 1000)).
Proof.
  unfold formatDuration.
  repeat split; intros Hms.
  - replace (Z.max 0 (ms / 1000)) with 0 by zdiv. reflexivity.
  - set (total := Z.max 0 (ms / 1000)).
    assert (Ht : 0 <= total < 3600) by (subst total; zdiv).
    replace (total / 3600) with 0 by zdiv. cbn [Z.ltb Z.compare].
    rewrite !Z.rem_mod_nonneg by lia.
    rewrite (Z.mod_small total 3600) by lia.
    rewrite padStart_two_digits by (apply Z.mod_pos_bound; lia).
    reflexivity.
  - replace (Z.max 0 (ms / 1000)) with (ms / 1000) by zdiv.
    set (total := ms / 1000).
    assert (Ht : 3600 <= total) by (subst total; zdiv).
    assert (Hh : (0 <? total / 3600) = true) by (apply Z.ltb_lt; zdiv).
    rewrite Hh. rewrite !Z.rem_mod_nonneg by lia.
    rewrite !padStart_two_digits by zdiv.
    reflexivity.
Qed.

Lemma formatDuration_clock_witness :
  formatDuration (-5) = "0:00" /\
  formatDuration 65000 = "1:05" /\
  formatDuration 3725000 = "1:02:05".
Proof.
  split; [|split].
  - apply (proj1 (formatDuration_clock (-5))). lia.
  - etransitivity;
      [apply (proj1 (proj2 (formatDuration_clock 65000))); lia
      | vm_compute; reflexivity].
  - etransitivity;
      [apply (proj2 (proj2 (formatDuration_clock 3725000))); lia
      | vm_compute; reflexivity].
Defined.

(** ** C8: connection quality *)

(** C8. The connectivity callback sets the quality to good on [connected],
    to connecting on [connecting] and to disconnected on [disconnected] and
    on [failed]; whatever the signal, the quality afterwards is the one
    before or one of these three, so no signal produces fair or poor. *)
Theorem connection_quality_mapping (w : World) :
  connectionStatus (snd (onconnectionstatechange st_connected w)) = good /\
  connectionStatus (snd (onconnectionstatechange st_connecting w)) = connecting /\
  connectionStatus (snd (onconnectionstatechange st_disconnected w)) = disconnected /\
  connectionStatus (snd (onconnectionstatechange st_failed w)) = disconnected /\
  forall st,
    fst (onconnectionstatechange st w) = Normal tt /\
    (snd (onconnectionstatechange st w) = w \/
     exists q, q ∈ [good; connecting; disconnected] /\
               snd (onconnectionstatechange st w) = setConnectionStatus q w).
Proof.
  repeat (split; [reflexivity|]).
  intros st. split; [destruct st; reflexivity|].
  destruct st; simpl; auto; right.
  - exists connecting. split; [repeat constructor | reflexivity].
  - exists good. split; [repeat constructor | reflexivity].
  - exists disconnected. split; [repeat constructor | reflexivity].
  - exists disconnected. split; [repeat constructor | reflexivity].
Qed.

(** ** C7: events addressed to somebody else *)

Lemma not_for_me_discards env myId ev payload w :
  not_for_me myId payload = true ->
  on_broadcast env myId ev payload w = (Normal tt, w).
Proof.
  intros H.
  destruct ev; simpl;
    unfold on_call, on_answer, on_ice, on_decline, on_hangup, on_cancel, on_peer_end;
    destruct payload as [p|]; try reflexivity; rewrite H; reflexivity.
Qed.

Lemma not_for_me_other myId p : p_to p <> Some myId -> not_for_me myId (Some p) = true.
Proof.
  intros H. simpl. rewrite bool_decide_eq_false_2 by exact H. reflexivity.
Qed.

Lemma deliver_all_app myId ds1 ds2 w :
  deliver_all myId (ds1 ++ ds2) w = deliver_all myId ds2 (deliver_all myId ds1 w).
Proof. unfold deliver_all. apply foldl_app. Qed.

Lemma deliver_foreign myId d w : addressed_to myId d = false -> deliver myId d w = w.
Proof.
  unfold addressed_to, deliver. intros H.
  rewrite not_for_me_discards; [reflexivity|].
  destruct (not_for_me myId (d_payload d)); [reflexivity | discriminate].
Qed.

(** C7. A broadcast of any of the six kinds whose [to] is not the local
    user's id (or that has no payload) returns without changing anything;
    hence a run of deliveries ends in the same world as the run from which
    the deliveries addressed to others are removed. *)
Theorem foreign_events_do_not_interfere (myId : string) :
  (forall env ev p w, p_to p <> Some myId ->
     on_broadcast env myId ev (Some p) w = (Normal tt, w)) /\
  (forall env ev w, on_broadcast env myId ev None w = (Normal tt, w)) /\
  (forall ds w,
     deliver_all myId ds w = deliver_all myId (List.filter (addressed_to myId) ds) w).
Proof.
  split; [|split].
  - intros env ev p w H. apply not_for_me_discards, not_for_me_other, H.
  - intros env ev w. apply not_for_me_discards. reflexivity.
  - intros ds. induction ds as [|d ds IH]; intros w; [reflexivity|].
    simpl. destruct (addressed_to myId d) eqn:Hd.
    + simpl. apply IH.
    + unfold deliver_all in *. simpl. rewrite deliver_foreign by exact Hd. apply IH.
Qed.

Lemma foreign_events_do_not_interfere_witness :
  p_to offer_of_alice <> Some "carol" /\
  on_broadcast (env_ok 1000) "carol" ev_call (Some offer_of_alice) initial_world
  = (Normal tt, initial_world).
Proof.
  assert (H : p_to offer_of_alice <> Some "carol") by discriminate.
  split; [exact H|].
  apply (proj1 (foreign_events_do_not_interfere "carol")
           (env_ok 1000) ev_call offer_of_alice initial_world H).
Defined.

(** ** C5: teardown *)

Lemma set_tracks_id w : set_tracks (tracks w) w = w.
Proof. destruct w; reflexivity. Qed.

Lemma track_stop_eq env t w :
  track_stop env t w =
  if stop_ok env t
  then (Normal tt, set_tracks (alter set_ended t (tracks w)) w)
  else (Thrown, w).
Proof. unfold track_stop. destruct (stop_ok env t); reflexivity. Qed.

Lemma stop_each_guarded env (l : list (option nat)) w :
  exists ts, forEach l (fun s => try_ (stop_track_of env s)) w
             = (Normal tt, set_tracks ts w).
Proof.
  revert w. induction l as [|s l IH]; intros w; simpl.
  - exists (tracks w). unfold ret. now rewrite set_tracks_id.
  - unfold bind, try_, try_catch.
    destruct s as [t|]; simpl; [rewrite track_stop_eq; destruct (stop_ok env t)|];
      simpl; try apply IH.
    destruct (IH (set_tracks (alter set_ended t (tracks w)) w)) as [ts Hts].
    exists ts. exact Hts.
Qed.

Lemma stop_each env (l : list nat) w :
  exists r ts, forEach l (track_stop env) w = (r, set_tracks ts w).
Proof.
  revert w. induction l as [|t l IH]; intros w; simpl.
  - exists (Normal tt), (tracks w). unfold ret. now rewrite set_tracks_id.
  - unfold bind. rewrite track_stop_eq. destruct (stop_ok env t).
    + destruct (IH (set_tracks (alter set_ended t (tracks w)) w)) as (r & ts & H).
      exists r, ts. exact H.
    + exists Thrown, (tracks w). now rewrite set_tracks_id.
Qed.

Lemma clear_srcObject_twice v : clear_srcObject (clear_srcObject v) = clear_srcObject v.
Proof. destruct v; reflexivity. Qed.

Lemma try_run body w : try_ body w = (Normal tt, snd (body w)).
Proof. unfold try_, try_catch. destruct (body w) as [[[]|] w']; reflexivity. Qed.

Lemma bind_gets {A B} (f : World -> A) (k : A -> JS B) w :
  (x <- gets f ;; k x) w = k (f w) w.
Proof. reflexivity. Qed.

Lemma bind_modify {B} f (k : JS B) w : (modify f ;; k) w = k (f w).
Proof. reflexivity. Qed.

Lemma bind_run {A B} (c : JS A) (k : A -> JS B) w :
  bind c k w
  = match c w with
    | (Normal a, w') => k a w'
    | (Thrown, w') => (Thrown, w')
    end.
Proof. reflexivity. Qed.

Lemma bind_normal {A B} (c : JS A) (k : A -> JS B) w a w' :
  c w = (Normal a, w') -> (x <- c ;; k x) w = k a w'.
Proof. unfold bind. now intros ->. Qed.

Lemma bind_thrown {A B} (c : JS A) (k : A -> JS B) w w' :
  c w = (Thrown, w') -> (x <- c ;; k x) w = (Thrown, w').
Proof. unfold bind. now intros ->. Qed.

(** Teardown returns normally and leaves a released world. *)
Lemma cleanupCall_released env w :
  exists ts, cleanupCall env w = (Normal tt, released ts w).
Proof.
  unfold cleanupCall.
  (* senders *)
  assert (H1 : exists ts,
             try_ (pc <- gets pcRef ;;
                   match pc with
                   | Some pc => forEach (senders pc) (fun s => try_ (stop_track_of env s))
                   | None => ret tt
                   end) w = (Normal tt, set_tracks ts w)).
  { rewrite try_run, bind_gets. destruct (pcRef w) as [pc|].
    - destruct (stop_each_guarded env (senders pc) w) as [ts ->]. eauto.
    - exists (tracks w). rewrite set_tracks_id. reflexivity. }
  destruct H1 as [ts1 H1]. rewrite (bind_normal _ _ _ _ _ H1). clear H1.
  set (w1 := set_tracks ts1 w).
  (* receivers *)
  assert (H2 : exists ts,
             try_ (pc <- gets pcRef ;;
                   match pc with
                   | Some pc => forEach (receivers pc) (fun r => try_ (stop_track_of env r))
                   | None => ret tt
                   end) w1 = (Normal tt, set_tracks ts w)).
  { rewrite try_run, bind_gets. change (pcRef w1) with (pcRef w).
    destruct (pcRef w) as [pc|].
    - destruct (stop_each_guarded env (receivers pc) w1) as [ts ->]. eauto.
    - exists ts1. reflexivity. }
  destruct H2 as [ts2 H2]. rewrite (bind_normal _ _ _ _ _ H2). clear H2 w1.
  set (w2 := set_tracks ts2 w).
  (* close, then pcRef.current = null *)
  assert (H3 : exists pc',
             try_ (pc <- gets pcRef ;;
                   match pc with
                   | Some _ => pc_close env
                   | None => ret tt
                   end) w2 = (Normal tt, set_pcRef pc' w2)).
  { rewrite try_run, bind_gets. change (pcRef w2) with (pcRef w).
    destruct (pcRef w) as [pc|] eqn:Hpc.
    - unfold pc_close, pc_method. rewrite bind_gets.
      change (pcRef w2) with (pcRef w). rewrite Hpc.
      destruct (close_ok env); simpl; eauto.
    - exists None. simpl. f_equal. subst w2. destruct w; simpl in *. now subst. }
  destruct H3 as [pc' H3]. rewrite (bind_normal _ _ _ _ _ H3). clear H3.
  rewrite bind_modify.
  set (w3 := set_pcRef None (set_pcRef pc' w2)).
  (* local stream *)
  assert (H4 : exists ts,
             try_ (s <- gets localStreamRef ;;
                   match s with
                   | Some s => forEach s (track_stop env)
                   | None => ret tt
                   end) w3 = (Normal tt, set_tracks ts w3)).
  { rewrite try_run, bind_gets. destruct (localStreamRef w3) as [s|].
    - destruct (stop_each env s w3) as (r & ts & ->). eauto.
    - exists (tracks w3). rewrite set_tracks_id. reflexivity. }
  destruct H4 as [ts4 H4]. rewrite (bind_normal _ _ _ _ _ H4). clear H4.
  set (w4 := set_tracks ts4 w3).
  (* remote stream *)
  assert (H5 : exists ts,
             try_ (s <- gets remoteStreamRef ;;
                   match s with
                   | Some s => forEach s (track_stop env)
                   | None => ret tt
                   end) w4 = (Normal tt, set_tracks ts w3)).
  { rewrite try_run, bind_gets. destruct (remoteStreamRef w4) as [s|].
    - destruct (stop_each env s w4) as (r & ts & ->). eauto.
    - exists ts4. reflexivity. }
  destruct H5 as [ts5 H5]. rewrite (bind_normal _ _ _ _ _ H5). clear H5.
  exists ts5. reflexivity.
Qed.

Lemma cleanupCall_of_released env ts w :
  cleanupCall env (released ts w) = (Normal tt, released ts w).
Proof.
  destruct w as [? ? ? ? ? ? ? ? ? ? ? lv rv ? ? ? ? ? ? ?].
  destruct lv, rv; vm_compute; reflexivity.
Qed.

Lemma stop_all_app l1 l2 ts : stop_all (l1 ++ l2) ts = stop_all l2 (stop_all l1 ts).
Proof. unfold stop_all. apply foldl_app. Qed.

Lemma stop_all_lookup l ts t :
  stop_all l ts !! t = (if bool_decide (t ∈ l) then set_ended else id) <$> ts !! t.
Proof.
  revert ts. induction l as [|a l IH]; intros ts.
  - simpl. now destruct (ts !! t).
  - change (stop_all (a :: l) ts) with (stop_all l (alter set_ended a ts)).
    rewrite IH. destruct (decide (a = t)) as [->|Hne].
    + rewrite list_lookup_alter_eq, (bool_decide_eq_true_2 (t ∈ t :: l)) by constructor.
      destruct (ts !! t) as [x|]; [|reflexivity]. simpl. now destruct (bool_decide _).
    + rewrite list_lookup_alter_ne by exact Hne.
      rewrite (bool_decide_ext (t ∈ a :: l) (t ∈ l)); [reflexivity|].
      rewrite elem_of_cons. intuition congruence.
Qed.

Section StopNeverThrows.
Variable env : Env.
Hypothesis stop_total : forall t, stop_ok env t = true.

Lemma stop_each_ok (l : list nat) w :
  forEach l (track_stop env) w = (Normal tt, set_tracks (stop_all l (tracks w)) w).
Proof.
  revert w. induction l as [|t l IH]; intros w; simpl.
  - unfold ret. now rewrite set_tracks_id.
  - unfold bind. rewrite track_stop_eq, stop_total, IH. reflexivity.
Qed.

Lemma stop_each_guarded_ok (l : list (option nat)) w :
  forEach l (fun s => try_ (stop_track_of env s)) w
  = (Normal tt, set_tracks (stop_all (omap id l) (tracks w)) w).
Proof.
  revert w. induction l as [|s l IH]; intros w; simpl.
  - unfold ret. now rewrite set_tracks_id.
  - unfold bind. rewrite try_run. destruct s as [t|]; simpl.
    + rewrite track_stop_eq, stop_total, IH. reflexivity.
    + apply IH.
Qed.

Lemma stop_guarded_block (sel : RTCPeerConnection -> list (option nat)) w :
  try_ (pc <- gets pcRef ;;
        match pc with
        | Some pc => forEach (sel pc) (fun s => try_ (stop_track_of env s))
        | None => ret tt
        end) w
  = (Normal tt,
     set_tracks (stop_all (default [] (omap id <$> (sel <$> pcRef w))) (tracks w)) w).
Proof.
  rewrite try_run, bind_gets. destruct (pcRef w) as [pc|]; simpl.
  - now rewrite stop_each_guarded_ok.
  - now rewrite set_tracks_id.
Qed.

Lemma stop_stream_block (sel : World -> option MediaStream) w :
  try_ (s <- gets sel ;;
        match s with
        | Some s => forEach s (track_stop env)
        | None => ret tt
        end) w
  = (Normal tt, set_tracks (stop_all (default [] (sel w)) (tracks w)) w).
Proof.
  rewrite try_run, bind_gets. destruct (sel w) as [l|]; simpl.
  - now rewrite stop_each_ok.
  - now rewrite set_tracks_id.
Qed.

Lemma close_block w :
  exists pc', try_ (pc <- gets pcRef ;;
                    match pc with
                    | Some _ => pc_close env
                    | None => ret tt
                    end) w = (Normal tt, set_pcRef pc' w).
Proof.
  rewrite try_run, bind_gets. destruct (pcRef w) as [pc|] eqn:Hpc.
  - unfold pc_close, pc_method. rewrite bind_gets, Hpc.
    destruct (close_ok env); simpl; eauto.
    exists (Some pc). rewrite <- Hpc. now destruct w.
  - exists None. rewrite <- Hpc. now destruct w.
Qed.

(** When [stop()] does not throw, teardown stops every held track. *)
Lemma cleanupCall_stops w :
  cleanupCall env w
  = (Normal tt, released (stop_all (held_tracks w) (tracks w)) w).
Proof.
  unfold cleanupCall.
  rewrite (bind_normal _ _ _ _ _ (stop_guarded_block senders w)).
  rewrite (bind_normal _ _ _ _ _ (stop_guarded_block receivers _)).
  match goal with
  | |- bind _ _ ?w' = _ => destruct (close_block w') as [pc' Hc]
  end.
  rewrite (bind_normal _ _ _ _ _ Hc). clear Hc.
  rewrite bind_modify.
  rewrite (bind_normal _ _ _ _ _ (stop_stream_block localStreamRef _)).
  rewrite (bind_normal _ _ _ _ _ (stop_stream_block remoteStreamRef _)).
  rewrite !bind_modify. unfold modify, released, held_tracks.
  simpl. destruct (pcRef w) as [pc|]; simpl; rewrite ?stop_all_app; reflexivity.
Qed.
End StopNeverThrows.

Lemma cleanup_again_cons e envs w :
  cleanup_again (e :: envs) w = cleanup_again envs (snd (cleanupCall e w)).
Proof. reflexivity. Qed.

Lemma cleanup_again_released envs ts w :
  cleanup_again envs (released ts w) = released ts w.
Proof.
  induction envs as [|e envs IH]; [reflexivity|].
  rewrite cleanup_again_cons, cleanupCall_of_released. exact IH.
Qed.

(** C5. Teardown never throws, on any world and whatever the browser does.
    It leaves no connection and no stream and clears both video elements;
    any number of further teardowns, none of which throws, leave that world
    as it is.  When [stop()] itself does not throw, every track the world
    held is ended afterwards. *)
Theorem teardown_idempotent (env : Env) (w : World) :
  let w1 := snd (cleanupCall env w) in
  fst (cleanupCall env w) = Normal tt /\
  pcRef w1 = None /\ localStreamRef w1 = None /\ remoteStreamRef w1 = None /\
  localVideoRef w1 = clear_srcObject (localVideoRef w) /\
  remoteVideoRef w1 = clear_srcObject (remoteVideoRef w) /\
  (forall env', cleanupCall env' w1 = (Normal tt, w1)) /\
  (forall envs, cleanup_again envs w1 = w1) /\
  ((forall t, stop_ok env t = true) ->
   forall t x, t ∈ held_tracks w -> tracks w1 !! t = Some x -> ended x = true).
Proof.
  destruct (cleanupCall_released env w) as [ts Hts].
  cbv zeta. rewrite Hts. cbn [fst snd].
  repeat (split; [reflexivity|]).
  split; [|split].
  - intros env'. apply cleanupCall_of_released.
  - intros envs. apply cleanup_again_released.
  - intros Hstop t x Ht Hx.
    rewrite (cleanupCall_stops env Hstop w) in Hts.
    apply (f_equal snd) in Hts. apply (f_equal tracks) in Hts.
    cbn [snd released tracks set_tracks set_pcRef set_localStreamRef
         set_remoteStreamRef set_localVideoRef set_remoteVideoRef] in Hts, Hx.
    rewrite <- Hts in Hx.
    rewrite stop_all_lookup, bool_decide_eq_true_2 in Hx by exact Ht.
    destruct (tracks w !! t); simplify_eq/=. reflexivity.
Qed.

Lemma teardown_idempotent_witness :
  (forall t, stop_ok (env_ok 3000) t = true) /\
  0%nat ∈ held_tracks alice_in_call /\
  (ended <$> tracks alice_in_call !! 0%nat) = Some false /\
  (ended <$> tracks (snd (cleanupCall (env_ok 3000) alice_in_call)) !! 0%nat)
  = Some true.
Proof.
  assert (Hstop : forall t, stop_ok (env_ok 3000) t = true) by reflexivity.
  assert (Hheld : 0%nat ∈ held_tracks alice_in_call) by (vm_compute; constructor).
  split; [exact Hstop|]. split; [exact Hheld|]. split; [reflexivity|].
  destruct (tracks (snd (cleanupCall (env_ok 3000) alice_in_call)) !! 0%nat)
    as [x|] eqn:Hx; [|vm_compute in Hx; discriminate].
  simpl. f_equal.
  destruct (teardown_idempotent (env_ok 3000) alice_in_call)
    as (_ & _ & _ & _ & _ & _ & _ & _ & Hended).
  exact (Hended Hstop 0%nat x Hheld Hx).
Defined.

(** ** C9: mute *)

Lemma enable_all_eq b l w :
  enable_all b l w = (Normal tt, set_tracks (enable_in b l (tracks w)) w).
Proof.
  unfold enable_all. revert w. induction l as [|t l IH]; intros w; simpl.
  - unfold ret. now rewrite set_tracks_id.
  - rewrite bind_modify, IH. reflexivity.
Qed.

Lemma enable_in_lookup b l ts t :
  enable_in b l ts !! t = (if bool_decide (t ∈ l) then set_enabled b else id) <$> ts !! t.
Proof.
  revert ts. induction l as [|a l IH]; intros ts.
  - simpl. now destruct (ts !! t).
  - change (enable_in b (a :: l) ts) with (enable_in b l (alter (set_enabled b) a ts)).
    rewrite IH. destruct (decide (a = t)) as [->|Hne].
    + rewrite list_lookup_alter_eq, (bool_decide_eq_true_2 (t ∈ t :: l)) by constructor.
      destruct (ts !! t) as [x|]; [|reflexivity]. simpl. now destruct (bool_decide _).
    + rewrite list_lookup_alter_ne by exact Hne.
      rewrite (bool_decide_ext (t ∈ a :: l) (t ∈ l)); [reflexivity|].
      rewrite elem_of_cons. intuition congruence.
Qed.

Lemma enable_in_length b l ts : length (enable_in b l ts) = length ts.
Proof.
  unfold enable_in. revert ts. induction l as [|a l IH]; intros ts; simpl.
  - reflexivity.
  - rewrite IH. apply length_alter.
Qed.

Lemma onMuteToggle_eq m w :
  onMuteToggle m w
  = (Normal tt,
     set_tracks
       (enable_in (negb m)
          (tracks_of_kind audio (tracks w) (default [] (localStreamRef w)))
          (tracks w))
       (setCallMuted m w)).
Proof.
  unfold onMuteToggle. rewrite bind_modify, try_run, bind_gets.
  change (localStreamRef (setCallMuted m w)) with (localStreamRef w).
  destruct (localStreamRef w) as [s|]; simpl.
  - rewrite bind_gets, enable_all_eq. reflexivity.
  - reflexivity.
Qed.

(** C9. A mute toggle returns normally and changes nothing but the muted
    flag, which becomes the toggle, and the [enabled] flag of the audio
    tracks of the local stream, which becomes its negation: muting disables
    them, unmuting enables them again.  No track is added, removed or
    stopped; nothing is sent on the channel; the connection and its
    descriptions, the lifecycle state and every other track, the video
    tracks among them, stay as they are. *)
Theorem mute_is_local (m : bool) (w : World) :
  let w' := snd (onMuteToggle m w) in
  fst (onMuteToggle m w) = Normal tt /\
  callMuted w' = m /\
  w' = set_tracks (tracks w') (setCallMuted m w) /\
  sent w' = sent w /\
  pcRef w' = pcRef w /\
  localStreamRef w' = localStreamRef w /\
  lifecycleState w' = lifecycleState w /\
  length (tracks w') = length (tracks w) /\
  forall t x, tracks w !! t = Some x ->
    exists x', tracks w' !! t = Some x' /\
      kind x' = kind x /\ ended x' = ended x /\
      enabled x' = (if local_audio w t x then negb m else enabled x).
Proof.
  cbv zeta. rewrite onMuteToggle_eq. cbn [fst snd].
  repeat (split; [reflexivity|]).
  assert (Hlook : forall t,
             enable_in (negb m)
               (tracks_of_kind audio (tracks w) (default [] (localStreamRef w)))
               (tracks w) !! t
             = (fun x => if local_audio w t x then set_enabled (negb m) x else x)
                 <$> tracks w !! t).
  { intros t. rewrite enable_in_lookup.
    destruct (tracks w !! t) as [x|] eqn:Hx; [|reflexivity]. simpl. f_equal.
    unfold local_audio, tracks_of_kind.
    rewrite (bool_decide_ext _ (kind x = audio /\ t ∈ default [] (localStreamRef w))).
    - now destruct (bool_decide _).
    - rewrite list_elem_of_filter, Hx. simpl. intuition congruence. }
  cbn [tracks set_tracks]. split.
  - apply enable_in_length.
  - intros t x Hx. rewrite Hlook, Hx. cbn [fmap option_fmap option_map].
    eexists. split; [reflexivity|].
    destruct (local_audio w t x); repeat split.
Qed.

Lemma mute_is_local_witness :
  tracks alice_in_call !! 0%nat = Some (fresh_track audio) /\
  (enabled <$> tracks (snd (onMuteToggle true alice_in_call)) !! 0%nat) = Some false /\
  (enabled <$> tracks (snd (onMuteToggle true alice_in_call)) !! 1%nat) = Some true.
Proof.
  assert (H0 : tracks alice_in_call !! 0%nat = Some (fresh_track audio)) by reflexivity.
  assert (H1 : tracks alice_in_call !! 1%nat = Some (fresh_track video)) by reflexivity.
  split; [exact H0|]. split.
  - destruct (proj2 (proj2 (proj2 (proj2 (proj2 (proj2 (proj2 (proj2
                (mute_is_local true alice_in_call))))))))
                0%nat (fresh_track audio) H0) as (x' & Hx' & _ & _ & He).
    rewrite Hx'. cbn [fmap option_fmap option_map]. f_equal. rewrite He.
    vm_compute. reflexivity.
  - destruct (proj2 (proj2 (proj2 (proj2 (proj2 (proj2 (proj2 (proj2
                (mute_is_local true alice_in_call))))))))
                1%nat (fresh_track video) H1) as (x' & Hx' & _ & _ & He).
    rewrite Hx'. cbn [fmap option_fmap option_map]. f_equal. rewrite He.
    vm_compute. reflexivity.
Defined.

(** ** Frames: what a handler body leaves alone *)

Section Keeps.
Context {X : Type} (V : World -> X).

Lemma keeps_ret {A} (a : A) : keeps V (ret a).
Proof. intros w. reflexivity. Qed.

Lemma keeps_throw {A} : keeps V (@throw A).
Proof. intros w. reflexivity. Qed.

Lemma keeps_gets {A} (f : World -> A) : keeps V (gets f).
Proof. intros w. reflexivity. Qed.

Lemma keeps_modify f : (forall w, V (f w) = V w) -> keeps V (modify f).
Proof. intros H w. apply H. Qed.

Lemma keeps_bind {A B} (c : JS A) (k : A -> JS B) :
  keeps V c -> (forall a, keeps V (k a)) -> keeps V (bind c k).
Proof.
  intros Hc Hk w. unfold bind. specialize (Hc w).
  destruct (c w) as [[a|] w']; simpl in *; [rewrite Hk|]; exact Hc.
Qed.

Lemma keeps_try_catch body handler :
  keeps V body -> keeps V handler -> keeps V (try_catch body handler).
Proof.
  intros Hb Hh w. unfold try_catch. specialize (Hb w).
  destruct (body w) as [[[]|] w']; simpl in *; [|rewrite Hh]; exact Hb.
Qed.

Lemma keeps_try body : keeps V body -> keeps V (try_ body).
Proof. intros H. apply keeps_try_catch; [exact H | apply keeps_ret]. Qed.

Lemma keeps_not_awaited c : keeps V c -> keeps V (not_awaited c).
Proof. intros H w. apply H. Qed.

Lemma keeps_forEach {A} (l : list A) (f : A -> JS unit) :
  (forall x, keeps V (f x)) -> keeps V (forEach l f).
Proof.
  intros Hf. induction l as [|x l IH]; simpl.
  - apply keeps_ret.
  - apply keeps_bind; auto.
Qed.

Lemma keeps_await_ok ok : keeps V (await_ok ok).
Proof. destruct ok; [apply keeps_ret | apply keeps_throw]. Qed.

Lemma keeps_await_sdp r : keeps V (await_sdp r).
Proof. destruct r; [apply keeps_ret | apply keeps_throw]. Qed.

Lemma keeps_pc_method ok f :
  (forall w pc, pcRef w = Some pc -> V (set_pcRef (Some (f pc)) w) = V w) ->
  keeps V (pc_method ok f).
Proof.
  intros H w. unfold pc_method. rewrite bind_gets.
  destruct (pcRef w) as [pc|] eqn:Hpc; [|reflexivity].
  destruct ok; [apply H, Hpc | reflexivity].
Qed.
End Keeps.

(** The methods of the connection, run on a world. *)
Lemma pc_method_eq ok f w :
  pc_method ok f w =
  match pcRef w with
  | Some pc => if ok then (Normal tt, set_pcRef (Some (f pc)) w) else (Thrown, w)
  | None => (Thrown, w)
  end.
Proof.
  unfold pc_method. rewrite bind_gets.
  destruct (pcRef w); [destruct ok|]; reflexivity.
Qed.

(** ** The inbound handlers as equations *)

Lemma for_me myId p : p_to p = Some myId -> not_for_me myId (Some p) = false.
Proof. intros H. simpl. now rewrite bool_decide_eq_true_2. Qed.

Lemma on_answer_eq env myId p w :
  p_to p = Some myId ->
  on_answer env myId (Some p) w =
  (Normal tt,
   match sdp_of_type "answer" (p_sdp p), pcRef w with
   | Some d, Some pc =>
       if setRemoteDescription_ok env
       then activate (now env) (set_pcRef (Some (set_remoteDescription d pc)) w)
       else w
   | _, _ => activate (now env) w
   end).
Proof.
  intros Hto. unfold on_answer. rewrite try_run, (for_me _ _ Hto), bind_gets.
  f_equal.
  destruct (sdp_of_type "answer" (p_sdp p)) as [d|]; [|reflexivity].
  destruct (pcRef w) as [pc|] eqn:Hpc; [|reflexivity].
  unfold pc_setRemoteDescription, bind at 1. rewrite pc_method_eq, Hpc.
  destruct (setRemoteDescription_ok env); reflexivity.
Qed.

Lemma on_ice_eq env myId p w :
  p_to p = Some myId ->
  on_ice env myId (Some p) w =
  (Normal tt,
   match pcRef w, p_candidate p with
   | Some pc, Some c =>
       if addIceCandidate_ok env
       then set_pcRef (Some (add_candidates [c] pc)) w
       else w
   | _, _ => w
   end).
Proof.
  intros Hto. unfold on_ice. rewrite try_run, (for_me _ _ Hto), bind_gets.
  f_equal.
  destruct (pcRef w) as [pc|] eqn:Hpc; [|reflexivity].
  destruct (p_candidate p) as [c|]; [|reflexivity].
  unfold pc_addIceCandidate. rewrite pc_method_eq, Hpc.
  destruct (addIceCandidate_ok env); reflexivity.
Qed.

Lemma on_peer_end_eq env myId p w :
  p_to p = Some myId ->
  exists ts, on_peer_end env myId (Some p) w = (Normal tt, ended_by_peer ts w).
Proof.
  intros Hto. unfold on_peer_end. rewrite try_run, (for_me _ _ Hto).
  destruct (cleanupCall_released env w) as [ts Hts].
  exists ts. rewrite (bind_normal _ _ _ _ _ Hts). reflexivity.
Qed.

Lemma on_call_eq myId p w :
  p_to p = Some myId -> on_call myId (Some p) w = (Normal tt, ring p w).
Proof.
  intros Hto. unfold on_call, ring. rewrite try_run, (for_me _ _ Hto).
  destruct (sdp_of_type "offer" (p_sdp p)); reflexivity.
Qed.

(** ** C1: the callId of an inbound event *)

(** C1, as the specification states it, fails: a hangup addressed to Alice
    that carries the callId of another call ends her active call. *)
Lemma stale_callId_counterexample :
  p_to stale_hangup = Some "alice" /\
  p_callId stale_hangup <> activeCallId alice_in_call /\
  lifecycleState alice_in_call = Active /\
  let w' := snd (on_broadcast (env_ok 3000) "alice" ev_hangup (Some stale_hangup)
                   alice_in_call) in
  lifecycleState w' = Idle /\
  callStartedAt alice_in_call = Some 2000 /\ callStartedAt w' = None /\
  callPeerId alice_in_call = Some "bob" /\ callPeerId w' = None /\
  pcRef alice_in_call <> None /\ pcRef w' = None /\
  localStreamRef alice_in_call <> None /\ localStreamRef w' = None.
Proof.
  vm_compute. repeat split; congruence.
Qed.

(** C1, amended. The handlers of answer, ice, decline, hangup and cancel
    never look at the callId of the event: the event is processed in the
    same way whatever callId it carries, matching the session's or not.
    An event addressed to somebody else changes nothing.  None of the five
    gives the session a callId: after an answer or an ice event the
    session's callId is the one before, after a decline, hangup or cancel
    addressed to the local party it is null.  Among the inbound events only
    call stores a callId: addressed to the local party it makes the event's
    callId the session's. *)
Theorem callId_is_not_consulted env myId ev (c : option string) p w :
  ev <> ev_call ->
  on_broadcast env myId ev (Some (with_callId c p)) w
  = on_broadcast env myId ev (Some p) w /\
  let w' := snd (on_broadcast env myId ev (Some p) w) in
  (p_to p <> Some myId -> w' = w) /\
  (ev = ev_answer \/ ev = ev_ice -> activeCallId w' = activeCallId w) /\
  (ev = ev_decline \/ ev = ev_hangup \/ ev = ev_cancel ->
   p_to p = Some myId -> activeCallId w' = None) /\
  (p_to p = Some myId ->
   activeCallId (snd (on_broadcast env myId ev_call (Some p) w))
   = or_null (p_callId p)).
Proof.
  intros Hev. split; [destruct ev; try reflexivity; congruence|].
  cbv zeta. split; [|split; [|split]].
  - intros Hto. now rewrite not_for_me_discards by (apply not_for_me_other, Hto).
  - intros Hkind.
    destruct (decide (p_to p = Some myId)) as [Hto|Hto];
      [|now rewrite not_for_me_discards by (apply not_for_me_other, Hto)].
    destruct Hkind as [-> | ->]; cbn [on_broadcast].
    + rewrite on_answer_eq by exact Hto. cbn [snd].
      destruct (sdp_of_type "answer" (p_sdp p)), (pcRef w),
        (setRemoteDescription_ok env); reflexivity.
    + rewrite on_ice_eq by exact Hto. cbn [snd].
      destruct (pcRef w), (p_candidate p), (addIceCandidate_ok env); reflexivity.
  - intros Hkind Hto.
    destruct (on_peer_end_eq env myId p w Hto) as [ts Hts].
    destruct Hkind as [-> | [-> | ->]]; cbn [on_broadcast];
      unfold on_decline, on_hangup, on_cancel; rewrite Hts; reflexivity.
  - intros Hto. cbn [on_broadcast]. rewrite on_call_eq by exact Hto.
    unfold ring. cbn [snd]. destruct (sdp_of_type "offer" (p_sdp p)); reflexivity.
Qed.

Lemma callId_is_not_consulted_witness :
  ev_hangup <> ev_call /\
  on_broadcast (env_ok 3000) "alice" ev_hangup (Some stale_hangup) alice_in_call
  = on_broadcast (env_ok 3000) "alice" ev_hangup
      (Some (envelope "call_1000" "mallory" "alice" 2500)) alice_in_call.
Proof.
  split; [discriminate|].
  apply (callId_is_not_consulted (env_ok 3000) "alice" ev_hangup (Some "call_999")
           (envelope "call_1000" "mallory" "alice" 2500) alice_in_call).
  discriminate.
Defined.

(** ** C3: a second call while one is live *)

(** C3, as the specification states it, fails: while Alice is in an active
    call with Bob, a call event from Carol is not rejected but takes over
    the session's callId and peer id, and so does a local start of a call
    to Carol; when the browser refuses to add the tracks that the live
    connection already sends, that start ends with the live call torn
    down. *)
Lemma busy_counterexample :
  lifecycleState alice_in_call = Active /\
  activeCallId alice_in_call = Some "call_1000" /\
  callPeerId alice_in_call = Some "bob" /\
  pcRef alice_in_call <> None /\
  (let w' := snd (on_broadcast (env_ok 3000) "alice" ev_call (Some offer_of_carol)
                    alice_in_call) in
   lifecycleState w' = Incoming /\
   activeCallId w' = Some "call_7" /\ callPeerId w' = Some "carol") /\
  (let w' := snd (handleStartCall (env_ok 3000) (Some alice) (Some carol_contact)
                    alice_in_call) in
   lifecycleState w' = Outgoing /\
   activeCallId w' = Some "call_3000" /\ callPeerId w' = Some "carol") /\
  (let w' := snd (handleStartCall (env_track_refused 3000) (Some alice)
                    (Some carol_contact) alice_in_call) in
   lifecycleState w' = Idle /\ activeCallId w' = None /\ pcRef w' = None).
Proof.
  vm_compute. repeat split; congruence.
Qed.

Lemma handleStartCall_begin_eq newCallId contact w :
  handleStartCall_begin newCallId contact w
  = (Normal tt,
     set_isCallerRef true
       (setCallOpen true
          (setCallStartedAt None
             (setCallCameraOff false
                (setCallSpeaker false
                   (setCallMuted false
                      (setConnectionStatus connecting
                         (setCallState outgoing
                            (setCallContact
                               (Some {| cc_name := Some (c_name contact);
                                        cc_username := c_username contact;
                                        cc_avatarUrl := c_avatarUrl contact |})
                               (setCallPeerId (Some (c_id contact))
                                  (setActiveCallId (Some newCallId) w))))))))))).
Proof. reflexivity. Qed.

(** C3, amended. There is no busy rejection. In every lifecycle state an
    inbound call event addressed to the local user makes the call's id and
    sender the session's callId and peer id and the state Incoming, and a
    local start of a call (a contact selected, a user signed in) makes a
    fresh id and the contact the session's callId and peer id and the state
    Outgoing.  Neither replaces the session's resources: the call event and
    the first statements of the start leave the connection, both streams and
    the tracks as they are, and the offer flow that follows takes the stream
    and the connection that are already held instead of making new ones. *)
Theorem no_busy_rejection (w : World) :
  (forall myId p, p_to p = Some myId ->
     let w' := snd (on_call myId (Some p) w) in
     activeCallId w' = or_null (p_callId p) /\ callPeerId w' = p_from p /\
     lifecycleState w' = Incoming /\
     pcRef w' = pcRef w /\ localStreamRef w' = localStreamRef w /\
     remoteStreamRef w' = remoteStreamRef w /\ tracks w' = tracks w) /\
  (forall newCallId contact,
     let w' := snd (handleStartCall_begin newCallId contact w) in
     activeCallId w' = Some newCallId /\ callPeerId w' = Some (c_id contact) /\
     lifecycleState w' = Outgoing /\
     pcRef w' = pcRef w /\ localStreamRef w' = localStreamRef w /\
     remoteStreamRef w' = remoteStreamRef w /\ tracks w' = tracks w) /\
  (forall env s, localStreamRef w = Some s -> ensureLocalMedia env w = (Normal s, w)) /\
  (forall env pc, pcRef w = Some pc -> setupPeerConnection env w = (Normal tt, w)).
Proof.
  split; [|split; [|split]].
  - intros myId p Hto. cbv zeta. rewrite on_call_eq by exact Hto.
    unfold ring. destruct (sdp_of_type "offer" (p_sdp p)); repeat split.
  - intros newCallId contact. cbv zeta. rewrite handleStartCall_begin_eq.
    repeat split.
  - intros env s Hs. unfold ensureLocalMedia. rewrite bind_gets, Hs. reflexivity.
  - intros env pc Hpc. unfold setupPeerConnection. rewrite bind_gets, Hpc. reflexivity.
Qed.

Lemma no_busy_rejection_witness :
  p_to offer_of_carol = Some "alice" /\
  activeCallId (snd (on_call "alice" (Some offer_of_carol) alice_in_call))
  = or_null (p_callId offer_of_carol).
Proof.
  split; [reflexivity|].
  apply (proj1 (no_busy_rejection alice_in_call) "alice" offer_of_carol).
  reflexivity.
Defined.

(** ** C4: an answer while the call is active *)

(** C4, as the specification states it, fails: the same answer delivered
    again at time 5000, while the call is Active, restarts the call's
    clock. *)
Lemma duplicate_answer_counterexample :
  let dup := envelope "call_1000" "alice" "bob" 900 in
  let w := bob_answered_remotely in
  let w' := snd (on_broadcast (env_ok 5000) "bob" ev_answer (Some dup) w) in
  p_to dup = Some "bob" /\ p_callId dup = activeCallId w /\
  lifecycleState w = Active /\ lifecycleState w' = Active /\
  callStartedAt w = Some 1000 /\ callStartedAt w' = Some 5000.
Proof.
  vm_compute. repeat split; congruence.
Qed.

(** C4, amended. The answer handler does not look at the lifecycle state.
    An answer addressed to the local user that arrives while the call is
    Active leaves it Active; it changes nothing at all only when the
    browser refuses its description; otherwise the call's clock restarts
    at the time of arrival, the quality becomes good and, when there is a
    connection and the payload carries a description of type answer, that
    description becomes the connection's remote description. *)
Theorem answer_while_active env myId p w :
  lifecycleState w = Active ->
  p_to p = Some myId ->
  let w' := snd (on_answer env myId (Some p) w) in
  fst (on_answer env myId (Some p) w) = Normal tt /\
  lifecycleState w' = Active /\
  if answer_refused env p w then w' = w
  else callStartedAt w' = Some (now env) /\ connectionStatus w' = good /\
       match sdp_of_type "answer" (p_sdp p), pcRef w with
       | Some d, Some pc => pcRef w' = Some (set_remoteDescription d pc)
       | _, _ => pcRef w' = pcRef w
       end.
Proof.
  intros Hact Hto. cbv zeta. rewrite on_answer_eq by exact Hto. cbn [fst snd].
  split; [reflexivity|].
  unfold answer_refused, lifecycleState in *.
  destruct (callOpen w) eqn:Hopen; [|discriminate].
  destruct (sdp_of_type "answer" (p_sdp p)) as [d|], (pcRef w) as [pc|] eqn:Hpc;
    try destruct (setRemoteDescription_ok env); simpl; rewrite ?Hopen; auto.
Qed.

Lemma answer_while_active_witness :
  lifecycleState alice_in_call = Active /\
  p_to answer_of_bob = Some "alice" /\
  lifecycleState (snd (on_answer (env_ok 5000) "alice" (Some answer_of_bob) alice_in_call))
  = Active.
Proof.
  split; [reflexivity|]. split; [reflexivity|].
  apply (answer_while_active (env_ok 5000) "alice" answer_of_bob alice_in_call);
    reflexivity.
Defined.

(** ** C2: candidates that arrive early *)

(** C2, as the specification states it, fails: a candidate that reaches Bob
    while he is ringing, before any remote description is applied, leaves
    no trace, and the connection made when Bob answers, with the offer as
    its remote description, is never given it. *)
Lemma early_candidate_counterexample :
  let w1 := bob_ringing in
  let w2 := deliver "bob" {| d_env := env_ok 1100; d_event := ev_ice;
                             d_payload := Some candidate_of_alice |} w1 in
  let w3 := snd (onAnswer (env_ok 1200) (Some bob) w2) in
  p_to candidate_of_alice = Some "bob" /\
  p_callId candidate_of_alice = activeCallId w1 /\
  p_candidate candidate_of_alice <> None /\
  pcRef w1 = None /\
  w2 = w1 /\
  lifecycleState w3 = Active /\
  (remoteDescription <$> pcRef w3) = Some (p_sdp offer_of_alice) /\
  (iceCandidates <$> pcRef w3) = Some [].
Proof.
  vm_compute. repeat split; congruence.
Qed.

Lemma add_candidates_nil pc : add_candidates [] pc = pc.
Proof. destruct pc. unfold add_candidates. simpl. now rewrite app_nil_r. Qed.

Lemma add_candidates_app cs1 cs2 pc :
  add_candidates cs2 (add_candidates cs1 pc) = add_candidates (cs1 ++ cs2) pc.
Proof. unfold add_candidates. simpl. now rewrite app_assoc. Qed.

Lemma set_pcRef_id w : set_pcRef (pcRef w) w = w.
Proof. destruct w; reflexivity. Qed.

Lemma deliver_ice_accepted myId d w pc :
  pcRef w = Some pc -> ice_accepted myId d ->
  deliver myId d w
  = set_pcRef (Some (add_candidates (candidates_of [d]) pc)) w.
Proof.
  intros Hpc (Hev & Hto & Hok).
  destruct d as [env ev payload].
  unfold deliver, candidates_of, addressed_to in *.
  cbn [d_env d_event d_payload omap list_omap] in *. subst ev.
  destruct payload as [p|]; [|discriminate].
  assert (Hp : p_to p = Some myId).
  { destruct (decide (p_to p = Some myId)) as [H|H]; [exact H|].
    rewrite (not_for_me_other _ _ H) in Hto. discriminate. }
  cbn [on_broadcast]. rewrite on_ice_eq, Hpc, Hok by exact Hp.
  cbn [snd mbind option_bind].
  destruct (p_candidate p); cbn [snd]; [reflexivity|].
  now rewrite add_candidates_nil, <- Hpc, set_pcRef_id.
Qed.

Lemma candidates_of_cons d ds :
  candidates_of (d :: ds) = candidates_of [d] ++ candidates_of ds.
Proof.
  unfold candidates_of. cbn [omap list_omap].
  destruct (d_payload d ≫= p_candidate); reflexivity.
Qed.

Lemma deliver_all_ice_accepted myId ds w pc :
  pcRef w = Some pc -> Forall (ice_accepted myId) ds ->
  deliver_all myId ds w = set_pcRef (Some (add_candidates (candidates_of ds) pc)) w.
Proof.
  intros Hpc Hds. revert w pc Hpc.
  induction Hds as [|d ds Hd Hds IH]; intros w pc Hpc.
  - simpl. now rewrite add_candidates_nil, <- Hpc, set_pcRef_id.
  - change (deliver_all myId (d :: ds) w)
      with (deliver_all myId ds (deliver myId d w)).
    rewrite (deliver_ice_accepted _ _ _ _ Hpc Hd).
    rewrite (IH _ (add_candidates (candidates_of [d]) pc)) by reflexivity.
    rewrite add_candidates_app, <- candidates_of_cons.
    reflexivity.
Qed.

Lemma deliver_ice_no_connection myId d w :
  pcRef w = None -> d_event d = ev_ice -> deliver myId d w = w.
Proof.
  intros Hpc Hev. unfold deliver. rewrite Hev. simpl on_broadcast.
  destruct (d_payload d) as [p|]; [|reflexivity].
  destruct (decide (p_to p = Some myId)) as [Hto|Hto].
  - rewrite on_ice_eq, Hpc by exact Hto. reflexivity.
  - change (on_ice (d_env d) myId (Some p) w)
      with (on_broadcast (d_env d) myId ev_ice (Some p) w).
    now rewrite not_for_me_discards by (apply not_for_me_other, Hto).
Qed.

(** Frames of the helpers that the flows share. *)
Lemma keeps_ensureLocalMedia {X} (V : World -> X) env :
  (forall ts w, V (set_tracks ts w) = V w) ->
  (forall s w, V (set_localStreamRef s w) = V w) ->
  (forall v w, V (set_localVideoRef v w) = V w) ->
  keeps V (ensureLocalMedia env).
Proof.
  intros Ht Hs Hv. unfold ensureLocalMedia.
  apply keeps_bind; [apply keeps_gets|]. intros [s|]; [apply keeps_ret|].
  destruct (getUserMedia env); [|apply keeps_throw].
  apply keeps_bind; [apply keeps_gets|]. intros store.
  repeat (apply keeps_bind; [apply keeps_modify; auto | intros _]).
  apply keeps_ret.
Qed.

Lemma keeps_sendCallEvent {X} (V : World -> X) env ev p :
  (forall l w, V (set_sent l w) = V w) -> keeps V (sendCallEvent env ev p).
Proof.
  intros Hs. unfold sendCallEvent.
  apply keeps_bind; [apply keeps_gets|]. intros [|]; simpl; [|apply keeps_ret].
  apply keeps_bind; [apply keeps_modify; auto | intros _; apply keeps_await_ok].
Qed.

Lemma keeps_candidates_setup env : keeps applied_candidates (setupPeerConnection env).
Proof.
  intros w. unfold setupPeerConnection. rewrite bind_gets.
  destruct (pcRef w) eqn:Hpc; [reflexivity|].
  destruct (newPeerConnection_ok env); [|reflexivity].
  unfold applied_candidates. simpl. now rewrite Hpc.
Qed.

Lemma keeps_candidates_method ok f :
  (forall pc, iceCandidates (f pc) = iceCandidates pc) ->
  keeps applied_candidates (pc_method ok f).
Proof.
  intros Hf. apply keeps_pc_method. intros w pc Hpc.
  unfold applied_candidates. simpl. now rewrite Hpc, Hf.
Qed.

(** Steps through a handler body whose statements leave the view alone. *)
Ltac keeps_step :=
  lazymatch goal with
  | |- keeps _ (ret _) => apply keeps_ret
  | |- keeps _ throw => apply keeps_throw
  | |- keeps _ (gets _) => apply keeps_gets
  | |- keeps _ (await_ok _) => apply keeps_await_ok
  | |- keeps _ (await_sdp _) => apply keeps_await_sdp
  | |- keeps _ (modify _) => apply keeps_modify; intros; reflexivity
  | |- keeps _ (try_ _) => apply keeps_try
  | |- keeps _ (not_awaited _) => apply keeps_not_awaited
  | |- keeps _ (forEach _ _) => apply keeps_forEach; intros
  | |- keeps _ (bind _ _) => apply keeps_bind; [|intros]
  | |- keeps _ (match ?x with _ => _ end) => destruct x
  end.

Ltac keeps_steps := repeat keeps_step.

Lemma keeps_candidates_on_answer env myId payload :
  keeps applied_candidates (on_answer env myId payload).
Proof.
  unfold on_answer. keeps_steps.
  apply keeps_candidates_method. reflexivity.
Qed.

Lemma keeps_candidates_onAnswer env user :
  keeps applied_candidates (onAnswer env user).
Proof.
  unfold onAnswer. keeps_steps;
    try (apply keeps_candidates_method; reflexivity);
    try apply keeps_candidates_setup;
    try (apply keeps_ensureLocalMedia; reflexivity);
    try (apply keeps_sendCallEvent; reflexivity).
Qed.

(** C2, amended. Nothing buffers candidates. A candidate of an ice event
    addressed to the local user is handed to the connection at once when
    there is a connection: the candidates of a run of such events that the
    browser accepts are appended to the connection's candidates in arrival
    order, each once. When there is no connection the event changes
    nothing, so its candidate is lost; applying a remote description later,
    on an answer event or on the local answer, gives the connection no
    candidate. *)
Theorem ice_applied_at_once_or_lost (myId : string) (w : World) :
  (forall ds pc, pcRef w = Some pc -> Forall (ice_accepted myId) ds ->
     deliver_all myId ds w
     = set_pcRef (Some (add_candidates (candidates_of ds) pc)) w) /\
  (forall d, pcRef w = None -> d_event d = ev_ice -> deliver myId d w = w) /\
  (forall env payload,
     applied_candidates (snd (on_answer env myId payload w)) = applied_candidates w) /\
  (forall env user,
     applied_candidates (snd (onAnswer env user w)) = applied_candidates w).
Proof.
  split; [|split; [|split]].
  - intros ds pc. apply deliver_all_ice_accepted.
  - intros d. apply deliver_ice_no_connection.
  - intros env payload. apply keeps_candidates_on_answer.
  - intros env user. apply keeps_candidates_onAnswer.
Qed.

Lemma ice_applied_at_once_or_lost_witness :
  Forall (ice_accepted "alice") two_candidates /\
  applied_candidates (deliver_all "alice" two_candidates alice_calling)
  = ["candidate:1"; "candidate:2"].
Proof.
  assert (Hds : Forall (ice_accepted "alice") two_candidates)
    by (repeat constructor).
  split; [exact Hds|].
  destruct (pcRef alice_calling) as [pc|] eqn:Hpc; [|discriminate].
  rewrite (proj1 (ice_applied_at_once_or_lost "alice" alice_calling)
             two_candidates pc Hpc Hds).
  injection Hpc as <-. reflexivity.
Defined.

(** ** C6: failures during setup *)

Lemma keeps_setup {X} (V : World -> X) env :
  (forall pc w, V (set_pcRef pc w) = V w) -> keeps V (setupPeerConnection env).
Proof.
  intros H. unfold setupPeerConnection.
  apply keeps_bind; [apply keeps_gets|]. intros [pc|]; [apply keeps_ret|].
  destruct (newPeerConnection_ok env); [apply keeps_modify; auto | apply keeps_throw].
Qed.

Lemma keeps_startedAt_offer_flow env newCallId user contact :
  keeps callStartedAt (offer_flow env newCallId user contact).
Proof.
  unfold offer_flow, pc_addTrack, pc_setLocalDescription. keeps_steps;
    try (apply keeps_pc_method; reflexivity);
    try (apply keeps_setup; reflexivity);
    try (apply keeps_ensureLocalMedia; reflexivity);
    try (apply keeps_sendCallEvent; reflexivity).
Qed.

(** The caller's path: when anything in the offer flow fails, the session
    is torn down and idle again. *)
Lemma start_failure_tears_down env user contact w :
  let newCallId := "call_" +:+ String_of (now env) in
  fst (offer_flow env newCallId user contact
         (snd (handleStartCall_begin newCallId contact w))) = Thrown ->
  let w' := snd (handleStartCall env (Some user) (Some contact) w) in
  fst (handleStartCall env (Some user) (Some contact) w) = Normal tt /\
  lifecycleState w' = Idle /\ activeCallId w' = None /\ callPeerId w' = None /\
  callStartedAt w' = None /\
  pcRef w' = None /\ localStreamRef w' = None /\ remoteStreamRef w' = None.
Proof.
  intros newCallId Hthrown. cbv zeta. unfold handleStartCall. fold newCallId.
  pose proof (keeps_startedAt_offer_flow env newCallId user contact
                (snd (handleStartCall_begin newCallId contact w))) as Hkeep.
  assert (Hb : handleStartCall_begin newCallId contact w
               = (Normal tt, snd (handleStartCall_begin newCallId contact w)))
    by reflexivity.
  rewrite (bind_normal _ _ _ _ _ Hb). clear Hb.
  unfold try_catch.
  destruct (offer_flow env newCallId user contact
              (snd (handleStartCall_begin newCallId contact w)))
    as [[[]|] w1]; [discriminate|].
  simpl in Hkeep. unfold offer_flow_failed.
  destruct (cleanupCall_released env w1) as [ts Hts].
  rewrite (bind_normal _ _ _ _ _ Hts). simpl.
  repeat split. exact Hkeep.
Qed.

(** C6 at the failing input. Bob is ringing and answers, and the browser
    refuses the camera and microphone: the answer handler has made the
    connection before it asks for the media, and its [catch] does nothing,
    so Bob's session stays Incoming and open with its callId, holding a
    connection nobody closes.  The caller's path, on the same failure,
    tears the session down. *)
Theorem answer_failure_not_torn_down :
  let w' := snd (onAnswer (env_media_denied 1200) (Some bob) bob_ringing) in
  let wa := snd (handleStartCall (env_media_denied 1000) (Some alice)
                   (Some bob_contact) initial_world) in
  lifecycleState bob_ringing = Incoming /\ pcRef bob_ringing = None /\
  fst (onAnswer (env_media_denied 1200) (Some bob) bob_ringing) = Normal tt /\
  lifecycleState w' = Incoming /\ callOpen w' = true /\
  activeCallId w' = Some "call_1000" /\ callPeerId w' = Some "alice" /\
  pcRef w' = Some new_pc /\
  lifecycleState wa = Idle /\ activeCallId wa = None /\ pcRef wa = None /\
  localStreamRef wa = None.
Proof.
  vm_compute. repeat split.
Qed.


(** * Further properties of the page and the modal *)

(** ** Ending a call locally: [onDecline], [onHangup], [onCancel] *)

Lemma sendCallEvent_eq env ev p w :
  sendCallEvent env ev p w =
  if callSignalChannelRef w
  then (if send_ok env then Normal tt else Thrown,
        set_sent (sent w ++ [(ev, p)]) w)
  else (Normal tt, w).
Proof.
  unfold sendCallEvent. rewrite bind_gets.
  destruct (callSignalChannelRef w); [|reflexivity].
  cbn [negb]. rewrite bind_modify. unfold await_ok.
  destruct (send_ok env); reflexivity.
Qed.

Lemma set_sent_same l w : l = sent w -> set_sent l w = w.
Proof. intros ->. destruct w; reflexivity. Qed.

Lemma end_locally_eq ev env user w :
  exists ts,
    end_locally ev env user w
    = (Normal tt,
       setCallPeerId None
         (setActiveCallId None
            (set_sent (sent w ++ notified ev env user w)
               (released ts (setCallStartedAt None (setCallOpen false w)))))).
Proof.
  destruct (cleanupCall_released env (setCallStartedAt None (setCallOpen false w)))
    as [ts Hts].
  exists ts. unfold end_locally. rewrite !bind_modify.
  rewrite (bind_normal _ _ _ _ _ Hts). clear Hts.
  destruct w as [? ? ? ? ? ? ? peer0 callId0 ? channel lv rv ? ? ? ? ? ? sent0].
  destruct env as [? ? ? ? ? ? ? ? ? sendok ? ?].
  assert (Hnil : sent0 ++ [] = sent0) by apply app_nil_r.
  destruct peer0 as [[|? ?]|], callId0 as [[|? ?]|], user as [u|], channel, sendok, lv, rv;
    vm_compute; vm_compute in Hnil; rewrite ?Hnil; reflexivity.
Qed.

(** X1. A local decline, hangup or cancel never throws, whatever the
    browser does and even when the broadcast is rejected, and leaves the
    session idle with its callId, peer id and start time cleared and no
    connection and no stream left. *)
Theorem local_end_releases ev env user w :
  let w' := snd (end_locally ev env user w) in
  fst (end_locally ev env user w) = Normal tt /\
  lifecycleState w' = Idle /\
  activeCallId w' = None /\ callPeerId w' = None /\ callStartedAt w' = None /\
  pcRef w' = None /\ localStreamRef w' = None /\ remoteStreamRef w' = None /\
  localVideoRef w' = clear_srcObject (localVideoRef w) /\
  remoteVideoRef w' = clear_srcObject (remoteVideoRef w).
Proof.
  destruct (end_locally_eq ev env user w) as [ts Hts].
  cbv zeta. rewrite Hts. repeat split.
Qed.

Lemma notified_inv ev env user w k p :
  (k, p) ∈ notified ev env user w ->
  k = ev /\ p_callId p = or_null (activeCallId w) /\
  p_to p = or_null (callPeerId w) /\ p_from p = u_id <$> user /\
  p_sdp p = None /\ p_candidate p = None /\ is_Some (p_to p).
Proof.
  unfold notified.
  destruct (or_null (callPeerId w)) as [peer|],
           (or_null (activeCallId w)) as [callId|], user as [u|],
           (callSignalChannelRef w); simpl;
    try (intros Hin; apply elem_of_nil in Hin; contradiction).
  intros Hin. apply list_elem_of_singleton in Hin. injection Hin as -> ->.
  repeat split. eexists. reflexivity.
Qed.

(** X2. A local decline, hangup or cancel hands the channel exactly one
    envelope, of its own kind, carrying the session's callId, from the
    signed-in user to the session's peer, when the session has a peer id
    and a callId, a user is signed in and the channel is there; otherwise
    it sends nothing. *)
Theorem local_end_notifies ev env user w :
  sent (snd (end_locally ev env user w)) = sent w ++ notified ev env user w /\
  (forall k p, (k, p) ∈ notified ev env user w ->
     k = ev /\ p_callId p = or_null (activeCallId w) /\
     p_to p = or_null (callPeerId w) /\ p_from p = u_id <$> user /\
     p_sdp p = None /\ p_candidate p = None) /\
  (length (notified ev env user w) <= 1)%nat.
Proof.
  destruct (end_locally_eq ev env user w) as [ts Hts]. rewrite Hts.
  split; [reflexivity|]. split.
  - intros k p Hin. destruct (notified_inv _ _ _ _ _ _ Hin) as (?&?&?&?&?&?&?).
    repeat split; assumption.
  - unfold notified.
    destruct (or_null (callPeerId w)), (or_null (activeCallId w)), user,
             (callSignalChannelRef w); simpl; lia.
Qed.


(** X3. The envelope that a local decline, hangup or cancel sends reaches
    its peer and nobody else: delivered to the page of the session's peer,
    in whatever state that page is, it ends that page's call (idle, ids
    cleared, nothing held); delivered to the page of any other user it
    changes nothing. *)
Theorem local_end_reaches_peer ev envA user wA k p envB myId wB :
  ev ∈ [ev_decline; ev_hangup; ev_cancel] ->
  (k, p) ∈ notified ev envA user wA ->
  let wB' := snd (on_broadcast envB myId k (Some p) wB) in
  (Some myId = or_null (callPeerId wA) ->
   lifecycleState wB' = Idle /\ activeCallId wB' = None /\ callPeerId wB' = None /\
   callStartedAt wB' = None /\
   pcRef wB' = None /\ localStreamRef wB' = None /\ remoteStreamRef wB' = None) /\
  (Some myId <> or_null (callPeerId wA) -> wB' = wB).
Proof.
  intros Hev Hin. destruct (notified_inv _ _ _ _ _ _ Hin) as (-> & _ & Hto & _).
  cbv zeta. split.
  - intros Hme. rewrite <- Hme in Hto.
    destruct (on_peer_end_eq envB myId p wB Hto) as [ts Hts].
    assert (Hk : on_broadcast envB myId ev (Some p) wB
                 = on_peer_end envB myId (Some p) wB).
    { apply elem_of_cons in Hev as [->|Hev]; [reflexivity|].
      apply elem_of_cons in Hev as [->|Hev]; [reflexivity|].
      apply list_elem_of_singleton in Hev as ->. reflexivity. }
    rewrite Hk, Hts. repeat split.
  - intros Hme. rewrite not_for_me_discards; [reflexivity|].
    apply not_for_me_other. rewrite Hto. congruence.
Qed.

Lemma local_end_reaches_peer_witness :
  ev_hangup ∈ [ev_decline; ev_hangup; ev_cancel] /\
  (ev_hangup, envelope "call_1000" "alice" "bob" 3000)
    ∈ notified ev_hangup (env_ok 3000) (Some alice) alice_in_call /\
  Some "bob" = or_null (callPeerId alice_in_call) /\
  lifecycleState
    (snd (on_broadcast (env_ok 3001) "bob" ev_hangup
            (Some (envelope "call_1000" "alice" "bob" 3000)) bob_ringing)) = Idle.
Proof.
  assert (H1 : ev_hangup ∈ [ev_decline; ev_hangup; ev_cancel])
    by (apply list_elem_of_further, list_elem_of_here).
  assert (H2 : (ev_hangup, envelope "call_1000" "alice" "bob" 3000)
                 ∈ notified ev_hangup (env_ok 3000) (Some alice) alice_in_call)
    by (vm_compute; apply list_elem_of_here).
  assert (H3 : Some "bob" = or_null (callPeerId alice_in_call)) by reflexivity.
  split; [exact H1|]. split; [exact H2|]. split; [exact H3|].
  apply (proj1 (local_end_reaches_peer ev_hangup (env_ok 3000) (Some alice)
                  alice_in_call ev_hangup _ (env_ok 3001) "bob" bob_ringing H1 H2) H3).
Defined.

Lemma local_end_notifies_witness :
  (ev_hangup, envelope "call_1000" "alice" "bob" 3000)
    ∈ notified ev_hangup (env_ok 3000) (Some alice) alice_in_call /\
  p_to (envelope "call_1000" "alice" "bob" 3000) = or_null (callPeerId alice_in_call).
Proof.
  assert (H : (ev_hangup, envelope "call_1000" "alice" "bob" 3000)
                ∈ notified ev_hangup (env_ok 3000) (Some alice) alice_in_call)
    by (vm_compute; apply list_elem_of_here).
  split; [exact H|].
  apply (proj1 (proj2 (local_end_notifies ev_hangup (env_ok 3000) (Some alice)
                         alice_in_call)) _ _ H).
Defined.

(** ** Acquiring the local media: [ensureLocalMedia] *)

(** X4. When no stream is held and the browser refuses the media,
    [ensureLocalMedia] throws and changes nothing.  When the browser grants
    it, the new stream's tracks are new entries at the end of the track
    store, enabled and live, every track that was in the store stays as it
    was, and the stream is kept: a later call, whatever the browser would
    answer then, returns the same stream and changes nothing. *)
Theorem ensureLocalMedia_fresh_then_held env w :
  localStreamRef w = None ->
  (getUserMedia env = None -> ensureLocalMedia env w = (Thrown, w)) /\
  (forall kinds, getUserMedia env = Some kinds ->
     let s := seq (length (tracks w)) (length kinds) in
     let w' := snd (ensureLocalMedia env w) in
     fst (ensureLocalMedia env w) = Normal s /\
     localStreamRef w' = Some s /\
     pcRef w' = pcRef w /\ sent w' = sent w /\ session_view w' = session_view w /\
     (forall t x, tracks w !! t = Some x -> tracks w' !! t = Some x) /\
     (forall i k, kinds !! i = Some k ->
        s !! i = Some (length (tracks w) + i)%nat /\
        tracks w !! (length (tracks w) + i)%nat = None /\
        tracks w' !! (length (tracks w) + i)%nat = Some (fresh_track k)) /\
     (forall env', ensureLocalMedia env' w' = (Normal s, w'))).
Proof.
  intros Hnone. unfold ensureLocalMedia. rewrite bind_gets, Hnone. split.
  - intros ->. reflexivity.
  - intros kinds ->. cbv zeta. rewrite bind_gets, !bind_modify. unfold ret.
    cbn [fst snd]. split; [reflexivity|]. split; [reflexivity|].
    split; [reflexivity|]. split; [reflexivity|]. split; [reflexivity|].
    cbn [tracks set_localVideoRef set_localStreamRef set_tracks].
    split; [|split].
    + intros t x Hx. apply lookup_app_l_Some. exact Hx.
    + intros i k Hk. split; [|split].
      * apply lookup_seq. split; [reflexivity|]. eapply lookup_lt_Some. exact Hk.
      * apply lookup_ge_None. lia.
      * rewrite lookup_app_r by lia.
        replace (length (tracks w) + i - length (tracks w))%nat with i by lia.
        rewrite list_lookup_fmap, Hk. reflexivity.
    + intros env'. reflexivity.
Qed.

Lemma ensureLocalMedia_fresh_then_held_witness :
  localStreamRef bob_ringing = None /\
  getUserMedia (env_ok 1200) = Some [audio; video] /\
  fst (ensureLocalMedia (env_ok 1200) bob_ringing) = Normal [0; 1]%nat.
Proof.
  split; [reflexivity|]. split; [reflexivity|].
  apply (proj2 (ensureLocalMedia_fresh_then_held (env_ok 1200) bob_ringing eq_refl)
           [audio; video] eq_refl).
Defined.

(** ** Starting a call: [handleStartCall] *)

Lemma keeps_session_offer_flow env newCallId user contact :
  keeps session_view (offer_flow env newCallId user contact).
Proof.
  unfold offer_flow, pc_addTrack, pc_setLocalDescription. keeps_steps;
    try (apply keeps_pc_method; reflexivity);
    try (apply keeps_setup; reflexivity);
    try (apply keeps_ensureLocalMedia; reflexivity);
    try (apply keeps_sendCallEvent; reflexivity).
Qed.

Lemma session_view_eq w o st cid peer t :
  session_view w = (o, st, cid, peer, t) ->
  callOpen w = o /\ callState w = st /\ activeCallId w = cid /\
  callPeerId w = peer /\ callStartedAt w = t.
Proof. unfold session_view. intros H. injection H. auto. Qed.

(** The two ways in which a start of a call ends. *)
Lemma handleStartCall_cases env user contact w :
  let newCallId := "call_" +:+ String_of (now env) in
  let w' := snd (handleStartCall env (Some user) (Some contact) w) in
  fst (handleStartCall env (Some user) (Some contact) w) = Normal tt /\
  ((session_view w' = (true, outgoing, Some newCallId, Some (c_id contact), None) /\
    connectionStatus w' = connecting)
   \/
   (lifecycleState w' = Idle /\ activeCallId w' = None /\ callPeerId w' = None /\
    callStartedAt w' = None /\
    pcRef w' = None /\ localStreamRef w' = None /\ remoteStreamRef w' = None)).
Proof.
  intros newCallId. cbv zeta.
  destruct (fst (offer_flow env newCallId user contact
                   (snd (handleStartCall_begin newCallId contact w)))) eqn:Hflow.
  - (* the offer flow returned *)
    pose proof (keeps_session_offer_flow env newCallId user contact
                  (snd (handleStartCall_begin newCallId contact w))) as Hkeep.
    assert (Hconn : keeps connectionStatus (offer_flow env newCallId user contact)).
    { unfold offer_flow, pc_addTrack, pc_setLocalDescription. keeps_steps;
        try (apply keeps_pc_method; reflexivity);
        try (apply keeps_setup; reflexivity);
        try (apply keeps_ensureLocalMedia; reflexivity);
        try (apply keeps_sendCallEvent; reflexivity). }
    specialize (Hconn (snd (handleStartCall_begin newCallId contact w))).
    unfold handleStartCall. fold newCallId.
    assert (Hb : handleStartCall_begin newCallId contact w
                 = (Normal tt, snd (handleStartCall_begin newCallId contact w)))
      by reflexivity.
    rewrite (bind_normal _ _ _ _ _ Hb). clear Hb. unfold try_catch.
    destruct (offer_flow env newCallId user contact
                (snd (handleStartCall_begin newCallId contact w)))
      as [[[]|] w1]; [|discriminate].
    cbn [fst snd] in *. split; [reflexivity|]. left.
    rewrite Hkeep, Hconn. split; reflexivity.
  - (* the offer flow threw *)
    destruct (start_failure_tears_down env user contact w Hflow) as [Hret Hrest].
    split; [exact Hret|]. right. exact Hrest.
Qed.

(** The steps that the flows share, with what decides their outcome. *)
Lemma ensureLocalMedia_granted env w :
  match granted_stream env w with
  | Some s =>
      exists w1, ensureLocalMedia env w = (Normal s, w1) /\ localStreamRef w1 = Some s
  | None => ensureLocalMedia env w = (Thrown, w)
  end.
Proof.
  unfold granted_stream, ensureLocalMedia. rewrite bind_gets.
  destruct (localStreamRef w) as [s|] eqn:Hs.
  - exists w. split; [reflexivity | exact Hs].
  - destruct (getUserMedia env) as [kinds|]; [|reflexivity].
    eexists. split; reflexivity.
Qed.

Lemma setup_available env w :
  if connection_available env w
  then exists w1 pc, setupPeerConnection env w = (Normal tt, w1) /\ pcRef w1 = Some pc
  else setupPeerConnection env w = (Thrown, w).
Proof.
  unfold connection_available, setupPeerConnection. rewrite bind_gets.
  destruct (pcRef w) as [pc|] eqn:Hpc.
  - exists w, pc. split; [reflexivity | exact Hpc].
  - destruct (newPeerConnection_ok env); [|reflexivity].
    eexists _, _. split; reflexivity.
Qed.

Lemma addTracks_result env s w pc :
  pcRef w = Some pc ->
  exists w1 pc1,
    forEach s (pc_addTrack env) w
    = (if forallb (addTrack_ok env) s then Normal tt else Thrown, w1) /\
    pcRef w1 = Some pc1.
Proof.
  revert w pc. induction s as [|t s IH]; intros w pc Hpc.
  - exists w, pc. split; [reflexivity | exact Hpc].
  - cbn [forEach forallb]. unfold pc_addTrack at 1, bind at 1.
    rewrite pc_method_eq, Hpc. destruct (addTrack_ok env t).
    + destruct (IH (set_pcRef (Some (add_sender t pc)) w) (add_sender t pc) eq_refl)
        as (w1 & pc1 & Hrun & Hpc1).
      exists w1, pc1. split; [exact Hrun | exact Hpc1].
    + exists w, pc. split; [reflexivity | exact Hpc].
Qed.

(** What the flows leave alone while they acquire the media and the
    connection. *)
Lemma keeps_media_frame env :
  keeps (fun w => (pcRef w, pendingRemoteSDPRef w, callSignalChannelRef w, sent w))
    (ensureLocalMedia env).
Proof. apply keeps_ensureLocalMedia; reflexivity. Qed.

Lemma keeps_setup_frame env :
  keeps (fun w => (localStreamRef w, tracks w, pendingRemoteSDPRef w,
                   callSignalChannelRef w, sent w))
    (setupPeerConnection env).
Proof. apply keeps_setup; reflexivity. Qed.

Lemma keeps_addTracks_frame env (s : list nat) :
  keeps (fun w => (localStreamRef w, pendingRemoteSDPRef w, callSignalChannelRef w,
                   sent w))
    (forEach s (pc_addTrack env)).
Proof. apply keeps_forEach. intros t. apply keeps_pc_method. reflexivity. Qed.

(** The offer flow throws exactly when the browser does not let it
    through; when it returns, the connection has the created offer as its
    local description and the channel, when there, was handed the call
    envelope. *)
Lemma offer_flow_result env newCallId user contact w0 :
  (offer_flow_ok env w0 = true /\
   exists offer pc w1,
     offer_flow env newCallId user contact w0 = (Normal tt, w1) /\
     createOffer env = Some offer /\ pcRef w1 = Some pc /\
     localDescription pc = Some offer /\
     localStreamRef w1 = granted_stream env w0 /\
     sent w1 = sent w0 ++
               (if callSignalChannelRef w0
                then [(ev_call, call_envelope newCallId user contact offer (now env))]
                else []))
  \/
  (offer_flow_ok env w0 = false /\
   fst (offer_flow env newCallId user contact w0) = Thrown).
Proof.
  unfold offer_flow_ok, offer_flow.
  (* the media *)
  pose proof (ensureLocalMedia_granted env w0) as Hmedia.
  pose proof (keeps_media_frame env w0) as Hf1.
  destruct (granted_stream env w0) as [s|] eqn:Hg;
    [|right; split; [reflexivity|];
      now rewrite (bind_thrown _ _ _ _ Hmedia)].
  destruct Hmedia as (w1 & Hrun1 & Hs1).
  rewrite Hrun1 in Hf1. cbn [snd] in Hf1. injection Hf1 as Hpc1 _ Hch1 Hsent1.
  rewrite (bind_normal _ _ _ _ _ Hrun1). clear Hrun1.
  (* the connection *)
  pose proof (setup_available env w1) as Hsetup.
  pose proof (keeps_setup_frame env w1) as Hf2.
  assert (Hconn : connection_available env w1 = connection_available env w0)
    by (unfold connection_available; now rewrite Hpc1).
  rewrite Hconn in Hsetup. clear Hconn.
  destruct (connection_available env w0);
    [|right; split; [reflexivity|];
      now rewrite (bind_thrown _ _ _ _ Hsetup)].
  destruct Hsetup as (w2 & pc2 & Hrun2 & Hpc2).
  rewrite Hrun2 in Hf2. cbn [snd] in Hf2. injection Hf2 as Hs2 _ _ Hch2 Hsent2.
  rewrite (bind_normal _ _ _ _ _ Hrun2). clear Hrun2.
  (* the tracks *)
  destruct (addTracks_result env s w2 pc2 Hpc2) as (w3 & pc3 & Hrun3 & Hpc3).
  pose proof (keeps_addTracks_frame env s w2) as Hf3.
  rewrite Hrun3 in Hf3. cbn [snd] in Hf3. injection Hf3 as Hs3 _ Hch3 Hsent3.
  destruct (forallb (addTrack_ok env) s);
    [|right; split; [reflexivity|];
      now rewrite (bind_thrown _ _ _ _ Hrun3)].
  rewrite (bind_normal _ _ _ _ _ Hrun3). clear Hrun3.
  (* the offer *)
  destruct (createOffer env) as [offer|];
    [|right; split; [reflexivity|]; reflexivity].
  rewrite (bind_normal _ _ _ _ _ (eq_refl : await_sdp (Some offer) w3 = (Normal offer, w3))).
  (* the local description *)
  unfold pc_setLocalDescription. rewrite bind_run, pc_method_eq, Hpc3.
  destruct (setLocalDescription_ok env);
    [|right; split; [reflexivity|]; reflexivity].
  cbv beta iota.
  (* the envelope *)
  rewrite sendCallEvent_eq.
  cbn [callSignalChannelRef set_pcRef].
  assert (Hch : callSignalChannelRef w3 = callSignalChannelRef w0) by congruence.
  assert (Hsent : sent w3 = sent w0) by congruence.
  assert (Hstream : localStreamRef w3 = Some s) by congruence.
  rewrite Hch. destruct (callSignalChannelRef w0).
  - destruct (send_ok env); [left|right; split; reflexivity].
    split; [reflexivity|]. eexists offer, _, _. split; [reflexivity|].
    split; [reflexivity|]. cbn [pcRef set_pcRef set_sent sent localStreamRef].
    split; [reflexivity|]. split; [reflexivity|]. split; [exact Hstream|].
    rewrite Hsent. reflexivity.
  - left. split; [reflexivity|]. eexists offer, _, _. split; [reflexivity|].
    split; [reflexivity|]. cbn [pcRef set_pcRef localStreamRef sent].
    split; [reflexivity|]. split; [reflexivity|]. split; [exact Hstream|].
    rewrite Hsent. now rewrite app_nil_r.
Qed.

(** X5. A start of a call, run to its end with no other event of the page
    in between, never throws.  Without a selected contact or without a
    signed-in user it changes nothing.  Otherwise its end is decided by the
    browser.  When the browser lets the offer flow through (the media are
    held or granted, a connection is held or made, every track is added, an
    offer is created and taken as local description, and the channel, when
    there, takes the envelope), the session is Outgoing with the callId
    [call_<now>], the contact as peer, no start time and quality
    connecting, the stream is held, the connection has the offer as its
    local description, and the channel, when there, was handed exactly the
    call envelope with that offer.  When any of these steps fails, the
    session is idle again with its ids cleared and no connection and no
    stream left. *)
Theorem handleStartCall_outcome env user contact w :
  (forall u, handleStartCall env u None w = (Normal tt, w)) /\
  (forall c, handleStartCall env None c w = (Normal tt, w)) /\
  let w' := snd (handleStartCall env (Some user) (Some contact) w) in
  let newCallId := "call_" +:+ String_of (now env) in
  fst (handleStartCall env (Some user) (Some contact) w) = Normal tt /\
  (offer_flow_ok env w = true ->
   lifecycleState w' = Outgoing /\
   activeCallId w' = Some newCallId /\
   callPeerId w' = Some (c_id contact) /\ callStartedAt w' = None /\
   connectionStatus w' = connecting /\
   localStreamRef w' = granted_stream env w /\
   exists offer pc,
     createOffer env = Some offer /\ pcRef w' = Some pc /\
     localDescription pc = Some offer /\
     sent w' = sent w ++
               (if callSignalChannelRef w
                then [(ev_call, call_envelope newCallId user contact offer (now env))]
                else [])) /\
  (offer_flow_ok env w = false ->
   lifecycleState w' = Idle /\ activeCallId w' = None /\ callPeerId w' = None /\
   callStartedAt w' = None /\
   pcRef w' = None /\ localStreamRef w' = None /\ remoteStreamRef w' = None).
Proof.
  split; [intros [u|]; reflexivity|].
  split; [intros [c|]; reflexivity|].
  cbv zeta. set (newCallId := "call_" +:+ String_of (now env)).
  set (w0 := snd (handleStartCall_begin newCallId contact w)).
  assert (Hok0 : offer_flow_ok env w0 = offer_flow_ok env w) by reflexivity.
  assert (Hg0 : granted_stream env w0 = granted_stream env w) by reflexivity.
  assert (Hsent0 : sent w0 = sent w) by reflexivity.
  assert (Hch0 : callSignalChannelRef w0 = callSignalChannelRef w) by reflexivity.
  destruct (offer_flow_result env newCallId user contact w0)
    as [(Hok & offer & pc & w1 & Hrun & Hoffer & Hpc & Hlocal & Hstream & Hsent)
       |(Hok & Hthrown)];
    rewrite Hok0 in Hok.
  - (* the offer flow returned *)
    pose proof (keeps_session_offer_flow env newCallId user contact w0) as Hkeep.
    assert (Hconn : keeps connectionStatus (offer_flow env newCallId user contact)).
    { unfold offer_flow, pc_addTrack, pc_setLocalDescription. keeps_steps;
        try (apply keeps_pc_method; reflexivity);
        try (apply keeps_setup; reflexivity);
        try (apply keeps_ensureLocalMedia; reflexivity);
        try (apply keeps_sendCallEvent; reflexivity). }
    specialize (Hconn w0). rewrite Hrun in Hkeep, Hconn. cbn [snd] in Hkeep, Hconn.
    assert (Hw' : handleStartCall env (Some user) (Some contact) w = (Normal tt, w1)).
    { unfold handleStartCall. fold newCallId.
      assert (Hb : handleStartCall_begin newCallId contact w = (Normal tt, w0))
        by reflexivity.
      rewrite (bind_normal _ _ _ _ _ Hb). unfold try_catch. rewrite Hrun.
      reflexivity. }
    rewrite Hw'. cbn [fst snd]. split; [reflexivity|]. split; [|congruence].
    intros _.
    assert (Hv : session_view w1
                 = (true, outgoing, Some newCallId, Some (c_id contact), None))
      by (rewrite Hkeep; reflexivity).
    apply session_view_eq in Hv as (Ho & Hs & Hid & Hp & Ht).
    unfold lifecycleState. rewrite Ho, Hs.
    split; [reflexivity|]. split; [exact Hid|]. split; [exact Hp|].
    split; [exact Ht|]. split; [rewrite Hconn; reflexivity|].
    split; [now rewrite Hstream, Hg0|].
    exists offer, pc. split; [exact Hoffer|]. split; [exact Hpc|].
    split; [exact Hlocal|]. rewrite Hsent, Hsent0, Hch0. reflexivity.
  - (* the offer flow threw *)
    destruct (start_failure_tears_down env user contact w Hthrown) as [Hret Hrest].
    split; [exact Hret|]. split; [congruence|]. intros _. exact Hrest.
Qed.

Lemma handleStartCall_outcome_witness :
  offer_flow_ok (env_ok 1000) initial_world = true /\
  lifecycleState
    (snd (handleStartCall (env_ok 1000) (Some alice) (Some bob_contact) initial_world))
  = Outgoing.
Proof.
  assert (H : offer_flow_ok (env_ok 1000) initial_world = true) by reflexivity.
  split; [exact H|].
  exact (proj1 (proj1 (proj2 (proj2 (proj2
           (handleStartCall_outcome (env_ok 1000) alice bob_contact initial_world))))
           H)).
Defined.

(** ** A cancel while the media prompt is open *)

(** X27. A cancel during the media prompt does not stop the start.  When
    no stream is held, the channel is there, and the browser, once the
    prompt is answered, lets the offer flow through, the page ends idle
    with its callId and peer id cleared, but holding the new stream and a
    connection with the offer as its local description; and the channel was
    handed the cancel envelope and, after it, the call envelope of the same
    callId, both addressed to the contact. *)
Theorem cancel_at_the_prompt_does_not_stop_the_start
  t0 env1 env2 user contact kinds offer w :
  localStreamRef w = None ->
  callSignalChannelRef w = true ->
  c_id contact <> "" ->
  getUserMedia env2 = Some kinds ->
  newPeerConnection_ok env2 = true ->
  (forall t, addTrack_ok env2 t = true) ->
  createOffer env2 = Some offer ->
  setLocalDescription_ok env2 = true ->
  send_ok env2 = true ->
  let newCallId := "call_" +:+ String_of t0 in
  let w' := snd (start_cancelled_at_prompt t0 env1 env2 user contact w) in
  fst (start_cancelled_at_prompt t0 env1 env2 user contact w) = Normal tt /\
  lifecycleState w' = Idle /\ activeCallId w' = None /\ callPeerId w' = None /\
  is_Some (localStreamRef w') /\
  (exists pc, pcRef w' = Some pc /\ localDescription pc = Some offer) /\
  sent w' = sent w ++
            [(ev_cancel, envelope newCallId (u_id user) (c_id contact) (now env1));
             (ev_call, call_envelope newCallId user contact offer (now env2))].
Proof.
  intros Hstream Hch Hcontact Hmedia Hnew Hadd Hoffer Hlocal Hsend.
  cbv zeta. unfold start_cancelled_at_prompt.
  set (newCallId := "call_" +:+ String_of t0).
  set (wb := snd (handleStartCall_begin newCallId contact w)).
  assert (Hb : handleStartCall_begin newCallId contact w = (Normal tt, wb))
    by reflexivity.
  rewrite (bind_normal _ _ _ _ _ Hb). clear Hb.
  destruct (end_locally_eq ev_cancel env1 (Some user) wb) as [ts Hc].
  unfold onCancel. rewrite (bind_normal _ _ _ _ _ Hc). clear Hc.
  set (wc := setCallPeerId None _).
  assert (Hnot : notified ev_cancel env1 (Some user) wb
                 = [(ev_cancel, envelope newCallId (u_id user) (c_id contact)
                                  (now env1))]).
  { unfold notified.
    change (callPeerId wb) with (Some (c_id contact)).
    change (activeCallId wb) with (Some newCallId).
    change (callSignalChannelRef wb) with (callSignalChannelRef w). rewrite Hch.
    destruct (c_id contact) as [|a rest]; [contradiction|]. reflexivity. }
  assert (Hsentc : sent wc = sent w ++ notified ev_cancel env1 (Some user) wb)
    by reflexivity.
  rewrite Hnot in Hsentc. clear Hnot.
  assert (Hchc : callSignalChannelRef wc = true) by exact Hch.
  assert (Hviewc : session_view wc = (false, outgoing, None, None, None))
    by reflexivity.
  assert (Hok : offer_flow_ok env2 wc = true).
  { unfold offer_flow_ok, granted_stream, connection_available.
    change (localStreamRef wc) with (@None MediaStream).
    change (pcRef wc) with (@None RTCPeerConnection).
    rewrite Hmedia, Hnew, Hoffer, Hlocal, Hsend, Hchc.
    rewrite (proj2 (forallb_forall _ _)) by (intros t _; apply Hadd).
    reflexivity. }
  destruct (offer_flow_result env2 newCallId user contact wc)
    as [(_ & offer' & pc & w1 & Hrun & Hoffer' & Hpc & Hdesc & Hs1 & Hsent1)
       |(Hno & _)]; [|congruence].
  pose proof (keeps_session_offer_flow env2 newCallId user contact wc) as Hkeep.
  rewrite Hrun in Hkeep. cbn [snd] in Hkeep. rewrite Hviewc in Hkeep.
  apply session_view_eq in Hkeep as (Ho & _ & Hid & Hp & _).
  unfold try_catch. rewrite Hrun. cbn [fst snd].
  split; [reflexivity|]. unfold lifecycleState. rewrite Ho.
  split; [reflexivity|]. split; [exact Hid|]. split; [exact Hp|].
  split.
  { rewrite Hs1. unfold granted_stream.
    change (localStreamRef wc) with (@None MediaStream). rewrite Hmedia.
    eexists. reflexivity. }
  split.
  { exists pc. split; [exact Hpc|]. congruence. }
  rewrite Hsent1, Hsentc, Hchc. rewrite <- app_assoc.
  assert (offer' = offer) as -> by congruence. reflexivity.
Qed.

Lemma cancel_at_the_prompt_does_not_stop_the_start_witness :
  lifecycleState
    (snd (start_cancelled_at_prompt 1000 (env_ok 1200) (env_ok 1500) alice bob_contact
            initial_world)) = Idle /\
  length (sent (snd (start_cancelled_at_prompt 1000 (env_ok 1200) (env_ok 1500) alice
                       bob_contact initial_world))) = 2%nat.
Proof.
  destruct (cancel_at_the_prompt_does_not_stop_the_start 1000 (env_ok 1200)
              (env_ok 1500) alice bob_contact [audio; video]
              {| sdp_type := "offer"; sdp_text := "v=0 offer" |} initial_world
              eq_refl eq_refl ltac:(discriminate) eq_refl eq_refl
              (fun _ => eq_refl) eq_refl eq_refl eq_refl)
    as (_ & Hidle & _ & _ & _ & _ & Hsent).
  split; [exact Hidle|]. rewrite Hsent. reflexivity.
Defined.

(** X6. The callId of a started call is determined by the clock alone: two
    starts that leave their sessions Outgoing, on any pages and by any
    users, carry the same callId exactly when they happened in the same
    millisecond. *)
Theorem callId_is_the_start_time env1 user1 contact1 w1 env2 user2 contact2 w2 :
  let w1' := snd (handleStartCall env1 (Some user1) (Some contact1) w1) in
  let w2' := snd (handleStartCall env2 (Some user2) (Some contact2) w2) in
  lifecycleState w1' = Outgoing -> lifecycleState w2' = Outgoing ->
  (activeCallId w1' = activeCallId w2' <-> now env1 = now env2).
Proof.
  cbv zeta. intros H1 H2.
  destruct (handleStartCall_cases env1 user1 contact1 w1) as [_ [[Hv1 _]|Hf1]];
    [|cbv zeta in Hf1; destruct Hf1 as [Hf1 _]; rewrite H1 in Hf1; discriminate].
  destruct (handleStartCall_cases env2 user2 contact2 w2) as [_ [[Hv2 _]|Hf2]];
    [|cbv zeta in Hf2; destruct Hf2 as [Hf2 _]; rewrite H2 in Hf2; discriminate].
  apply session_view_eq in Hv1 as (_ & _ & Hid1 & _).
  apply session_view_eq in Hv2 as (_ & _ & Hid2 & _).
  rewrite Hid1, Hid2. clear.
  split.
  - intros Heq. injection Heq as Heq. cbn [String.append] in Heq.
    unfold String_of in Heq. exact (pretty_Z_inj _ _ Heq).
  - intros ->. reflexivity.
Qed.

Lemma callId_is_the_start_time_witness :
  let wa := snd (handleStartCall (env_ok 1000) (Some alice) (Some bob_contact)
                   initial_world) in
  let wb := snd (handleStartCall (env_ok 1000) (Some bob) (Some carol_contact)
                   initial_world) in
  lifecycleState wa = Outgoing /\ lifecycleState wb = Outgoing /\
  now (env_ok 1000) = now (env_ok 1000) /\
  activeCallId wa = activeCallId wb.
Proof.
  cbv zeta.
  assert (H1 : lifecycleState
                 (snd (handleStartCall (env_ok 1000) (Some alice) (Some bob_contact)
                         initial_world)) = Outgoing) by (vm_compute; reflexivity).
  assert (H2 : lifecycleState
                 (snd (handleStartCall (env_ok 1000) (Some bob) (Some carol_contact)
                         initial_world)) = Outgoing) by (vm_compute; reflexivity).
  split; [exact H1|]. split; [exact H2|]. split; [reflexivity|].
  pose proof (callId_is_the_start_time (env_ok 1000) alice bob_contact initial_world
                (env_ok 1000) bob carol_contact initial_world H1 H2) as [_ H].
  exact (H eq_refl).
Defined.

(** ** Answering a call: [onAnswer] *)

Lemma bind_cases {A B} (c : JS A) (k : A -> JS B) w :
  (exists a w1, c w = (Normal a, w1) /\ bind c k w = k a w1) \/
  (exists w1, c w = (Thrown, w1) /\ bind c k w = (Thrown, w1)).
Proof.
  unfold bind. destruct (c w) as [[a|] w1]; [left|right]; eauto.
Qed.

Lemma observable_eq w w0 :
  observable w = observable w0 ->
  callOpen w = callOpen w0 /\ callState w = callState w0 /\
  activeCallId w = activeCallId w0 /\ callPeerId w = callPeerId w0 /\
  callStartedAt w = callStartedAt w0 /\ connectionStatus w = connectionStatus w0 /\
  sent w = sent w0 /\ callSignalChannelRef w = callSignalChannelRef w0.
Proof. unfold observable, session_view. intros H. injection H. auto 10. Qed.

(** Frames of the statements of [onAnswer] before it makes the call
    active. *)
Lemma keeps_observable_setup env : keeps observable (setupPeerConnection env).
Proof. apply keeps_setup. reflexivity. Qed.

Lemma keeps_observable_media env : keeps observable (ensureLocalMedia env).
Proof. apply keeps_ensureLocalMedia; reflexivity. Qed.

Lemma keeps_observable_method ok f : keeps observable (pc_method ok f).
Proof. apply keeps_pc_method. reflexivity. Qed.

Lemma keeps_observable_addTracks env (l : list nat) :
  keeps observable (forEach l (pc_addTrack env)).
Proof. apply keeps_forEach. intros t. apply keeps_observable_method. Qed.

(** The statements of [onAnswer] from the first state update on. *)
Lemma onAnswer_tail env user answer w :
  (modify (setCallState active) ;;
   modify (setConnectionStatus good) ;;
   modify (setCallStartedAt (Some (now env))) ;;
   peer <- gets callPeerId ;;
   callId <- gets activeCallId ;;
   match or_null peer, or_null callId, user with
   | Some peer, Some callId, Some user =>
       sendCallEvent env ev_answer
         {| p_callId := Some callId; p_from := Some (u_id user); p_to := Some peer;
            p_fromName := None; p_fromUsername := None; p_fromAvatarUrl := None;
            p_sdp := Some answer; p_candidate := None; p_ts := Some (now env) |}
   | _, _, _ => ret tt
   end) w
  = (match answered env user answer w with
     | [] => Normal tt
     | _ => if send_ok env then Normal tt else Thrown
     end,
     set_sent (sent w ++ answered env user answer w) (activate (now env) w)).
Proof.
  rewrite !bind_modify, !bind_gets. unfold answered, answer_envelope.
  destruct w as [? ? ? ? ? ? ? peer0 callId0 ? channel ? ? ? ? ? ? ? ? sent0].
  destruct env as [? ? ? ? ? ? ? ? ? sendok ? ?].
  assert (Hnil : sent0 ++ [] = sent0) by apply app_nil_r.
  destruct peer0 as [[|? ?]|], callId0 as [[|? ?]|], user as [u|], channel, sendok;
    vm_compute; vm_compute in Hnil; rewrite ?Hnil; reflexivity.
Qed.

Lemma answered_same env user answer w w0 :
  observable w = observable w0 ->
  answered env user answer w = answered env user answer w0.
Proof.
  intros H. apply observable_eq in H as (_ & _ & Hid & Hpeer & _ & _ & _ & Hch).
  unfold answered. rewrite Hid, Hpeer, Hch. reflexivity.
Qed.

(** The answer either gets as far as its local description, exactly when
    the browser lets it, and then runs its state updates and hands over its
    envelope; or it stops before them, in a world whose session, quality
    and broadcasts are as before. *)
Lemma onAnswer_result env user w :
  (answer_flow_ok env w = true /\
   exists answer pc w8,
     createAnswer env = Some answer /\ observable w8 = observable w /\
     pcRef w8 = Some pc /\ localDescription pc = Some answer /\
     localStreamRef w8 = granted_stream env w /\
     snd (onAnswer env user w)
     = set_sent (sent w8 ++ answered env user answer w8) (activate (now env) w8))
  \/
  (answer_flow_ok env w = false /\
   observable (snd (onAnswer env user w)) = observable w).
Proof.
  unfold answer_flow_ok, onAnswer. rewrite try_run. cbn [snd]. rewrite bind_modify.
  assert (Ho0 : observable (set_isCallerRef false w) = observable w) by reflexivity.
  (* the connection *)
  pose proof (setup_available env (set_isCallerRef false w)) as Hsetup.
  pose proof (keeps_setup_frame env (set_isCallerRef false w)) as Hf1.
  pose proof (keeps_observable_setup env (set_isCallerRef false w)) as Hk1.
  change (connection_available env (set_isCallerRef false w))
    with (connection_available env w) in Hsetup.
  destruct (connection_available env w);
    [|right; split; [reflexivity|];
      rewrite (bind_thrown _ _ _ _ Hsetup); exact Ho0].
  destruct Hsetup as (w1 & pc1 & Hrun1 & Hpc1).
  rewrite Hrun1 in Hf1, Hk1. cbn in Hf1. cbn [snd] in Hk1.
  injection Hf1 as Hs1 Ht1 Hp1 _ _. rewrite Ho0 in Hk1.
  rewrite (bind_normal _ _ _ _ _ Hrun1). clear Hrun1.
  (* the media *)
  pose proof (ensureLocalMedia_granted env w1) as Hmedia.
  pose proof (keeps_media_frame env w1) as Hf2.
  pose proof (keeps_observable_media env w1) as Hk2.
  assert (Hg : granted_stream env w1 = granted_stream env w)
    by (unfold granted_stream; now rewrite Hs1, Ht1).
  rewrite Hg in Hmedia. clear Hg.
  destruct (granted_stream env w) as [s|];
    [|right; split; [reflexivity|];
      rewrite (bind_thrown _ _ _ _ Hmedia); exact Hk1].
  destruct Hmedia as (w2 & Hrun2 & Hs2).
  rewrite Hrun2 in Hf2, Hk2. cbn [snd] in Hf2, Hk2.
  injection Hf2 as Hpc2 Hp2 _ _. rewrite Hk1 in Hk2.
  rewrite (bind_normal _ _ _ _ _ Hrun2). clear Hrun2.
  rewrite bind_modify.
  (* the tracks *)
  assert (Hpc2' : pcRef (setCallCameraOff false w2) = Some pc1)
    by (cbn; congruence).
  destruct (addTracks_result env s _ pc1 Hpc2') as (w3 & pc3 & Hrun3 & Hpc3).
  pose proof (keeps_addTracks_frame env s (setCallCameraOff false w2)) as Hf3.
  pose proof (keeps_observable_addTracks env s (setCallCameraOff false w2)) as Hk3.
  rewrite Hrun3 in Hf3, Hk3. cbn in Hf3. cbn [snd] in Hk3.
  injection Hf3 as Hs3 Hp3 _ _.
  assert (Ho3 : observable w3 = observable w) by (rewrite Hk3, <- Hk2; reflexivity).
  clear Hk3.
  destruct (forallb (addTrack_ok env) s);
    [|right; split; [reflexivity|];
      rewrite (bind_thrown _ _ _ _ Hrun3); exact Ho3].
  rewrite (bind_normal _ _ _ _ _ Hrun3). clear Hrun3.
  (* the pending offer *)
  rewrite bind_gets.
  assert (Hpend : pendingRemoteSDPRef w3 = pendingRemoteSDPRef w) by congruence.
  rewrite Hpend.
  assert (Hremote : exists w4 pc4,
             (if match sdp_of_type "offer" (pendingRemoteSDPRef w) with
                 | Some _ => setRemoteDescription_ok env
                 | None => true
                 end
              then match sdp_of_type "offer" (pendingRemoteSDPRef w) with
                   | Some d => pc_setRemoteDescription env d
                   | None => ret tt
                   end w3 = (Normal tt, w4)
              else match sdp_of_type "offer" (pendingRemoteSDPRef w) with
                   | Some d => pc_setRemoteDescription env d
                   | None => ret tt
                   end w3 = (Thrown, w4)) /\
             pcRef w4 = Some pc4 /\ observable w4 = observable w /\
             localStreamRef w4 = Some s).
  { assert (Hstream : localStreamRef w3 = Some s) by congruence.
    destruct (sdp_of_type "offer" (pendingRemoteSDPRef w)) as [d|].
    - unfold pc_setRemoteDescription. rewrite pc_method_eq, Hpc3.
      destruct (setRemoteDescription_ok env).
      + eexists _, _. split; [reflexivity|]. split; [reflexivity|].
        split; [exact Ho3 | exact Hstream].
      + exists w3, pc3. split; [reflexivity|]. split; [exact Hpc3|].
        split; [exact Ho3 | exact Hstream].
    - exists w3, pc3. split; [reflexivity|]. split; [exact Hpc3|].
      split; [exact Ho3 | exact Hstream]. }
  destruct Hremote as (w4 & pc4 & Hrun4 & Hpc4 & Ho4 & Hs4).
  destruct (match sdp_of_type "offer" (pendingRemoteSDPRef w) with
            | Some _ => setRemoteDescription_ok env
            | None => true
            end);
    [|right; split; [reflexivity|];
      rewrite (bind_thrown _ _ _ _ Hrun4); exact Ho4].
  rewrite (bind_normal _ _ _ _ _ Hrun4). clear Hrun4.
  (* the answer *)
  destruct (createAnswer env) as [answer|];
    [|right; split; [reflexivity|]; exact Ho4].
  rewrite (bind_normal _ _ _ _ _
             (eq_refl : await_sdp (Some answer) w4 = (Normal answer, w4))).
  (* the local description *)
  unfold pc_setLocalDescription. rewrite bind_run, pc_method_eq, Hpc4.
  destruct (setLocalDescription_ok env);
    [|right; split; [reflexivity|]; exact Ho4].
  cbv beta iota. rewrite onAnswer_tail. cbn [snd].
  left. split; [reflexivity|].
  exists answer, (set_localDescription answer pc4),
    (set_pcRef (Some (set_localDescription answer pc4)) w4).
  split; [reflexivity|]. split; [exact Ho4|]. split; [reflexivity|].
  split; [reflexivity|]. split; [exact Hs4 | reflexivity].
Qed.

(** X7. An answer, run to its end with no other event of the page in
    between, never throws, and never changes whether the modal is open, the
    callId or the peer id.  Its end is decided by the browser.  When the
    browser lets it get as far as its local description (a connection is
    held or made, the media are held or granted, every track is added, the
    pending offer, when there is one, is taken as remote description, and an
    answer is created and taken as local description), the connection has
    the created answer as its local description, the stream is held, the
    state is active, the start time is the time of the answer, the quality
    is good, and the channel was handed exactly the answer envelope (callId,
    from the user, to the peer, with the created answer) if the session has
    a peer id and a callId, a user is signed in and the channel is there,
    and nothing otherwise.  When one of these steps fails, the state, the
    start time, the quality and the broadcasts are as before: nothing was
    sent. *)
Theorem onAnswer_outcome env user w :
  let w' := snd (onAnswer env user w) in
  fst (onAnswer env user w) = Normal tt /\
  callOpen w' = callOpen w /\ activeCallId w' = activeCallId w /\
  callPeerId w' = callPeerId w /\
  (answer_flow_ok env w = true ->
   exists answer pc,
     createAnswer env = Some answer /\
     pcRef w' = Some pc /\ localDescription pc = Some answer /\
     localStreamRef w' = granted_stream env w /\
     callState w' = active /\ callStartedAt w' = Some (now env) /\
     connectionStatus w' = good /\
     sent w' = sent w ++ answered env user answer w) /\
  (answer_flow_ok env w = false ->
   callState w' = callState w /\ callStartedAt w' = callStartedAt w /\
   connectionStatus w' = connectionStatus w /\ sent w' = sent w).
Proof.
  cbv zeta. split; [unfold onAnswer; rewrite try_run; reflexivity|].
  destruct (onAnswer_result env user w)
    as [(Hok & answer & pc & w8 & Hanswer & Ho & Hpc & Hlocal & Hstream & Hw')
       |(Hok & Ho)].
  - rewrite Hw'. rewrite (answered_same _ _ _ _ _ Ho).
    apply observable_eq in Ho as (Hopen & _ & Hid & Hpeer & _ & _ & Hsent & _).
    split; [exact Hopen|]. split; [exact Hid|]. split; [exact Hpeer|].
    split; [|congruence]. intros _.
    exists answer, pc. split; [exact Hanswer|]. split; [exact Hpc|].
    split; [exact Hlocal|]. split; [exact Hstream|].
    split; [reflexivity|]. split; [reflexivity|]. split; [reflexivity|].
    cbn [sent set_sent]. rewrite Hsent. reflexivity.
  - apply observable_eq in Ho as (Hopen & Hstate & Hid & Hpeer & Ht & Hq & Hsent & _).
    split; [exact Hopen|]. split; [exact Hid|]. split; [exact Hpeer|].
    split; [congruence|]. intros _. auto.
Qed.

Lemma onAnswer_outcome_witness :
  answer_flow_ok (env_ok 1500) bob_ringing = true /\
  callState (snd (onAnswer (env_ok 1500) (Some bob) bob_ringing)) = active /\
  answer_flow_ok (env_media_denied 1500) bob_ringing = false /\
  callState (snd (onAnswer (env_media_denied 1500) (Some bob) bob_ringing))
  = callState bob_ringing.
Proof.
  assert (H : answer_flow_ok (env_ok 1500) bob_ringing = true) by reflexivity.
  assert (H' : answer_flow_ok (env_media_denied 1500) bob_ringing = false)
    by reflexivity.
  split; [exact H|]. split.
  - destruct (proj1 (proj2 (proj2 (proj2 (proj2
                (onAnswer_outcome (env_ok 1500) (Some bob) bob_ringing))))) H)
      as (answer & pc & _ & _ & _ & _ & Hstate & _).
    exact Hstate.
  - split; [exact H'|].
    exact (proj1 (proj2 (proj2 (proj2 (proj2 (proj2
             (onAnswer_outcome (env_media_denied 1500) (Some bob) bob_ringing)))))
             H')).
Defined.

(** ** A whole call between two pages *)

(** X8. The happy path, for any two users (the caller's id not empty), any
    times and any description texts, when both browsers cooperate and both
    pages start fresh.  The caller's start hands the channel one call
    envelope; delivered to the callee it makes the callee's page ring; the
    callee's answer hands the channel one answer envelope; delivered to the
    caller it makes the caller's page active.  Both sessions then are
    active with the same callId and each other as peer, and each
    connection has its own description as local and the other's as remote
    description. *)
Theorem happy_path tA tB1 tB2 tA2 (o a : string) userA userB contactB :
  c_id contactB = u_id userB -> u_id userA <> "" ->
  let offer := {| sdp_type := "offer"; sdp_text := o |} in
  let answer := {| sdp_type := "answer"; sdp_text := a |} in
  let callId := "call_" +:+ String_of tA in
  let p1 := call_envelope callId userA contactB offer tA in
  let p2 := answer_envelope callId (u_id userB) (u_id userA) answer tB2 in
  let wA1 := snd (handleStartCall (cooperative tA o a) (Some userA) (Some contactB)
                    initial_world) in
  let wB1 := deliver (u_id userB)
               {| d_env := cooperative tB1 o a; d_event := ev_call;
                  d_payload := Some p1 |} initial_world in
  let wB2 := snd (onAnswer (cooperative tB2 o a) (Some userB) wB1) in
  let wA2 := deliver (u_id userA)
               {| d_env := cooperative tA2 o a; d_event := ev_answer;
                  d_payload := Some p2 |} wA1 in
  (sent wA1 = [(ev_call, p1)] /\ lifecycleState wA1 = Outgoing) /\
  (lifecycleState wB1 = Incoming /\ sent wB1 = []) /\
  (sent wB2 = [(ev_answer, p2)] /\ lifecycleState wB2 = Active /\
   callStartedAt wB2 = Some tB2) /\
  (lifecycleState wA2 = Active /\ callStartedAt wA2 = Some tA2 /\
   sent wA2 = [(ev_call, p1)]) /\
  activeCallId wA2 = Some callId /\ activeCallId wB2 = Some callId /\
  callPeerId wA2 = Some (u_id userB) /\ callPeerId wB2 = Some (u_id userA) /\
  (localDescription <$> pcRef wA2) = Some (Some offer) /\
  (remoteDescription <$> pcRef wA2) = Some (Some answer) /\
  (localDescription <$> pcRef wB2) = Some (Some answer) /\
  (remoteDescription <$> pcRef wB2) = Some (Some offer).
Proof.
  intros Hc HidA.
  destruct userA as [idA unA dnA avA], userB as [idB unB dnB avB],
           contactB as [cid cname cun cav].
  cbn [c_id u_id] in *. subst cid.
  destruct idA as [|ch idA]; [contradiction|]. clear HidA.
  cbv zeta. unfold deliver. cbn [d_env d_event d_payload on_broadcast].
  rewrite on_call_eq by reflexivity.
  rewrite on_answer_eq by reflexivity.
  cbn [snd].
  vm_compute. repeat split.
Qed.

Lemma happy_path_witness :
  c_id bob_contact = u_id bob /\ u_id alice <> "" /\
  lifecycleState
    (deliver (u_id alice)
       {| d_env := cooperative 2000 "o" "a"; d_event := ev_answer;
          d_payload := Some (answer_envelope ("call_" +:+ String_of 1000) (u_id bob)
                               (u_id alice)
                               {| sdp_type := "answer"; sdp_text := "a" |} 1500) |}
       (snd (handleStartCall (cooperative 1000 "o" "a") (Some alice)
               (Some bob_contact) initial_world))) = Active.
Proof.
  assert (H1 : c_id bob_contact = u_id bob) by reflexivity.
  assert (H2 : u_id alice <> "") by discriminate.
  split; [exact H1|]. split; [exact H2|].
  pose proof (happy_path 1000 1200 1500 2000 "o" "a" alice bob bob_contact H1 H2)
    as (_ & _ & _ & (H & _) & _).
  exact H.
Defined.

(** ** The camera toggle, and how it composes with the mute toggle *)

Lemma onCameraToggle_eq off w :
  onCameraToggle off w
  = (Normal tt,
     set_tracks
       (enable_in (negb off)
          (tracks_of_kind video (tracks w) (default [] (localStreamRef w)))
          (tracks w))
       (setCallCameraOff off w)).
Proof.
  unfold onCameraToggle. rewrite bind_modify, try_run, bind_gets.
  change (localStreamRef (setCallCameraOff off w)) with (localStreamRef w).
  destruct (localStreamRef w) as [s|]; simpl.
  - rewrite bind_gets, enable_all_eq. reflexivity.
  - reflexivity.
Qed.

(** X9. A camera toggle returns normally and changes nothing but the
    camera-off flag, which becomes the toggle, and the [enabled] flag of
    the video tracks of the local stream, which becomes its negation:
    turning the camera off disables them, turning it on enables them again.
    The tracks are not stopped or removed, nothing is sent, and the
    connection, the muted flag, the lifecycle state and every other track,
    the audio tracks among them, stay as they are. *)
Theorem camera_is_local (off : bool) (w : World) :
  let w' := snd (onCameraToggle off w) in
  fst (onCameraToggle off w) = Normal tt /\
  callCameraOff w' = off /\
  w' = set_tracks (tracks w') (setCallCameraOff off w) /\
  sent w' = sent w /\ pcRef w' = pcRef w /\ callMuted w' = callMuted w /\
  lifecycleState w' = lifecycleState w /\
  localStreamRef w' = localStreamRef w /\
  length (tracks w') = length (tracks w) /\
  forall t x, tracks w !! t = Some x ->
    exists x', tracks w' !! t = Some x' /\
      kind x' = kind x /\ ended x' = ended x /\
      enabled x' = (if local_video w t x then negb off else enabled x).
Proof.
  cbv zeta. rewrite onCameraToggle_eq. cbn [fst snd].
  repeat (split; [reflexivity|]).
  assert (Hlook : forall t,
             enable_in (negb off)
               (tracks_of_kind video (tracks w) (default [] (localStreamRef w)))
               (tracks w) !! t
             = (fun x => if local_video w t x then set_enabled (negb off) x else x)
                 <$> tracks w !! t).
  { intros t. rewrite enable_in_lookup.
    destruct (tracks w !! t) as [x|] eqn:Hx; [|reflexivity]. simpl. f_equal.
    unfold local_video, tracks_of_kind.
    rewrite (bool_decide_ext _ (kind x = video /\ t ∈ default [] (localStreamRef w))).
    - now destruct (bool_decide _).
    - rewrite list_elem_of_filter, Hx. simpl. intuition congruence. }
  cbn [tracks set_tracks]. split.
  - apply enable_in_length.
  - intros t x Hx. rewrite Hlook, Hx. cbn [fmap option_fmap option_map].
    eexists. split; [reflexivity|].
    destruct (local_video w t x); repeat split.
Qed.

Lemma camera_is_local_witness :
  tracks alice_in_call !! 1%nat = Some (fresh_track video) /\
  (enabled <$> tracks (snd (onCameraToggle true alice_in_call)) !! 1%nat) = Some false /\
  (enabled <$> tracks (snd (onCameraToggle true alice_in_call)) !! 0%nat) = Some true.
Proof.
  assert (H0 : tracks alice_in_call !! 0%nat = Some (fresh_track audio)) by reflexivity.
  assert (H1 : tracks alice_in_call !! 1%nat = Some (fresh_track video)) by reflexivity.
  split; [exact H1|]. split.
  - destruct (proj2 (proj2 (proj2 (proj2 (proj2 (proj2 (proj2 (proj2 (proj2
                (camera_is_local true alice_in_call)))))))))
                1%nat (fresh_track video) H1) as (x' & Hx' & _ & _ & He).
    rewrite Hx'. cbn [fmap option_fmap option_map]. f_equal. rewrite He.
    vm_compute. reflexivity.
  - destruct (proj2 (proj2 (proj2 (proj2 (proj2 (proj2 (proj2 (proj2 (proj2
                (camera_is_local true alice_in_call)))))))))
                0%nat (fresh_track audio) H0) as (x' & Hx' & _ & _ & He).
    rewrite Hx'. cbn [fmap option_fmap option_map]. f_equal. rewrite He.
    vm_compute. reflexivity.
Defined.

Lemma tracks_of_kind_enable_in k b l store s :
  tracks_of_kind k (enable_in b l store) s = tracks_of_kind k store s.
Proof.
  unfold tracks_of_kind. apply list_filter_iff. intros t.
  rewrite enable_in_lookup.
  destruct (store !! t) as [x|]; [|reflexivity]. simpl.
  destruct (bool_decide (t ∈ l)); reflexivity.
Qed.

Lemma enable_in_commute b1 b2 store s :
  enable_in b2 (tracks_of_kind video store s)
    (enable_in b1 (tracks_of_kind audio store s) store)
  = enable_in b1 (tracks_of_kind audio store s)
      (enable_in b2 (tracks_of_kind video store s) store).
Proof.
  apply list_eq. intros t. rewrite !enable_in_lookup.
  destruct (store !! t) as [x|] eqn:Hx; [|reflexivity]. simpl. f_equal.
  unfold tracks_of_kind.
  destruct (kind x) eqn:Hk.
  - rewrite (bool_decide_eq_false_2 (t ∈ filter _ s)).
    + now destruct (bool_decide _).
    + rewrite list_elem_of_filter, Hx. simpl. intros [H _]. congruence.
  - rewrite (bool_decide_eq_false_2
               (t ∈ filter (fun t => kind <$> store !! t = Some audio) s)).
    + now destruct (bool_decide _).
    + rewrite list_elem_of_filter, Hx. simpl. intros [H _]. congruence.
Qed.

(** X10. Mute and camera toggles commute: in either order they return
    normally and end in the same world. *)
Theorem mute_and_camera_commute (m off : bool) (w : World) :
  (onMuteToggle m ;; onCameraToggle off) w
  = (onCameraToggle off ;; onMuteToggle m) w.
Proof.
  rewrite (bind_normal _ _ _ _ _ (onMuteToggle_eq m w)).
  rewrite (bind_normal _ _ _ _ _ (onCameraToggle_eq off w)).
  rewrite onCameraToggle_eq, onMuteToggle_eq.
  cbn [tracks localStreamRef set_tracks setCallMuted setCallCameraOff].
  rewrite !tracks_of_kind_enable_in, enable_in_commute.
  destruct w. reflexivity.
Qed.

(** ** What inbound events never do *)

Lemma keeps_cleanupCall {X} (V : World -> X) env :
  (forall ts w, V (released ts w) = V w) -> keeps V (cleanupCall env).
Proof.
  intros H w. destruct (cleanupCall_released env w) as [ts ->]. apply H.
Qed.

Lemma keeps_add_remote_track {X} (V : World -> X) t :
  (forall v w, V (set_remoteVideoRef v w) = V w) ->
  (forall r w, V (set_remoteStreamRef r w) = V w) ->
  keeps V (modify (add_remote_track t)).
Proof.
  intros Hv Hr. apply keeps_modify. intros w. unfold add_remote_track.
  destruct (remoteStreamRef w); [now rewrite Hv, Hr | reflexivity].
Qed.

(** A statement that leaves the view alone. *)
Ltac keeps_leaf :=
  lazymatch goal with
  | |- keeps _ (modify (add_remote_track _)) =>
      apply keeps_add_remote_track; intros; reflexivity
  | |- keeps _ (ret _) => apply keeps_ret
  | |- keeps _ throw => apply keeps_throw
  | |- keeps _ (gets _) => apply keeps_gets
  | |- keeps _ (await_ok _) => apply keeps_await_ok
  | |- keeps _ (await_sdp _) => apply keeps_await_sdp
  | |- keeps _ (modify _) => apply keeps_modify; intros; reflexivity
  | |- keeps _ (cleanupCall _) => apply keeps_cleanupCall; intros; reflexivity
  | |- keeps _ (pc_method _ _) => apply keeps_pc_method; intros; reflexivity
  | |- keeps _ (ensureLocalMedia _) => apply keeps_ensureLocalMedia; intros; reflexivity
  | |- keeps _ (setupPeerConnection _) => apply keeps_setup; intros; reflexivity
  | |- keeps _ (sendCallEvent _ _ _) => apply keeps_sendCallEvent; intros; reflexivity
  end.

(** Walks through a handler body all of whose statements leave the view
    alone. *)
Ltac keeps_all :=
  repeat lazymatch goal with
  | |- keeps _ (bind _ _) => apply keeps_bind; [|intros]
  | |- keeps _ (try_ _) => apply keeps_try
  | |- keeps _ (try_catch _ _) => apply keeps_try_catch
  | |- keeps _ (not_awaited _) => apply keeps_not_awaited
  | |- keeps _ (forEach _ _) => apply keeps_forEach; intros
  | |- keeps _ (match ?x with _ => _ end) => destruct x
  | |- keeps _ _ => keeps_leaf
  end.

Ltac unfold_handlers :=
  unfold on_broadcast, on_call, on_answer, on_ice, on_decline, on_hangup, on_cancel,
    on_peer_end, handleStartCall, handleStartCall_begin, offer_flow, offer_flow_failed,
    onAnswer, onDecline, onHangup, onCancel, end_locally, onMuteToggle, onCameraToggle,
    onSpeakerToggle, enable_all, onconnectionstatechange, onicecandidate, ontrack,
    pc_close, pc_addTrack, pc_setLocalDescription, pc_setRemoteDescription,
    pc_addIceCandidate.

(** Walks through a handler body, closing each statement with the frame
    facts in the context. *)
Ltac keeps_walk :=
  repeat lazymatch goal with
  | |- keeps _ (ret _) => apply keeps_ret
  | |- keeps _ throw => apply keeps_throw
  | |- keeps _ (gets _) => apply keeps_gets
  | |- keeps _ (await_ok _) => apply keeps_await_ok
  | |- keeps _ (await_sdp _) => apply keeps_await_sdp
  | |- keeps _ (modify _) => apply keeps_modify; solve [auto]
  | |- keeps _ (try_ _) => apply keeps_try
  | |- keeps _ (not_awaited _) => apply keeps_not_awaited
  | |- keeps _ (forEach _ _) => apply keeps_forEach; intros
  | |- keeps _ (bind _ _) => apply keeps_bind; [|intros]
  | |- keeps _ (cleanupCall _) => apply keeps_cleanupCall; solve [auto]
  | |- keeps _ (pc_method _ _) => apply keeps_pc_method; solve [auto]
  | |- keeps _ (match ?x with _ => _ end) => destruct x
  end.

Lemma keeps_on_broadcast {X} (V : World -> X) env myId ev payload :
  ev <> ev_call ->
  (forall ts w, V (released ts w) = V w) ->
  (forall pc w, V (set_pcRef pc w) = V w) ->
  (forall x w, V (setCallOpen x w) = V w) ->
  (forall x w, V (setCallState x w) = V w) ->
  (forall x w, V (setConnectionStatus x w) = V w) ->
  (forall x w, V (setCallStartedAt x w) = V w) ->
  (forall x w, V (setActiveCallId x w) = V w) ->
  (forall x w, V (setCallPeerId x w) = V w) ->
  keeps V (on_broadcast env myId ev payload).
Proof.
  intros Hev Hrel Hpc Ho Hs Hq Ht Hid Hpeer.
  destruct ev; [congruence|..]; cbn [on_broadcast];
    unfold on_answer, on_ice, on_decline, on_hangup, on_cancel, on_peer_end,
           pc_setRemoteDescription, pc_addIceCandidate;
    keeps_walk.
Qed.

Lemma keeps_on_call {X} (V : World -> X) myId payload :
  (forall x w, V (set_pendingRemoteSDPRef x w) = V w) ->
  (forall x w, V (setCallOpen x w) = V w) ->
  (forall x w, V (setCallState x w) = V w) ->
  (forall x w, V (setConnectionStatus x w) = V w) ->
  (forall x w, V (setCallStartedAt x w) = V w) ->
  (forall x w, V (setActiveCallId x w) = V w) ->
  (forall x w, V (setCallPeerId x w) = V w) ->
  (forall x w, V (setCallContact x w) = V w) ->
  (forall x w, V (setCallMuted x w) = V w) ->
  (forall x w, V (setCallSpeaker x w) = V w) ->
  keeps V (on_call myId payload).
Proof.
  intros. unfold on_call. keeps_walk.
Qed.

Lemma fmap_alter_same {A B} (f : A -> B) (g : A -> A) i (l : list A) :
  (forall x, f (g x) = f x) -> f <$> alter g i l = f <$> l.
Proof.
  intros H. revert i. induction l as [|x l IH]; intros [|i]; csimpl; f_equal; auto.
Qed.

Lemma keeps_enabled_track_stop env t :
  keeps (fun w => (enabled <$> tracks w, kind <$> tracks w)) (track_stop env t).
Proof.
  intros w. rewrite track_stop_eq. destruct (stop_ok env t); [|reflexivity].
  cbn [snd tracks set_tracks].
  now rewrite !fmap_alter_same by reflexivity.
Qed.

Lemma keeps_enabled_cleanupCall env :
  keeps (fun w => (enabled <$> tracks w, kind <$> tracks w)) (cleanupCall env).
Proof.
  unfold cleanupCall, stop_track_of, pc_close.
  repeat (keeps_all; try apply keeps_enabled_track_stop).
Qed.

Lemma keeps_enabled_on_broadcast env myId ev payload :
  keeps (fun w => (enabled <$> tracks w, kind <$> tracks w))
    (on_broadcast env myId ev payload).
Proof.
  destruct ev; cbn [on_broadcast];
    unfold on_call, on_answer, on_ice, on_decline, on_hangup, on_cancel, on_peer_end,
      pc_setRemoteDescription, pc_addIceCandidate;
    keeps_all; apply keeps_enabled_cleanupCall.
Qed.

(** X11. No inbound event makes the page speak: every handler of the
    channel returns normally, whatever the payload and whatever the
    browser does, and hands nothing to the channel; it changes neither the
    channel ref, nor the camera flag, nor, unless it is a call event, the
    muted and speaker flags, nor the [enabled] flag or the kind of any
    track. *)
Theorem inbound_events_send_nothing env myId ev payload w :
  let w' := snd (on_broadcast env myId ev payload w) in
  fst (on_broadcast env myId ev payload w) = Normal tt /\
  sent w' = sent w /\
  callSignalChannelRef w' = callSignalChannelRef w /\
  callCameraOff w' = callCameraOff w /\
  isCallerRef w' = isCallerRef w /\
  (ev <> ev_call -> callMuted w' = callMuted w /\ callSpeaker w' = callSpeaker w) /\
  (enabled <$> tracks w') = (enabled <$> tracks w) /\
  (kind <$> tracks w') = (kind <$> tracks w).
Proof.
  cbv zeta. split.
  - destruct ev; cbn [on_broadcast];
      unfold on_call, on_answer, on_ice, on_decline, on_hangup, on_cancel, on_peer_end;
      rewrite try_run; reflexivity.
  - pose proof (keeps_enabled_on_broadcast env myId ev payload w) as Htracks.
    cbv beta in Htracks. injection Htracks as He Hk.
    assert (Hcase : ev = ev_call \/ ev <> ev_call)
      by (destruct ev; (left; reflexivity) || (right; discriminate)).
    destruct Hcase as [->|Hev].
    + cbn [on_broadcast] in *.
      split; [apply (keeps_on_call sent); reflexivity|].
      split; [apply (keeps_on_call callSignalChannelRef); reflexivity|].
      split; [apply (keeps_on_call callCameraOff); reflexivity|].
      split; [apply (keeps_on_call isCallerRef); reflexivity|].
      split; [intros H; now destruct H|]. split; assumption.
    + split; [apply (keeps_on_broadcast sent); try reflexivity; exact Hev|].
      split; [apply (keeps_on_broadcast callSignalChannelRef); try reflexivity;
              exact Hev|].
      split; [apply (keeps_on_broadcast callCameraOff); try reflexivity; exact Hev|].
      split; [apply (keeps_on_broadcast isCallerRef); try reflexivity; exact Hev|].
      split; [|split; assumption].
      intros _. split.
      * apply (keeps_on_broadcast callMuted); try reflexivity; exact Hev.
      * apply (keeps_on_broadcast callSpeaker); try reflexivity; exact Hev.
Qed.

Lemma inbound_events_send_nothing_witness :
  ev_hangup <> ev_call /\
  callMuted (snd (on_broadcast (env_ok 3000) "alice" ev_hangup (Some stale_hangup)
                    (snd (onMuteToggle true alice_in_call))))
  = callMuted (snd (onMuteToggle true alice_in_call)).
Proof.
  assert (H : ev_hangup <> ev_call) by discriminate.
  split; [exact H|].
  exact (proj1 (proj1 (proj2 (proj2 (proj2 (proj2 (proj2
           (inbound_events_send_nothing (env_ok 3000) "alice" ev_hangup
              (Some stale_hangup) (snd (onMuteToggle true alice_in_call)))))))) H)).
Defined.

(** ** The pending offer *)

Lemma keeps_pending_onAnswer env user : keeps pendingRemoteSDPRef (onAnswer env user).
Proof.
  unfold onAnswer, pc_addTrack, pc_setLocalDescription, pc_setRemoteDescription.
  keeps_steps;
    try (apply keeps_pc_method; reflexivity);
    try (apply keeps_setup; reflexivity);
    try (apply keeps_ensureLocalMedia; reflexivity);
    try (apply keeps_sendCallEvent; reflexivity).
Qed.

Lemma keeps_pending_handleStartCall env user contact :
  keeps pendingRemoteSDPRef (handleStartCall env user contact).
Proof.
  unfold handleStartCall.
  destruct contact as [c|]; [|apply keeps_ret].
  destruct user as [u|]; [|apply keeps_ret].
  apply keeps_bind; [intros w; reflexivity | intros _].
  apply keeps_try_catch.
  - unfold offer_flow, pc_addTrack, pc_setLocalDescription. keeps_steps;
      try (apply keeps_pc_method; reflexivity);
      try (apply keeps_setup; reflexivity);
      try (apply keeps_ensureLocalMedia; reflexivity);
      try (apply keeps_sendCallEvent; reflexivity).
  - unfold offer_flow_failed.
    apply keeps_bind; [apply keeps_cleanupCall; reflexivity | intros _].
    keeps_steps.
Qed.

(** X12. The pending offer is written by one statement only, the one of the
    call handler that stores the offer of a call event addressed to the
    local user, and nothing ever clears it: every other inbound event, a
    call event without an offer, teardown, a local decline, hangup or
    cancel, an answer and a start of a call leave it as it is.  So a call
    event that carries no offer is answered with the offer of an earlier
    call. *)
Theorem pending_offer_is_never_cleared (w : World) :
  (forall env myId ev payload, ev <> ev_call ->
     pendingRemoteSDPRef (snd (on_broadcast env myId ev payload w))
     = pendingRemoteSDPRef w) /\
  (forall myId p, sdp_of_type "offer" (p_sdp p) = None ->
     pendingRemoteSDPRef (snd (on_call myId (Some p) w)) = pendingRemoteSDPRef w) /\
  (forall myId p d, p_to p = Some myId -> sdp_of_type "offer" (p_sdp p) = Some d ->
     pendingRemoteSDPRef (snd (on_call myId (Some p) w)) = Some d) /\
  (forall env, pendingRemoteSDPRef (snd (cleanupCall env w)) = pendingRemoteSDPRef w) /\
  (forall ev env user,
     pendingRemoteSDPRef (snd (end_locally ev env user w)) = pendingRemoteSDPRef w) /\
  (forall env user,
     pendingRemoteSDPRef (snd (onAnswer env user w)) = pendingRemoteSDPRef w) /\
  (forall env user contact,
     pendingRemoteSDPRef (snd (handleStartCall env user contact w))
     = pendingRemoteSDPRef w).
Proof.
  repeat split.
  - intros env myId ev payload Hev.
    apply (keeps_on_broadcast pendingRemoteSDPRef); try reflexivity. exact Hev.
  - intros myId p Hno.
    destruct (decide (p_to p = Some myId)) as [Hto|Hto].
    + rewrite on_call_eq by exact Hto. unfold ring. rewrite Hno. reflexivity.
    + change (on_call myId (Some p) w)
        with (on_broadcast (env_ok 0) myId ev_call (Some p) w).
      now rewrite not_for_me_discards by (apply not_for_me_other, Hto).
  - intros myId p d Hto Hd. rewrite on_call_eq by exact Hto.
    unfold ring. rewrite Hd. reflexivity.
  - intros env. apply (keeps_cleanupCall pendingRemoteSDPRef). reflexivity.
  - intros ev env user. destruct (end_locally_eq ev env user w) as [ts ->]. reflexivity.
  - intros env user. apply keeps_pending_onAnswer.
  - intros env user contact. apply keeps_pending_handleStartCall.
Qed.

Lemma pending_offer_is_never_cleared_witness :
  ev_hangup <> ev_call /\
  pendingRemoteSDPRef
    (snd (on_broadcast (env_ok 1300) "bob" ev_hangup
            (Some (envelope "call_1000" "alice" "bob" 1300)) bob_ringing))
  = pendingRemoteSDPRef bob_ringing.
Proof.
  assert (H : ev_hangup <> ev_call) by discriminate.
  split; [exact H|].
  apply (proj1 (pending_offer_is_never_cleared bob_ringing) _ _ _ _ H).
Defined.

(** ** The callbacks of the connection *)

(** X13. [onicecandidate] returns normally and changes at most the
    broadcasts.  Without a candidate (the end of gathering), when the peer
    id or the callId it captured is missing, when no user is signed in or
    when the channel is not there, nothing is sent and nothing changes.
    Otherwise it hands the channel exactly one ice envelope: with the
    candidate, the captured callId, from the signed-in user, addressed to
    the captured peer, stamped with the time.  Delivered to that peer's
    page, when that page has a connection whose browser accepts the
    candidate, the candidate is appended to the connection's candidates;
    delivered to the page of any other user it changes nothing. *)
Theorem candidate_goes_to_the_captured_peer peer callId me env cand w :
  let w' := snd (onicecandidate peer callId me env cand w) in
  fst (onicecandidate peer callId me env cand w) = Normal tt /\
  w' = set_sent (sent w') w /\
  (cand = None \/ or_null peer = None \/ or_null callId = None \/ me = None \/
   callSignalChannelRef w = false -> w' = w) /\
  (forall c peer' callId' me',
     cand = Some c -> or_null peer = Some peer' -> or_null callId = Some callId' ->
     me = Some me' -> callSignalChannelRef w = true ->
     exists p,
       sent w' = sent w ++ [(ev_ice, p)] /\
       p_candidate p = Some c /\ p_callId p = Some callId' /\
       p_to p = Some peer' /\ p_from p = Some me' /\ p_ts p = Some (now env) /\
       p_sdp p = None /\
       forall envB myId wB pc,
         pcRef wB = Some pc -> addIceCandidate_ok envB = true ->
         (myId = peer' ->
          applied_candidates (snd (on_broadcast envB myId ev_ice (Some p) wB))
          = iceCandidates pc ++ [c]) /\
         (myId <> peer' ->
          snd (on_broadcast envB myId ev_ice (Some p) wB) = wB)).
Proof.
  cbv zeta. unfold onicecandidate.
  destruct cand as [c|], (or_null peer) as [peer'|] eqn:Hpeer,
           (or_null callId) as [callId'|] eqn:HcallId, me as [me'|];
    try (cbn [fst snd ret]; rewrite set_sent_same by reflexivity;
         split; [reflexivity|]; split; [reflexivity|]; split; [reflexivity|];
         intros; discriminate).
  rewrite bind_gets. destruct (callSignalChannelRef w) eqn:Hch.
  - cbn [fst snd modify sent set_sent]. split; [reflexivity|].
    split; [destruct w; reflexivity|].
    split; [intros [H|[H|[H|[H|H]]]]; discriminate|].
    intros c0 peer0 callId0 me0 [= <-] [= <-] [= <-] [= <-] _.
    eexists. split; [reflexivity|].
    cbn [p_candidate p_callId p_to p_from p_ts p_sdp].
    repeat (split; [reflexivity|]).
    intros envB myId wB pc Hpc Hok. split.
    + intros ->. cbn [on_broadcast].
      rewrite on_ice_eq by reflexivity. rewrite Hpc, Hok. cbn [snd p_candidate].
      reflexivity.
    + intros Hme. rewrite not_for_me_discards; [reflexivity|].
      apply not_for_me_other. cbn [p_to]. intros [= H]. exact (Hme (eq_sym H)).
  - cbn [fst snd ret]. rewrite set_sent_same by reflexivity.
    split; [reflexivity|]. split; [reflexivity|]. split; [reflexivity|].
    intros; discriminate.
Qed.

Lemma candidate_goes_to_the_captured_peer_witness :
  callSignalChannelRef alice_calling = true /\
  exists p,
    sent (snd (onicecandidate (Some "bob") (Some "call_1000") (Some "alice")
                 (env_ok 1100) (Some "candidate:1") alice_calling))
    = sent alice_calling ++ [(ev_ice, p)] /\
    p_to p = Some "bob".
Proof.
  assert (H : callSignalChannelRef alice_calling = true) by reflexivity.
  split; [exact H|].
  destruct (proj2 (proj2 (proj2 (candidate_goes_to_the_captured_peer (Some "bob")
                                   (Some "call_1000") (Some "alice") (env_ok 1100)
                                   (Some "candidate:1") alice_calling)))
              "candidate:1" "bob" "call_1000" "alice" eq_refl eq_refl eq_refl eq_refl H)
    as (p & Hs & _ & _ & Hto & _).
  exists p. split; [exact Hs | exact Hto].
Defined.

Lemma add_if_missing_elem r t t' : t' ∈ add_if_missing r t <-> t' ∈ r \/ t' = t.
Proof.
  unfold add_if_missing. case_bool_decide as Ht.
  - split; [auto|]. intros [H| ->]; assumption.
  - rewrite elem_of_app, list_elem_of_singleton. reflexivity.
Qed.

Lemma add_if_missing_NoDup r t : NoDup r -> NoDup (add_if_missing r t).
Proof.
  intros Hr. unfold add_if_missing. case_bool_decide as Ht; [exact Hr|].
  apply NoDup_app. split; [exact Hr|]. split.
  - intros x Hx Hx'. apply list_elem_of_singleton in Hx'. subst. contradiction.
  - apply NoDup_singleton.
Qed.

Lemma add_if_missing_prefix r t : r `prefix_of` add_if_missing r t.
Proof.
  unfold add_if_missing. case_bool_decide; [reflexivity|]. now exists [t].
Qed.

Lemma add_all_elem r ts t' : t' ∈ add_all r ts <-> t' ∈ r \/ t' ∈ ts.
Proof.
  unfold add_all. revert r. induction ts as [|t ts IH]; intros r; simpl.
  - rewrite elem_of_nil. tauto.
  - rewrite IH, add_if_missing_elem, elem_of_cons. tauto.
Qed.

Lemma add_all_NoDup r ts : NoDup r -> NoDup (add_all r ts).
Proof.
  unfold add_all. revert r. induction ts as [|t ts IH]; intros r Hr; simpl.
  - exact Hr.
  - apply IH, add_if_missing_NoDup, Hr.
Qed.

Lemma add_all_prefix r ts : r `prefix_of` add_all r ts.
Proof.
  unfold add_all. revert r. induction ts as [|t ts IH]; intros r; simpl.
  - reflexivity.
  - etransitivity; [apply add_if_missing_prefix | apply IH].
Qed.

Lemma add_all_known r ts : (forall t, t ∈ ts -> t ∈ r) -> add_all r ts = r.
Proof.
  unfold add_all. induction ts as [|t ts IH]; intros H; simpl; [reflexivity|].
  unfold add_if_missing at 2.
  rewrite bool_decide_eq_true_2 by (apply H; constructor).
  apply IH. intros t' Ht'. apply H. now constructor.
Qed.

Lemma reshow_reshow s1 s2 v : reshow s2 (reshow s1 v) = reshow s2 v.
Proof. destruct v as [[[?|]]|]; reflexivity. Qed.

Lemma set_remote_same r v w :
  remoteStreamRef w = Some r -> v = remoteVideoRef w ->
  set_remoteVideoRef v (set_remoteStreamRef (Some r) w) = w.
Proof. intros <- ->. destruct w; reflexivity. Qed.

Lemma reshow_shown w r :
  shows_remote w -> remoteStreamRef w = Some r ->
  reshow r (remoteVideoRef w) = remoteVideoRef w.
Proof.
  intros Hw Hr. destruct (remoteVideoRef w) as [[[s|]]|] eqn:Hv; try reflexivity.
  specialize (Hw s Hv). rewrite Hr in Hw. injection Hw as ->. reflexivity.
Qed.

(** The loop of [ontrack], on a page that has a remote stream. *)
Lemma add_remote_tracks_eq ts w r :
  remoteStreamRef w = Some r -> shows_remote w ->
  forEach ts (fun t => modify (add_remote_track t)) w
  = (Normal tt,
     set_remoteVideoRef (reshow (add_all r ts) (remoteVideoRef w))
       (set_remoteStreamRef (Some (add_all r ts)) w)).
Proof.
  revert w r. induction ts as [|t ts IH]; intros w r Hr Hw.
  - cbn [forEach add_all foldl]. unfold ret. f_equal. symmetry.
    apply set_remote_same; [exact Hr | apply reshow_shown; assumption].
  - cbn [forEach]. rewrite bind_modify.
    rewrite (IH (add_remote_track t w) (add_if_missing r t)).
    + unfold add_remote_track. rewrite Hr. f_equal.
      cbn [remoteVideoRef set_remoteVideoRef set_remoteStreamRef].
      rewrite reshow_reshow. destruct w; reflexivity.
    + unfold add_remote_track. rewrite Hr. reflexivity.
    + unfold add_remote_track, shows_remote. rewrite Hr.
      cbn [remoteVideoRef remoteStreamRef set_remoteVideoRef set_remoteStreamRef].
      intros s Hs. destruct (remoteVideoRef w) as [[[s0|]]|]; try discriminate.
      cbn [reshow] in Hs. congruence.
Qed.

(** [ontrack] as an equation, on a page whose remote video element shows
    nothing but the remote stream. *)
Lemma ontrack_eq streams0 w :
  shows_remote w ->
  let r := add_all (default [] (remoteStreamRef w)) (default [] streams0) in
  ontrack streams0 w
  = (Normal tt,
     set_remoteVideoRef
       (match remoteStreamRef w with
        | Some _ => reshow r (remoteVideoRef w)
        | None => show_stream r (remoteVideoRef w)
        end)
       (set_remoteStreamRef (Some r) w)).
Proof.
  intros Hw. cbv zeta. unfold ontrack. rewrite bind_gets.
  destruct (remoteStreamRef w) as [r0|] eqn:Hr; cbv beta iota.
  - assert (Hc : ret tt w = (Normal tt, w)) by reflexivity.
    rewrite (bind_normal _ _ _ _ _ Hc). clear Hc.
    destruct streams0 as [ts|]; cbn [default].
    + apply add_remote_tracks_eq; assumption.
    + unfold ret, add_all. cbn [foldl]. f_equal. symmetry.
      apply set_remote_same; [exact Hr | apply reshow_shown; assumption].
  - assert (Hc : (modify (set_remoteStreamRef (Some [])) ;;
                  modify (fun w => set_remoteVideoRef
                                     (show_stream [] (remoteVideoRef w)) w)) w
                 = (Normal tt,
                    set_remoteVideoRef (show_stream [] (remoteVideoRef w))
                      (set_remoteStreamRef (Some []) w))) by reflexivity.
    rewrite (bind_normal _ _ _ _ _ Hc). clear Hc.
    destruct streams0 as [ts|]; cbn [default].
    + rewrite (add_remote_tracks_eq ts _ []).
      * f_equal. cbn [remoteVideoRef set_remoteVideoRef set_remoteStreamRef].
        destruct w as [? ? ? ? ? ? ? ? ? ? ? ? rv ? ? ? ? ? ? ?].
        destruct rv as [[[?|]]|]; reflexivity.
      * reflexivity.
      * intros s. cbn [remoteVideoRef remoteStreamRef set_remoteVideoRef
                       set_remoteStreamRef].
        destruct (remoteVideoRef w) as [[?]|]; simpl; intros H;
          [injection H as <-; reflexivity | discriminate].
    + reflexivity.
Qed.

(** X14. [ontrack] returns normally and collects the tracks of the event
    in the remote stream, which it makes when there is none: the stream
    afterwards starts with the tracks it had, contains exactly those and
    the event's, and has no duplicate if it had none.  The same event a
    second time changes nothing.  The remote video element, if mounted when
    the stream is made, shows that stream; the track store, the connection,
    the local stream, the broadcasts and the session are left alone. *)
Theorem ontrack_collects_without_duplicates streams0 w :
  shows_remote w ->
  let r0 := default [] (remoteStreamRef w) in
  let ts := default [] streams0 in
  let w' := snd (ontrack streams0 w) in
  fst (ontrack streams0 w) = Normal tt /\
  (exists r, remoteStreamRef w' = Some r /\
     r0 `prefix_of` r /\ (forall t, t ∈ r <-> t ∈ r0 \/ t ∈ ts) /\
     (NoDup r0 -> NoDup r) /\
     (remoteStreamRef w = None -> remoteVideoRef w <> None ->
      remoteVideoRef w' = Some {| srcObject := Some r |})) /\
  shows_remote w' /\
  ontrack streams0 w' = (Normal tt, w') /\
  tracks w' = tracks w /\ pcRef w' = pcRef w /\ localStreamRef w' = localStreamRef w /\
  sent w' = sent w /\ session_view w' = session_view w.
Proof.
  intros Hw. cbv zeta. rewrite (ontrack_eq streams0 w Hw). cbn [fst snd].
  set (r := add_all (default [] (remoteStreamRef w)) (default [] streams0)).
  set (v := match remoteStreamRef w with
            | Some _ => reshow r (remoteVideoRef w)
            | None => show_stream r (remoteVideoRef w)
            end).
  assert (Hw' : shows_remote (set_remoteVideoRef v (set_remoteStreamRef (Some r) w))).
  { intros s. cbn [remoteVideoRef remoteStreamRef set_remoteVideoRef
                   set_remoteStreamRef]. subst v.
    destruct (remoteStreamRef w), (remoteVideoRef w) as [[[?|]]|];
      cbn [reshow show_stream]; congruence. }
  split; [reflexivity|]. split; [|split; [exact Hw'|split]].
  - exists r. split; [reflexivity|]. split; [apply add_all_prefix|].
    split; [intros t; apply add_all_elem|]. split; [apply add_all_NoDup|].
    intros Hnone Hv. cbn [remoteVideoRef set_remoteVideoRef]. subst v.
    rewrite Hnone. destruct (remoteVideoRef w) as [[?]|]; [reflexivity|contradiction].
  - rewrite (ontrack_eq streams0 _ Hw').
    cbn [remoteVideoRef remoteStreamRef set_remoteVideoRef set_remoteStreamRef].
    change (default [] (Some r)) with r.
    assert (Hr : add_all r (default [] streams0) = r).
    { apply add_all_known. intros t Ht. subst r. apply add_all_elem. now right. }
    rewrite Hr.
    pose proof (reshow_shown _ r Hw' eq_refl) as Hv.
    cbn [remoteVideoRef set_remoteVideoRef] in Hv. rewrite Hv.
    f_equal.
  - repeat split.
Qed.

(** ** The clock string determines the seconds *)

Lemma formatDuration_total ms : formatDuration ms = clock (Z.max 0 (ms / 1000)).
Proof.
  unfold formatDuration, clock.
  set (total := Z.max 0 (ms / 1000)).
  assert (Ht : 0 <= total) by (subst total; lia).
  rewrite !Z.rem_mod_nonneg by lia.
  destruct (Z.ltb_spec total 3600) as [Hlt|Hge].
  - replace (total / 3600) with 0 by zdiv. cbn [Z.ltb Z.compare].
    rewrite (Z.mod_small total 3600) by lia.
    rewrite padStart_two_digits by zdiv. reflexivity.
  - assert (Hh : (0 <? total / 3600) = true) by (apply Z.ltb_lt; zdiv).
    rewrite Hh, !padStart_two_digits by zdiv. reflexivity.
Qed.

Lemma colons_app s1 s2 : colons (s1 +:+ s2) = (colons s1 + colons s2)%nat.
Proof. induction s1 as [|c s1 IH]; simpl; [reflexivity|]. rewrite IH. lia. Qed.

Lemma pretty_N_go_colons x s : colons (pretty_N_go x s) = colons s.
Proof.
  revert s. induction (N.lt_wf_0 x) as [x _ IH]; intros s.
  assert (Hx : (x = 0 \/ 0 < x)%N) by lia. destruct Hx as [->|Hx].
  - now rewrite pretty_N_go_0.
  - rewrite pretty_N_go_step by exact Hx.
    rewrite IH by (apply N.div_lt; lia).
    unfold pretty_N_char. now repeat case_match.
Qed.

Lemma pretty_colons n : 0 <= n -> colons (String_of n) = 0%nat.
Proof.
  intros Hn. unfold String_of, pretty, pretty_Z.
  destruct n as [|q|q]; [reflexivity| |lia].
  unfold pretty, pretty_positive, pretty, pretty_N.
  case_decide; [reflexivity|]. apply pretty_N_go_colons.
Qed.

Lemma two_digits_facts a b :
  0 <= a < 100 -> 0 <= b < 100 ->
  colons (two_digits a) = 0%nat /\ (two_digits a = two_digits b -> a = b).
Proof.
  intros Ha Hb.
  assert (Hall : forallb
            (fun x =>
               Nat.eqb (colons (two_digits (Z.of_nat x))) 0 &&
               forallb (fun y =>
                          implb (bool_decide (two_digits (Z.of_nat x)
                                              = two_digits (Z.of_nat y)))
                            (Nat.eqb x y))
                 (seq 0 100))
            (seq 0 100) = true) by (vm_compute; reflexivity).
  rewrite forallb_forall in Hall.
  specialize (Hall (Z.to_nat a)). rewrite Z2Nat.id in Hall by lia.
  destruct (andb_prop _ _ (Hall ltac:(apply in_seq; lia))) as [H1 H2].
  split; [apply Nat.eqb_eq, H1|].
  intros Heq. rewrite forallb_forall in H2.
  specialize (H2 (Z.to_nat b)). rewrite Z2Nat.id in H2 by lia.
  specialize (H2 ltac:(apply in_seq; lia)).
  rewrite bool_decide_eq_true_2 in H2 by exact Heq.
  apply Nat.eqb_eq in H2. lia.
Qed.

Lemma append_nil r : "" +:+ r = r.
Proof. reflexivity. Qed.

Lemma append_cons c s r : String c s +:+ r = String c (s +:+ r).
Proof. reflexivity. Qed.

(** Two strings without colons that are followed by a colon. *)
Lemma split_at_colon p1 p2 r1 r2 :
  colons p1 = 0%nat -> colons p2 = 0%nat ->
  p1 +:+ ":" +:+ r1 = p2 +:+ ":" +:+ r2 -> p1 = p2 /\ r1 = r2.
Proof.
  revert p2. induction p1 as [|c p1 IH]; intros [|c' p2] H1 H2 Heq;
    rewrite ?append_cons, ?append_nil in Heq; cbn [colons] in *.
  - injection Heq as ->. auto.
  - injection Heq as <- _. rewrite Ascii.eqb_refl in H2. discriminate.
  - injection Heq as -> _. rewrite Ascii.eqb_refl in H1. discriminate.
  - injection Heq as -> Heq.
    destruct (Ascii.eqb c' ":"%char); [discriminate|].
    destruct (IH p2 H1 H2 Heq) as [-> ->]. auto.
Qed.

Lemma clock_colons t :
  0 <= t -> colons (clock t) = if t <? 3600 then 1%nat else 2%nat.
Proof.
  intros Ht. unfold clock, clock_m_ss, clock_h_mm_ss.
  destruct (Z.ltb_spec t 3600).
  - rewrite !colons_app, pretty_colons by zdiv.
    rewrite (proj1 (two_digits_facts (t mod 60) 0 ltac:(zdiv) ltac:(lia))).
    reflexivity.
  - rewrite !colons_app, pretty_colons by zdiv.
    rewrite (proj1 (two_digits_facts (t mod 3600 / 60) 0 ltac:(zdiv) ltac:(lia))).
    rewrite (proj1 (two_digits_facts (t mod 60) 0 ltac:(zdiv) ltac:(lia))).
    reflexivity.
Qed.

Lemma clock_inj t1 t2 : 0 <= t1 -> 0 <= t2 -> clock t1 = clock t2 -> t1 = t2.
Proof.
  intros H1 H2 Heq.
  pose proof (clock_colons t1 H1) as C1. pose proof (clock_colons t2 H2) as C2.
  rewrite Heq in C1. rewrite C2 in C1. clear C2.
  unfold clock, clock_m_ss, clock_h_mm_ss in Heq.
  destruct (Z.ltb_spec t1 3600), (Z.ltb_spec t2 3600); try discriminate.
  - apply split_at_colon in Heq as [Hm Hs]; try (apply pretty_colons; zdiv).
    apply (inj pretty) in Hm.
    apply (two_digits_facts (t1 mod 60) (t2 mod 60)) in Hs; zdiv.
  - apply split_at_colon in Heq as [Hh Hr]; try (apply pretty_colons; zdiv).
    apply (inj pretty) in Hh.
    apply split_at_colon in Hr as [Hm Hs];
      try (apply (two_digits_facts _ 0); zdiv).
    apply (two_digits_facts (t1 mod 3600 / 60) (t2 mod 3600 / 60)) in Hm;
      [|zdiv|zdiv].
    apply (two_digits_facts (t1 mod 60) (t2 mod 60)) in Hs; [|zdiv|zdiv].
    zdiv.
Qed.

(** X15. The clock string determines the elapsed whole seconds: two
    durations are shown as the same string exactly when they have the same
    number of whole seconds, negative durations counting as zero.  So the
    string changes with every second of a running call. *)
Theorem clock_string_determines_seconds ms1 ms2 :
  formatDuration ms1 = formatDuration ms2
  <-> Z.max 0 (ms1 / 1000) = Z.max 0 (ms2 / 1000).
Proof.
  rewrite !formatDuration_total. split.
  - apply clock_inj; lia.
  - intros ->. reflexivity.
Qed.


(** * Conversations and messages *)

Lemma append_messages_lookup id more (m : gmap string (list ChatMessage)) :
  append_messages id more m !! id = Some (default [] (m !! id) ++ more).
Proof. unfold append_messages. apply lookup_insert_eq. Qed.

Lemma append_messages_other id more (m : gmap string (list ChatMessage)) k :
  k <> id -> append_messages id more m !! k = m !! k.
Proof. intros H. unfold append_messages. apply lookup_insert_ne. congruence. Qed.

(** X16. Sending a message, with a user signed in and a conversation
    active, appends exactly one text message of that user with the given
    text and status sent to the end of the shown messages, leaves the
    messages of every other conversation as they are, and updates the
    preview of the active conversation and of no other: the conversations
    keep their order, ids, contacts and unread counts.  Without a signed-in
    user nothing changes. *)
Theorem sent_message_is_appended user text nowMs iso iso' c convId :
  or_null (activeConversationId c) = Some convId ->
  let c' := handleSendMessage (Some user) text nowMs iso iso' c in
  (exists msg,
     messages c' = messages c ++ [msg] /\
     m_content msg = text /\ m_senderId msg = u_id user /\
     m_type msg = msg_text /\ m_status msg = Some status_sent /\
     m_createdAt msg = iso) /\
  (forall k, k <> convId -> messagesByConv c' !! k = messagesByConv c !! k) /\
  activeConversationId c' = activeConversationId c /\
  map conv_id (conversations c') = map conv_id (conversations c) /\
  map conv_contact (conversations c') = map conv_contact (conversations c) /\
  map conv_unreadCount (conversations c') = map conv_unreadCount (conversations c) /\
  (forall i cv, conversations c !! i = Some cv ->
     exists cv', conversations c' !! i = Some cv' /\
       if bool_decide (conv_id cv = convId)
       then conv_lastMessage cv' = Some {| lm_text := text; lm_createdAt := inl iso' |}
       else cv' = cv) /\
  handleSendMessage None text nowMs iso iso' c = c.
Proof.
  intros Hactive. cbv zeta. unfold handleSendMessage, messages. rewrite Hactive.
  cbn [conversations messagesByConv activeConversationId]. rewrite Hactive.
  split; [|split; [|split; [|split; [|split; [|split; [|split]]]]]].
  - eexists. rewrite append_messages_lookup. cbn [default].
    split; [reflexivity|]. repeat split.
  - intros k Hk. apply append_messages_other. exact Hk.
  - reflexivity.
  - rewrite map_map. apply map_ext. intros cv. now destruct (bool_decide _).
  - rewrite map_map. apply map_ext. intros cv. now destruct (bool_decide _).
  - rewrite map_map. apply map_ext. intros cv. now destruct (bool_decide _).
  - intros i cv Hi. eexists. rewrite list_lookup_fmap, Hi. split; [reflexivity|].
    destruct (bool_decide (conv_id cv = convId)); reflexivity.
  - reflexivity.
Qed.

Lemma sent_message_is_appended_witness :
  let c := {| conversations := []; messagesByConv := ∅;
              activeConversationId := Some "c_1" |} in
  or_null (activeConversationId c) = Some "c_1" /\
  length (messages (handleSendMessage (Some alice) "hi" 5 "t" "t" c)) = 1%nat.
Proof.
  cbv zeta. split; [reflexivity|].
  destruct (proj1 (sent_message_is_appended alice "hi" 5 "t" "t"
                     {| conversations := []; messagesByConv := ∅;
                        activeConversationId := Some "c_1" |} "c_1" eq_refl))
    as (msg & Hm & _).
  rewrite Hm. reflexivity.
Defined.

(** ** Starting a chat with a user *)

Lemma find_contact_head user cv l :
  u_id (conv_contact cv) = u_id user ->
  List.find (fun cv => bool_decide (u_id (conv_contact cv) = u_id user)) (cv :: l)
  = Some cv.
Proof. intros H. simpl. now rewrite bool_decide_eq_true_2. Qed.

(** X17. Starting a chat with a user never makes a second conversation
    with the same contact.  If a conversation with that user exists, the
    list is unchanged and a conversation with that user becomes the active
    one.  If none exists, one conversation with that user, with the id
    [c_<now>], without preview and with unread count 0, is put in front and
    becomes the active one; it shows the messages that the map holds under
    that id, none when the map has no entry there.  In both cases the
    message map is untouched, a list without two conversations of one
    contact stays so, and starting the chat again, at any time, changes
    nothing. *)
Theorem start_chat_focuses_without_duplicates nowMs user c :
  let c' := handleStartChatWithUser nowMs user c in
  messagesByConv c' = messagesByConv c /\
  ((exists e, e ∈ conversations c /\ u_id (conv_contact e) = u_id user /\
      conversations c' = conversations c /\
      activeConversationId c' = Some (conv_id e))
   \/
   (exists n,
      (forall cv, cv ∈ conversations c -> u_id (conv_contact cv) <> u_id user) /\
      conversations c' = n :: conversations c /\
      conv_contact n = user /\ conv_lastMessage n = None /\
      conv_unreadCount n = Some 0 /\
      conv_id n = "c_" +:+ String_of nowMs /\
      activeConversationId c' = Some (conv_id n) /\
      messages c' = default [] (messagesByConv c !! conv_id n) /\
      (messagesByConv c !! conv_id n = None -> messages c' = []))) /\
  (exists cv, cv ∈ conversations c' /\
     activeConversationId c' = Some (conv_id cv) /\
     u_id (conv_contact cv) = u_id user) /\
  (NoDup (map (fun cv => u_id (conv_contact cv)) (conversations c)) ->
   NoDup (map (fun cv => u_id (conv_contact cv)) (conversations c'))) /\
  (forall nowMs', handleStartChatWithUser nowMs' user c' = c').
Proof.
  cbv zeta.
  destruct (List.find (fun cv => bool_decide (u_id (conv_contact cv) = u_id user))
              (conversations c)) as [e|] eqn:Hfind.
  - assert (Hc : handleStartChatWithUser nowMs user c
                 = {| conversations := conversations c;
                      messagesByConv := messagesByConv c;
                      activeConversationId := Some (conv_id e) |})
      by (unfold handleStartChatWithUser; rewrite Hfind; reflexivity).
    rewrite !Hc. clear Hc.
    cbn [conversations messagesByConv activeConversationId].
    pose proof Hfind as Hfound.
    apply find_some in Hfind as [Hin He]. apply bool_decide_eq_true_1 in He.
    split; [reflexivity|]. split.
    { left. exists e. split; [apply list_elem_of_In, Hin|]. auto. }
    split; [exists e; split; [apply list_elem_of_In, Hin | auto]|].
    split; [auto|].
    intros nowMs'. unfold handleStartChatWithUser.
    cbn [conversations messagesByConv activeConversationId].
    rewrite Hfound. reflexivity.
  - assert (Hc : handleStartChatWithUser nowMs user c
                 = {| conversations :=
                        {| conv_id := "c_" +:+ String_of nowMs;
                           conv_contact := {| u_id := u_id user;
                                              u_username := u_username user;
                                              u_displayName := u_displayName user;
                                              u_avatarUrl := u_avatarUrl user |};
                           conv_lastMessage := None;
                           conv_unreadCount := Some 0 |} :: conversations c;
                      messagesByConv := messagesByConv c;
                      activeConversationId := Some ("c_" +:+ String_of nowMs) |})
      by (unfold handleStartChatWithUser; rewrite Hfind; reflexivity).
    rewrite !Hc. clear Hc.
    cbn [conversations messagesByConv activeConversationId].
    split; [reflexivity|]. split; [|split; [|split]].
    + right. eexists. cbn [conv_contact conv_lastMessage conv_id conv_unreadCount].
      split.
      { intros cv Hcv. apply list_elem_of_In in Hcv.
        pose proof (find_none _ _ Hfind cv Hcv) as Hno. cbv beta in Hno.
        apply bool_decide_eq_false_1 in Hno. exact Hno. }
      split; [reflexivity|]. cbn [conv_contact conv_lastMessage conv_id conv_unreadCount].
      split; [now destruct user|]. split; [reflexivity|]. split; [reflexivity|].
      split; [reflexivity|]. split; [reflexivity|].
      assert (Hm : messages
                     {| conversations :=
                          {| conv_id := "c_" +:+ String_of nowMs;
                             conv_contact := {| u_id := u_id user;
                                                u_username := u_username user;
                                                u_displayName := u_displayName user;
                                                u_avatarUrl := u_avatarUrl user |};
                             conv_lastMessage := None;
                             conv_unreadCount := Some 0 |} :: conversations c;
                        messagesByConv := messagesByConv c;
                        activeConversationId := Some ("c_" +:+ String_of nowMs) |}
                   = default [] (messagesByConv c !! ("c_" +:+ String_of nowMs)))
        by reflexivity.
      split; [exact Hm|]. intros Hnone. rewrite Hm, Hnone. reflexivity.
    + eexists. split; [apply list_elem_of_here|]. split; reflexivity.
    + intros Hnd. cbn [map conv_contact u_id]. constructor; [|exact Hnd].
      intros Hin. apply list_elem_of_In, in_map_iff in Hin as (cv & Hid & Hcv).
      pose proof (find_none _ _ Hfind cv Hcv) as Hno. cbv beta in Hno.
      apply bool_decide_eq_false_1 in Hno. contradiction.
    + intros nowMs'. unfold handleStartChatWithUser.
      cbn [conversations messagesByConv activeConversationId List.find
           conv_contact u_id].
      rewrite bool_decide_eq_true_2 by reflexivity. reflexivity.
Qed.

Lemma find_by_id e l :
  NoDup (map conv_id l) -> In e l ->
  List.find (fun cv => bool_decide (Some (conv_id cv) = Some (conv_id e))) l = Some e.
Proof.
  induction l as [|x l IH]; intros Hnd Hin; [contradiction|].
  apply NoDup_cons in Hnd as [Hx Hnd]. simpl.
  destruct Hin as [->|Hin].
  - now rewrite bool_decide_eq_true_2.
  - rewrite bool_decide_eq_false_2; [apply IH; assumption|].
    intros Heq. injection Heq as Heq. apply Hx. rewrite Heq.
    apply list_elem_of_In, in_map, Hin.
Qed.

(** X18. A call started after starting a chat with a user goes to that
    user: when no two conversations share an id, the active contact after
    [handleStartChatWithUser] has that user's id, so a start of a call with
    the active contact either leaves the session Outgoing with that user as
    peer or, when the offer flow fails, idle without a peer. *)
Theorem call_goes_to_the_chosen_user nowMs user c env me w :
  NoDup (map conv_id (conversations c)) ->
  let c' := handleStartChatWithUser nowMs user c in
  (c_id <$> activeContact c') = Some (u_id user) /\
  let w' := snd (handleStartCall env (Some me) (activeContact c') w) in
  (lifecycleState w' = Outgoing /\ callPeerId w' = Some (u_id user)) \/
  (lifecycleState w' = Idle /\ callPeerId w' = None).
Proof.
  intros Hnd. cbv zeta.
  assert (Hcv : exists cv, activeConversation (handleStartChatWithUser nowMs user c)
                           = Some cv /\ u_id (conv_contact cv) = u_id user).
  { unfold activeConversation, handleStartChatWithUser.
    destruct (List.find _ (conversations c)) as [e|] eqn:Hfind;
      cbn [conversations activeConversationId].
    - apply find_some in Hfind as [Hin He]. apply bool_decide_eq_true_1 in He.
      exists e. split; [apply find_by_id; assumption | exact He].
    - eexists. split.
      + cbn [List.find conv_id]. rewrite bool_decide_eq_true_2 by reflexivity.
        reflexivity.
      + reflexivity. }
  destruct Hcv as (cv & Hcv & Hid).
  unfold activeContact. rewrite Hcv. cbn [fmap option_fmap option_map c_id].
  split; [rewrite Hid; reflexivity|].
  match goal with
  | |- context [handleStartCall env (Some me) (Some ?contact) w] =>
      destruct (handleStartCall_cases env me contact w) as [_ [[Hv _]|Hfail]]
  end.
  - left. apply session_view_eq in Hv as (Ho & Hs & _ & Hp & _).
    unfold lifecycleState. rewrite Ho, Hs, Hp. cbn [c_id]. rewrite Hid.
    split; reflexivity.
  - right. cbv zeta in Hfail. destruct Hfail as (Hl & _ & Hp & _).
    split; [exact Hl | exact Hp].
Qed.

Lemma call_goes_to_the_chosen_user_witness :
  let c := {| conversations := []; messagesByConv := ∅;
              activeConversationId := None |} in
  NoDup (map conv_id (conversations c)) /\
  (c_id <$> activeContact (handleStartChatWithUser 7 bob c)) = Some "bob".
Proof.
  cbv zeta.
  assert (H : NoDup (map conv_id
                       (conversations {| conversations := []; messagesByConv := ∅;
                                         activeConversationId := None |})))
    by constructor.
  split; [exact H|].
  apply (call_goes_to_the_chosen_user 7 bob _ (env_ok 8) alice initial_world H).
Defined.

Lemma start_chat_focuses_without_duplicates_witness :
  let c := {| conversations :=
                [{| conv_id := "c_1"; conv_contact := bob; conv_lastMessage := None;
                    conv_unreadCount := Some 0 |}];
              messagesByConv := ∅; activeConversationId := None |} in
  NoDup (map (fun cv => u_id (conv_contact cv)) (conversations c)) /\
  NoDup (map (fun cv => u_id (conv_contact cv))
           (conversations (handleStartChatWithUser 7 bob c))).
Proof.
  cbv zeta.
  assert (H : NoDup (map (fun cv => u_id (conv_contact cv))
                       (conversations
                          {| conversations :=
                               [{| conv_id := "c_1"; conv_contact := bob;
                                   conv_lastMessage := None;
                                   conv_unreadCount := Some 0 |}];
                             messagesByConv := ∅; activeConversationId := None |})))
    by (apply NoDup_singleton).
  split; [exact H|].
  apply (start_chat_focuses_without_duplicates 7 bob
           {| conversations :=
                [{| conv_id := "c_1"; conv_contact := bob; conv_lastMessage := None;
                    conv_unreadCount := Some 0 |}];
              messagesByConv := ∅; activeConversationId := None |}).
  exact H.
Defined.

(** ** Uploads *)

(** X19. Uploading files or images, with a user signed in and a
    conversation active, appends one message per file, in the order of the
    files, to the end of the shown messages: a file message carries the
    file's name, size and object URL, an image message the object URL and
    the name as alternative text.  The messages of every other
    conversation stay as they are, and so does the whole conversation list:
    unlike a sent text, an upload does not update the preview.  Without a
    signed-in user nothing changes. *)
Theorem uploads_are_appended user files c convId :
  or_null (activeConversationId c) = Some convId ->
  let cf := handleUploadFiles (Some user) files c in
  let ci := handleUploadImages (Some user) files c in
  messages cf = messages c ++ imap (file_message user) files /\
  messages ci = messages c ++ imap (image_message user) files /\
  length (messages cf) = (length (messages c) + length files)%nat /\
  length (messages ci) = (length (messages c) + length files)%nat /\
  (forall i f, files !! i = Some f ->
     exists mf mi,
       messages cf !! (length (messages c) + i)%nat = Some mf /\
       messages ci !! (length (messages c) + i)%nat = Some mi /\
       m_type mf = msg_file /\ m_fileName mf = Some (f_name f) /\
       m_fileSize mf = Some (f_size f) /\ m_content mf = f_url f /\
       m_type mi = msg_image /\ m_imageAlt mi = Some (f_name f) /\
       m_content mi = f_url f /\
       m_senderId mf = u_id user /\ m_senderId mi = u_id user) /\
  (forall k, k <> convId ->
     messagesByConv cf !! k = messagesByConv c !! k /\
     messagesByConv ci !! k = messagesByConv c !! k) /\
  conversations cf = conversations c /\ conversations ci = conversations c /\
  activeConversationId cf = activeConversationId c /\
  activeConversationId ci = activeConversationId c /\
  handleUploadFiles None files c = c /\ handleUploadImages None files c = c.
Proof.
  intros Hactive. cbv zeta.
  unfold handleUploadFiles, handleUploadImages, messages. rewrite Hactive.
  cbn [conversations messagesByConv activeConversationId]. rewrite Hactive.
  rewrite !append_messages_lookup. cbn [default].
  set (before := default [] (messagesByConv c !! convId)).
  change (id (before ++ imap (file_message user) files))
    with (before ++ imap (file_message user) files).
  change (id (before ++ imap (image_message user) files))
    with (before ++ imap (image_message user) files).
  split; [reflexivity|]. split; [reflexivity|].
  split; [rewrite length_app, length_imap; reflexivity|].
  split; [rewrite length_app, length_imap; reflexivity|].
  split; [|split].
  - intros i f Hi. eexists _, _.
    rewrite !lookup_app_r by lia.
    replace (length before + i - length before)%nat with i by lia.
    rewrite !list_lookup_imap, Hi. cbn [fmap option_fmap option_map].
    repeat split.
  - intros k Hk. split; apply append_messages_other; exact Hk.
  - repeat split.
Qed.

Lemma uploads_are_appended_witness :
  let c := {| conversations := []; messagesByConv := ∅;
              activeConversationId := Some "c_1" |} in
  let f := {| f_name := "a.txt"; f_size := 3; f_url := "blob:1"; f_now := 9;
              f_iso := "t" |} in
  or_null (activeConversationId c) = Some "c_1" /\
  length (messages (handleUploadFiles (Some alice) [f; f] c)) = 2%nat.
Proof.
  cbv zeta. split; [reflexivity|].
  pose proof (uploads_are_appended alice
                [{| f_name := "a.txt"; f_size := 3; f_url := "blob:1"; f_now := 9;
                    f_iso := "t" |};
                 {| f_name := "a.txt"; f_size := 3; f_url := "blob:1"; f_now := 9;
                    f_iso := "t" |}]
                {| conversations := []; messagesByConv := ∅;
                   activeConversationId := Some "c_1" |} "c_1" eq_refl)
    as (_ & _ & H & _).
  exact H.
Defined.

Lemma ontrack_collects_without_duplicates_witness :
  shows_remote initial_world /\
  remoteStreamRef (snd (ontrack (Some [4; 5; 4]%nat) initial_world)) = Some [4; 5]%nat.
Proof.
  assert (H : shows_remote initial_world) by (intros s Hs; discriminate).
  split; [exact H|].
  destruct (ontrack_collects_without_duplicates (Some [4; 5; 4]%nat) initial_world H)
    as (_ & (r & Hr & _) & _).
  rewrite Hr. f_equal.
  assert (Hr' : remoteStreamRef (snd (ontrack (Some [4; 5; 4]%nat) initial_world))
                = Some [4; 5]%nat) by (vm_compute; reflexivity).
  congruence.
Defined.

Lemma clock_string_determines_seconds_witness :
  Z.max 0 (61000 / 1000) = Z.max 0 (61999 / 1000) /\
  formatDuration 61000 = formatDuration 61999.
Proof.
  assert (H : Z.max 0 (61000 / 1000) = Z.max 0 (61999 / 1000)) by reflexivity.
  split; [exact H|].
  apply (proj2 (clock_string_determines_seconds 61000 61999) H).
Defined.

(** * The page as a transition system *)

Section Moves.
Context {X : Type} (V : World -> X) (R : X -> X -> Prop).
Context (R_refl : forall x, R x x) (R_trans : forall x y z, R x y -> R y z -> R x z).

Lemma moves_keeps {A} (c : JS A) : keeps V c -> moves V R c.
Proof. intros H w. rewrite H. apply R_refl. Qed.

Lemma moves_modify f : (forall w, R (V w) (V (f w))) -> moves V R (modify f).
Proof. intros H w. apply H. Qed.

Lemma moves_bind {A B} (c : JS A) (k : A -> JS B) :
  moves V R c -> (forall a, moves V R (k a)) -> moves V R (bind c k).
Proof.
  intros Hc Hk w. unfold bind. specialize (Hc w).
  destruct (c w) as [[a|] w']; simpl in *; [|exact Hc].
  eapply R_trans; [exact Hc | apply Hk].
Qed.

Lemma moves_try_catch body handler :
  moves V R body -> moves V R handler -> moves V R (try_catch body handler).
Proof.
  intros Hb Hh w. unfold try_catch. specialize (Hb w).
  destruct (body w) as [[[]|] w']; simpl in *; [exact Hb|].
  eapply R_trans; [exact Hb | apply Hh].
Qed.

Lemma moves_try body : moves V R body -> moves V R (try_ body).
Proof. intros H. apply moves_try_catch; [exact H | apply moves_keeps, keeps_ret]. Qed.

Lemma moves_not_awaited c : moves V R c -> moves V R (not_awaited c).
Proof. intros H w. apply H. Qed.

Lemma moves_forEach {A} (l : list A) (f : A -> JS unit) :
  (forall x, moves V R (f x)) -> moves V R (forEach l f).
Proof.
  intros Hf. induction l as [|x l IH]; simpl.
  - apply moves_keeps, keeps_ret.
  - apply moves_bind; auto.
Qed.

Lemma moves_run (h : PageEvent -> JS unit) es w :
  (forall e, moves V R (h e)) ->
  R (V w) (V (foldl (fun w e => snd (h e w)) w es)).
Proof.
  intros H. revert w. induction es as [|e es IH]; intros w; simpl.
  - apply R_refl.
  - eapply R_trans; [apply H | apply IH].
Qed.
End Moves.

(** Walks through a handler body; [leaf] closes its statements. *)
Ltac moves_walk Hrefl Htrans leaf :=
  repeat lazymatch goal with
  | |- moves _ _ (bind _ _) => apply (moves_bind _ _ Htrans); [|intros]
  | |- moves _ _ (try_ _) => apply (moves_try _ _ Hrefl Htrans)
  | |- moves _ _ (try_catch _ _) => apply (moves_try_catch _ _ Htrans)
  | |- moves _ _ (not_awaited _) => apply moves_not_awaited
  | |- moves _ _ (forEach _ _) => apply (moves_forEach _ _ Hrefl Htrans); intros
  | |- moves _ _ (match ?x with _ => _ end) => destruct x
  | |- moves _ _ _ => leaf
  end.

Lemma quality_step_refl q : quality_step q q.
Proof. left. reflexivity. Qed.

Lemma quality_step_trans a b c : quality_step a b -> quality_step b c -> quality_step a c.
Proof. unfold quality_step. intros [->|H] [->|H']; auto. Qed.

Ltac quality_leaf :=
  first
    [ apply (moves_keeps _ _ quality_step_refl); keeps_leaf
    | apply moves_modify; intros; right; unfold quality_shown;
      cbn [connectionStatus setConnectionStatus]; auto ].

Lemma quality_handle myId e : moves connectionStatus quality_step (handle myId e).
Proof.
  destruct e as [[env ev payload]| | | | | | | | | | | |];
    cbn [handle d_env d_event d_payload];
    try destruct ev; unfold_handlers; cbv zeta;
    moves_walk quality_step_refl quality_step_trans quality_leaf.
Qed.

(** X20. The connection quality that the page gives the modal is never
    fair or poor: whatever happens to the page (broadcasts, clicks,
    dismissals, callbacks of the connection, in any order, each handled to
    its end, and whatever the browser does), a quality that is connecting,
    good or disconnected stays one of these three.  The initial quality is
    connecting. *)
Theorem quality_is_never_fair_or_poor myId es w :
  quality_shown (connectionStatus w) ->
  quality_shown (connectionStatus (page_run myId es w)) /\
  connectionStatus (page_run myId es w) <> fair /\
  connectionStatus (page_run myId es w) <> poor.
Proof.
  intros Hw.
  assert (H : quality_shown (connectionStatus (page_run myId es w))).
  { destruct (moves_run connectionStatus quality_step quality_step_refl
                quality_step_trans (handle myId) es w (quality_handle myId))
      as [Heq|Hq].
    - unfold page_run, page_step. rewrite Heq. exact Hw.
    - exact Hq. }
  split; [exact H|].
  destruct H as [H|[H|H]]; rewrite H; split; discriminate.
Qed.

Lemma quality_is_never_fair_or_poor_witness :
  quality_shown (connectionStatus initial_world) /\
  connectionStatus
    (page_run "alice"
       [StartCall (env_ok 1000) (Some alice) (Some bob_contact);
        ConnectionStateChanged st_failed] initial_world) <> fair.
Proof.
  assert (H : quality_shown (connectionStatus initial_world)) by (left; reflexivity).
  split; [exact H|].
  apply (quality_is_never_fair_or_poor "alice"
           [StartCall (env_ok 1000) (Some alice) (Some bob_contact);
            ConnectionStateChanged st_failed] initial_world H).
Defined.

(** ** The video elements *)

Lemma shows_held_step_refl a : shows_held_step a a.
Proof. intros H. exact H. Qed.

Lemma shows_held_step_trans a b c :
  shows_held_step a b -> shows_held_step b c -> shows_held_step a c.
Proof. unfold shows_held_step. auto. Qed.

Lemma shows_clear v : shows (clear_srcObject v) None.
Proof. intros e. destruct v; simpl; [intros [= <-]; reflexivity | discriminate]. Qed.

Lemma shows_show s v : shows (show_stream s v) (Some s).
Proof. intros e. destruct v; simpl; [intros [= <-]; reflexivity | discriminate]. Qed.

Lemma moves_held_cleanupCall env : moves video_view shows_held_step (cleanupCall env).
Proof.
  intros w _. destruct (cleanupCall_released env w) as [ts ->].
  split; cbn; apply shows_clear.
Qed.

Lemma moves_held_ensureLocalMedia env :
  moves video_view shows_held_step (ensureLocalMedia env).
Proof.
  intros w [Hl Hr]. unfold ensureLocalMedia. rewrite bind_gets.
  destruct (localStreamRef w) as [s|] eqn:Hs; [split; assumption|].
  destruct (getUserMedia env) as [kinds|]; [|split; assumption].
  split; cbn.
  - apply shows_show.
  - exact Hr.
Qed.

Lemma shows_held_remote w : shows_held w -> shows_remote w.
Proof.
  intros [_ Hr] s Hv. cbn in Hr. specialize (Hr _ Hv). cbn in Hr. congruence.
Qed.

Lemma moves_held_ontrack streams0 : moves video_view shows_held_step (ontrack streams0).
Proof.
  intros w Hw. pose proof (shows_held_remote w Hw) as Hrem.
  rewrite (ontrack_eq streams0 w Hrem). destruct Hw as [Hl Hr]. split; [exact Hl|].
  cbn in Hr |- *. destruct (remoteStreamRef w) as [r|].
  - intros e He. destruct (remoteVideoRef w) as [[[s|]]|]; cbn in He.
    + injection He as <-. reflexivity.
    + specialize (Hr _ eq_refl). discriminate.
    + discriminate.
  - apply shows_show.
Qed.

Ltac held_leaf :=
  first
    [ apply (moves_keeps _ _ shows_held_step_refl); keeps_leaf
    | apply moves_held_cleanupCall
    | apply moves_held_ensureLocalMedia ].

Lemma held_handle myId e : moves video_view shows_held_step (handle myId e).
Proof.
  destruct e as [[env ev payload]| | | | | | | | | | | |streams0];
    cbn [handle d_env d_event d_payload];
    [..|apply moves_held_ontrack];
    try destruct ev; unfold_handlers; cbv zeta;
    moves_walk shows_held_step_refl shows_held_step_trans held_leaf.
Qed.

(** X21. Each video element shows the stream the page holds: whatever
    happens to the page, a mounted local video element has the local stream
    as its [srcObject] and a mounted remote video element the remote stream
    (null when none is held), if this was so before; it is so on the initial
    page.  So the remote video element never shows a stream other than the
    one [ontrack] collects tracks in. *)
Theorem video_elements_show_the_held_streams myId es w :
  shows_held w ->
  shows_held (page_run myId es w) /\ shows_remote (page_run myId es w).
Proof.
  intros Hw.
  assert (H : shows_held (page_run myId es w)).
  { exact (moves_run video_view shows_held_step shows_held_step_refl
             shows_held_step_trans (handle myId) es w (held_handle myId) Hw). }
  split; [exact H | apply shows_held_remote, H].
Qed.

Lemma video_elements_show_the_held_streams_witness :
  shows_held initial_world /\
  shows_held
    (page_run "bob"
       [Answered (env_ok 1000) (Some bob); TrackArrived (Some [4; 5]%nat)]
       initial_world).
Proof.
  assert (H : shows_held initial_world).
  { split; intros e [= <-]; reflexivity. }
  split; [exact H|].
  apply (video_elements_show_the_held_streams "bob"
           [Answered (env_ok 1000) (Some bob); TrackArrived (Some [4; 5]%nat)]
           initial_world H).
Defined.

(** ** What the page hands to the channel *)

Lemma appends_at_most_refl n l : appends_at_most n l l.
Proof. exists []. split; [now rewrite app_nil_r | simpl; lia]. Qed.

Section MovesOnce.
Context {X : Type} (V : World -> X) (R : X -> X -> Prop) (R_refl : forall x, R x x).

Lemma moves_after {A B} (c : JS A) (k : A -> JS B) :
  keeps V c -> (forall a, moves V R (k a)) -> moves V R (bind c k).
Proof.
  intros Hc Hk w. unfold bind. specialize (Hc w).
  destruct (c w) as [[a|] w']; simpl in *.
  - rewrite <- Hc. apply Hk.
  - rewrite Hc. apply R_refl.
Qed.

Lemma moves_before {A B} (c : JS A) (k : A -> JS B) :
  moves V R c -> (forall a, keeps V (k a)) -> moves V R (bind c k).
Proof.
  intros Hc Hk w. unfold bind. specialize (Hc w).
  destruct (c w) as [[a|] w']; simpl in *; [rewrite Hk|]; exact Hc.
Qed.

Lemma moves_try_catch_once body handler :
  moves V R body -> keeps V handler -> moves V R (try_catch body handler).
Proof.
  intros Hb Hh w. unfold try_catch. specialize (Hb w).
  destruct (body w) as [[[]|] w']; simpl in *; [|rewrite Hh]; exact Hb.
Qed.

Lemma moves_try_once body : moves V R body -> moves V R (try_ body).
Proof. intros H. apply moves_try_catch_once; [exact H | apply keeps_ret]. Qed.
End MovesOnce.

Lemma moves_sent_sendCallEvent env ev p :
  moves sent (appends_at_most 1) (sendCallEvent env ev p).
Proof.
  intros w. unfold sendCallEvent. rewrite bind_gets.
  destruct (callSignalChannelRef w); simpl; [|apply appends_at_most_refl].
  rewrite bind_modify. exists [(ev, p)]. split; [|simpl; lia].
  destruct (send_ok env); reflexivity.
Qed.

Lemma moves_sent_append e :
  moves sent (appends_at_most 1) (modify (fun w => set_sent (sent w ++ [e]) w)).
Proof. intros w. exists [e]. split; [reflexivity | simpl; lia]. Qed.

(** Walks through a handler body one statement of which may hand an
    envelope to the channel. *)
Ltac once_walk :=
  repeat lazymatch goal with
  | |- moves _ _ (bind _ _) =>
      first [ apply (moves_after _ _ (appends_at_most_refl 1));
              [solve [keeps_all] | intros]
            | apply moves_before; [|intros; solve [keeps_all]] ]
  | |- moves _ _ (try_ _) => apply moves_try_once
  | |- moves _ _ (try_catch _ _) => apply moves_try_catch_once; [|solve [keeps_all]]
  | |- moves _ _ (not_awaited _) => apply moves_not_awaited
  | |- moves _ _ (match ?x with _ => _ end) => destruct x
  | |- moves _ _ _ =>
      first [ apply (moves_keeps _ _ (appends_at_most_refl 1)); solve [keeps_all]
            | apply moves_sent_sendCallEvent
            | apply moves_sent_append ]
  end.

Lemma once_handle myId e : moves sent (appends_at_most 1) (handle myId e).
Proof.
  destruct e as [[env ev payload]| | | | | | | | | | | |];
    cbn [handle d_env d_event d_payload];
    try destruct ev; unfold_handlers; cbv zeta; once_walk.
Qed.

(** X22. The page never takes back what it handed to the channel, and no
    event makes it hand over more than one envelope: after any events, in
    any order and whatever the browser does, the envelopes handed to the
    channel are those handed over before, followed by at most as many new
    ones as there were events. *)
Theorem each_event_sends_at_most_one myId es w :
  exists l, sent (page_run myId es w) = sent w ++ l /\ (length l <= length es)%nat.
Proof.
  revert w. induction es as [|e es IH]; intros w.
  - exists []. split; [symmetry; apply app_nil_r | simpl; lia].
  - destruct (once_handle myId e w) as (l1 & H1 & Hn1).
    destruct (IH (page_step myId w e)) as (l2 & H2 & Hn2).
    exists (l1 ++ l2). split.
    + change (page_run myId (e :: es) w) with (page_run myId es (page_step myId w e)).
      rewrite H2. unfold page_step. rewrite H1. now rewrite app_assoc.
    + rewrite length_app. simpl. lia.
Qed.

(** * The composer of the chat *)

(** ** Picking and removing files *)

Lemma app_if_items {A} (l more : list A) :
  (if has_items more then l ++ more else l) = l ++ more.
Proof. destruct more; [now rewrite app_nil_r | reflexivity]. Qed.

Lemma handleFiles_eq files c :
  handleFiles files c =
  {| input := input c; isDragging := isDragging c;
     imagePreviews := imagePreviews c ++ map preview_of (List.filter is_image files);
     fileQueue := fileQueue c ++ List.filter (fun f => negb (is_image f)) files;
     sending := sending c; error := error c; revoked := revoked c |}.
Proof.
  unfold handleFiles. cbv zeta. rewrite app_if_items.
  destruct (List.filter is_image files); [|reflexivity].
  simpl. now rewrite app_nil_r.
Qed.

Lemma filter_split_perm {A} (f : A -> bool) (l : list A) :
  List.filter f l ++ List.filter (fun x => negb (f x)) l ≡ₚ l.
Proof.
  induction l as [|x l IH]; [reflexivity|]. simpl. destruct (f x); simpl.
  - now rewrite IH.
  - rewrite <- Permutation_middle. now rewrite IH.
Qed.

(** X23. [handleFiles] sorts the picked files by kind and loses none:
    the images join the previews, each with the object URL made for it, the
    other files join the queue, both at the end and in the order picked;
    together the previews and the queue hold what they held before and the
    picked files, each once.  Images stay among the previews and other
    files in the queue if this was so before; the text, the error and the
    revoked URLs are untouched. *)
Theorem picked_files_are_sorted_by_kind files c :
  sorted_by_kind c ->
  let c' := handleFiles files c in
  sorted_by_kind c' /\
  map pv_file (imagePreviews c') ++ fileQueue c'
    ≡ₚ (map pv_file (imagePreviews c) ++ fileQueue c) ++ files /\
  imagePreviews c `prefix_of` imagePreviews c' /\
  fileQueue c `prefix_of` fileQueue c' /\
  (forall f, f ∈ files ->
     if is_image f then preview_of f ∈ imagePreviews c' else f ∈ fileQueue c') /\
  (length (imagePreviews c') + length (fileQueue c')
   = length (imagePreviews c) + length (fileQueue c) + length files)%nat /\
  input c' = input c /\ error c' = error c /\ sending c' = sending c /\
  revoked c' = revoked c.
Proof.
  intros [Hi Hq]. cbv zeta. rewrite handleFiles_eq.
  cbn [imagePreviews fileQueue input error sending revoked].
  assert (Hperm : map pv_file (imagePreviews c ++ map preview_of (List.filter is_image files))
                  ++ fileQueue c ++ List.filter (fun f => negb (is_image f)) files
                  ≡ₚ (map pv_file (imagePreviews c) ++ fileQueue c) ++ files).
  { rewrite map_app, map_map. cbn [preview_of pv_file]. rewrite map_id.
    rewrite <- (filter_split_perm is_image files) at 3.
    rewrite <- !app_assoc. apply Permutation_app_head.
    rewrite !app_assoc. apply Permutation_app_tail. apply Permutation_app_comm. }
  split; [split|split; [exact Hperm|split; [|split; [|split; [|split]]]]].
  - apply Forall_app. split; [exact Hi|].
    apply Forall_forall. intros p Hp.
    apply list_elem_of_In, in_map_iff in Hp. destruct Hp as (f & <- & Hf).
    apply filter_In in Hf. exact (proj2 Hf).
  - apply Forall_app. split; [exact Hq|].
    apply Forall_forall. intros f Hf. apply list_elem_of_In, filter_In in Hf.
    destruct Hf as [_ Hf]. now destruct (is_image f).
  - now apply prefix_app_r.
  - now apply prefix_app_r.
  - intros f Hf. apply list_elem_of_In in Hf.
    destruct (is_image f) eqn:E; apply elem_of_app; right; apply list_elem_of_In.
    + apply in_map, filter_In. split; assumption.
    + apply filter_In. split; [assumption|]. now rewrite E.
  - apply Permutation_length in Hperm.
    rewrite !length_app, !length_map in Hperm. rewrite !length_app, length_map in *.
    lia.
  - repeat split.
Qed.

Lemma picked_files_are_sorted_by_kind_witness :
  let c := {| input := "hi"; isDragging := false; imagePreviews := []; fileQueue := [];
              sending := false; error := None; revoked := [] |} in
  let f := {| cf_file := {| f_name := "a.png"; f_size := 3; f_url := "blob:2";
                            f_now := 9; f_iso := "t" |};
              cf_type := "image/png"; cf_previewUrl := "blob:1" |} in
  sorted_by_kind c /\ sorted_by_kind (handleFiles [f] c).
Proof.
  cbv zeta.
  assert (H : sorted_by_kind
                {| input := "hi"; isDragging := false; imagePreviews := [];
                   fileQueue := []; sending := false; error := None; revoked := [] |})
    by (split; constructor).
  split; [exact H|].
  apply (picked_files_are_sorted_by_kind
           [{| cf_file := {| f_name := "a.png"; f_size := 3; f_url := "blob:2";
                             f_now := 9; f_iso := "t" |};
               cf_type := "image/png"; cf_previewUrl := "blob:1" |}] _ H).
Defined.

(** X24. Removing from the composer goes by key, not by item.
    [removeFile] takes every queued file of the given name and size out of
    the queue, however many there are, and keeps the others in their order;
    [removeImage] does the same with the previews of the given object URL,
    and revokes that URL whether or not a preview had it.  Removing again
    changes the queue and the previews no further. *)
Theorem removal_is_by_key name size url c :
  let cf := removeFile name size c in
  let ci := removeImage url c in
  (forall f, f ∈ fileQueue cf <-> f ∈ fileQueue c /\ ~ same_key name size f) /\
  fileQueue cf `sublist_of` fileQueue c /\
  fileQueue (removeFile name size cf) = fileQueue cf /\
  imagePreviews cf = imagePreviews c /\ revoked cf = revoked c /\
  (forall p, p ∈ imagePreviews ci <-> p ∈ imagePreviews c /\ pv_url p <> url) /\
  imagePreviews ci `sublist_of` imagePreviews c /\
  imagePreviews (removeImage url ci) = imagePreviews ci /\
  fileQueue ci = fileQueue c /\ revoked ci = revoked c ++ [url] /\
  input cf = input c /\ input ci = input c.
Proof.
  cbv zeta. unfold removeFile, removeImage, same_key.
  cbn [fileQueue imagePreviews revoked input].
  assert (Hsub : forall A (g : A -> bool) (l : list A), List.filter g l `sublist_of` l).
  { intros A g l. induction l as [|x l IH]; simpl; [constructor|].
    destruct (g x); [now apply sublist_skip | now apply sublist_cons]. }
  assert (Hidem : forall A (g : A -> bool) (l : list A),
             List.filter g (List.filter g l) = List.filter g l).
  { intros A g l. induction l as [|x l IH]; simpl; [reflexivity|].
    destruct (g x) eqn:E; simpl; [rewrite E, IH|]; auto. }
  split; [|split; [|split; [|split; [|split; [|split; [|split; [|split]]]]]]].
  - intros f. rewrite !list_elem_of_In, filter_In.
    rewrite negb_true_iff, andb_false_iff, !bool_decide_eq_false.
    destruct (decide (f_name (cf_file f) = name)); tauto.
  - apply Hsub.
  - apply Hidem.
  - reflexivity.
  - reflexivity.
  - intros p. rewrite !list_elem_of_In, filter_In.
    rewrite negb_true_iff, bool_decide_eq_false. tauto.
  - apply Hsub.
  - apply Hidem.
  - repeat split.
Qed.

(** ** Sending from the composer *)

Lemma failure_text_nonblank m : failure_text m <> "".
Proof.
  unfold failure_text. destruct m as [[|a t]|]; simpl; discriminate.
Qed.

(** X25. [handleSend] never throws.  When the composer is disabled it
    does nothing and calls nothing.  Otherwise it ends with the composer no
    longer sending; the callbacks settle in the order images, files,
    text, and either all were fulfilled (or skipped): then the composer is
    emptied, the object URLs of its previews are revoked in order and no
    error is shown; or one was rejected: then the later ones were not
    called, a non-empty error text is shown (the message thrown, or the
    standard text when it is missing or empty), and the composer keeps its
    text, previews and queue, those already handed over included. *)
Theorem handleSend_outcome {S} trim (props : ChatProps S) c s :
  let r := handleSend trim props c s in
  (isDisabled trim c = true -> r = (c, s)) /\
  (isDisabled trim c = false ->
     sending (fst r) = false /\ isDragging (fst r) = isDragging c /\
     snd r = snd (send_all trim props c s) /\
     ((fst (send_all trim props c s) = Fulfilled /\
       error (fst r) = None /\ input (fst r) = "" /\
       imagePreviews (fst r) = [] /\ fileQueue (fst r) = [] /\
       revoked (fst r) = revoked c ++ map pv_url (imagePreviews c)) \/
      (exists m, fst (send_all trim props c s) = Rejected m /\
         error (fst r) = Some (failure_text m) /\ failure_text m <> "" /\
         input (fst r) = input c /\ imagePreviews (fst r) = imagePreviews c /\
         fileQueue (fst r) = fileQueue c /\ revoked (fst r) = revoked c))) /\
  (forall f m s1,
     isDisabled trim c = false -> has_items (imagePreviews c) = true ->
     onUploadImages props = Some f ->
     f (map pv_file (imagePreviews c)) s = (Rejected m, s1) ->
     snd r = s1 /\ error (fst r) = Some (failure_text m)) /\
  (forall f g m s1 s2,
     isDisabled trim c = false ->
     has_items (imagePreviews c) = true -> has_items (fileQueue c) = true ->
     onUploadImages props = Some f -> onUploadFiles props = Some g ->
     f (map pv_file (imagePreviews c)) s = (Fulfilled, s1) ->
     g (fileQueue c) s1 = (Rejected m, s2) ->
     snd r = s2 /\ imagePreviews (fst r) = imagePreviews c).
Proof.
  cbv zeta. unfold handleSend.
  split; [intros ->; reflexivity|]. split; [|split].
  - intros ->. destruct (send_all trim props c s) as [[|m] s'];
      cbn [fst snd sending isDragging error input imagePreviews fileQueue revoked].
    + split; [reflexivity|]. split; [reflexivity|]. split; [reflexivity|].
      left. repeat split.
    + split; [reflexivity|]. split; [reflexivity|]. split; [reflexivity|].
      right. exists m. split; [reflexivity|]. split; [reflexivity|].
      split; [apply failure_text_nonblank|]. repeat split.
  - intros f m s1 -> Hi Hf Hr. unfold send_all, await_prop.
    rewrite Hi, Hf, Hr. cbn. split; reflexivity.
  - intros f g m s1 s2 -> Hi Hq Hf Hg Hr1 Hr2. unfold send_all, await_prop.
    rewrite Hi, Hf, Hr1. cbn [and_then]. rewrite Hq, Hg, Hr2. cbn.
    split; reflexivity.
Qed.

Lemma handleSend_outcome_witness :
  let c := {| input := "hi"; isDragging := false; imagePreviews := []; fileQueue := [];
              sending := false; error := None; revoked := [] |} in
  let props := {| onUploadImages := None; onUploadFiles := None;
                  onSendMessage := Some (fun (_ : string) (n : nat) =>
                                           (Rejected (Some ""), S n)) |} in
  isDisabled id c = false /\
  sending (fst (handleSend id props c 0%nat)) = false.
Proof.
  cbv zeta.
  assert (H : isDisabled id
                {| input := "hi"; isDragging := false; imagePreviews := [];
                   fileQueue := []; sending := false; error := None; revoked := [] |}
              = false) by reflexivity.
  split; [exact H|].
  exact (proj1 (proj1 (proj2 (handleSend_outcome id
                  {| onUploadImages := None; onUploadFiles := None;
                     onSendMessage := Some (fun (_ : string) (n : nat) =>
                                              (Rejected (Some ""), S n)) |}
                  {| input := "hi"; isDragging := false; imagePreviews := [];
                     fileQueue := []; sending := false; error := None; revoked := [] |}
                  0%nat)) H)).
Defined.

(** The page's handlers on the shown messages. *)
Lemma messages_handleUploadImages user files c convId :
  or_null (activeConversationId c) = Some convId ->
  messages (handleUploadImages (Some user) files c)
  = messages c ++ imap (image_message user) files /\
  activeConversationId (handleUploadImages (Some user) files c)
  = activeConversationId c.
Proof.
  intros H. unfold handleUploadImages, messages. rewrite H.
  cbn [messagesByConv activeConversationId]. rewrite H.
  rewrite append_messages_lookup. split; reflexivity.
Qed.

Lemma messages_handleUploadFiles user files c convId :
  or_null (activeConversationId c) = Some convId ->
  messages (handleUploadFiles (Some user) files c)
  = messages c ++ imap (file_message user) files /\
  activeConversationId (handleUploadFiles (Some user) files c)
  = activeConversationId c.
Proof.
  intros H. unfold handleUploadFiles, messages. rewrite H.
  cbn [messagesByConv activeConversationId]. rewrite H.
  rewrite append_messages_lookup. split; reflexivity.
Qed.

Lemma messages_handleSendMessage user text nowMs iso iso' c convId :
  or_null (activeConversationId c) = Some convId ->
  exists msg,
    messages (handleSendMessage (Some user) text nowMs iso iso' c)
    = messages c ++ [msg] /\
    m_type msg = msg_text /\ m_content msg = text /\ m_senderId msg = u_id user.
Proof.
  intros H. unfold handleSendMessage, messages. rewrite H.
  cbn [messagesByConv activeConversationId]. rewrite H.
  rewrite append_messages_lookup. eexists. split; [reflexivity|]. repeat split.
Qed.

(** X26. What is sent from the composer reaches the conversation in one
    order.  With a user signed in and a conversation active, a send from an
    enabled composer appends to the shown messages one image message per
    preview, then one file message per queued file, then, when the trimmed
    text is not empty, one text message whose content is the trimmed text;
    nothing else is appended, and the composer is emptied.  With no user
    signed in the composer is emptied all the same, without an error, and
    the page's state is unchanged: what was composed is dropped. *)
Theorem composer_send_reaches_the_conversation trim user nowMs iso iso' c chat convId :
  isDisabled trim c = false ->
  or_null (activeConversationId chat) = Some convId ->
  let r := handleSend trim (page_props (Some user) nowMs iso iso') c chat in
  let r0 := handleSend trim (page_props None nowMs iso iso') c chat in
  (exists text,
     messages (snd r)
     = messages chat
       ++ imap (image_message user) (map cf_file (map pv_file (imagePreviews c)))
       ++ imap (file_message user) (map cf_file (fileQueue c))
       ++ text /\
     (nonblank (trim (input c)) = false -> text = []) /\
     (nonblank (trim (input c)) = true ->
        exists msg, text = [msg] /\ m_type msg = msg_text /\
                    m_content msg = trim (input c) /\ m_senderId msg = u_id user)) /\
  input (fst r) = "" /\ imagePreviews (fst r) = [] /\ fileQueue (fst r) = [] /\
  error (fst r) = None /\ sending (fst r) = false /\
  snd r0 = chat /\ input (fst r0) = "" /\ imagePreviews (fst r0) = [] /\
  fileQueue (fst r0) = [] /\ error (fst r0) = None.
Proof.
  intros Hdis Hactive. cbv zeta. unfold handleSend. rewrite Hdis.
  unfold send_all, page_props. cbn [onUploadImages onUploadFiles onSendMessage].
  set (imgs := map pv_file (imagePreviews c)).
  assert (H1 : exists chat1,
             await_prop (has_items (imagePreviews c))
               (Some (fun files c0 =>
                        (Fulfilled,
                         handleUploadImages (Some user) (map cf_file files) c0)))
               imgs chat = (Fulfilled, chat1) /\
             messages chat1 = messages chat ++ imap (image_message user) (map cf_file imgs) /\
             activeConversationId chat1 = activeConversationId chat).
  { unfold await_prop. subst imgs. destruct (imagePreviews c) as [|p ps].
    - exists chat. cbn. now rewrite app_nil_r.
    - eexists. split; [reflexivity|].
      apply (messages_handleUploadImages user _ chat convId Hactive). }
  destruct H1 as (chat1 & -> & Hm1 & Ha1). cbn [and_then].
  assert (Hactive1 : or_null (activeConversationId chat1) = Some convId)
    by now rewrite Ha1.
  assert (H2 : exists chat2,
             await_prop (has_items (fileQueue c))
               (Some (fun files c0 =>
                        (Fulfilled,
                         handleUploadFiles (Some user) (map cf_file files) c0)))
               (fileQueue c) chat1 = (Fulfilled, chat2) /\
             messages chat2
             = messages chat1 ++ imap (file_message user) (map cf_file (fileQueue c)) /\
             activeConversationId chat2 = activeConversationId chat1).
  { unfold await_prop. destruct (fileQueue c) as [|f fs].
    - exists chat1. cbn. now rewrite app_nil_r.
    - eexists. split; [reflexivity|].
      apply (messages_handleUploadFiles user _ chat1 convId Hactive1). }
  destruct H2 as (chat2 & -> & Hm2 & Ha2). cbn [and_then].
  assert (Hactive2 : or_null (activeConversationId chat2) = Some convId)
    by now rewrite Ha2.
  assert (H0 : forall files : list ComposerFile,
             handleUploadImages None (map cf_file files) chat = chat /\
             handleUploadFiles None (map cf_file files) chat = chat) by (split; reflexivity).
  split.
  - unfold await_prop. destruct (nonblank (trim (input c))) eqn:Ht; cbn [snd].
    + destruct (messages_handleSendMessage user (trim (input c)) nowMs iso iso'
                  chat2 convId Hactive2) as (msg & Hm & Hty & Hco & Hse).
      exists [msg]. split.
      * rewrite Hm, Hm2, Hm1. now rewrite <- !app_assoc.
      * split; [discriminate|]. intros _. exists msg. repeat split; assumption.
    + exists []. split.
      * rewrite Hm2, Hm1, app_nil_r. now rewrite <- !app_assoc.
      * split; [reflexivity | discriminate].
  - unfold await_prop.
    destruct (nonblank (trim (input c))); cbn [fst input imagePreviews fileQueue error sending];
      (split; [reflexivity|]); (split; [reflexivity|]); (split; [reflexivity|]);
      (split; [reflexivity|]); (split; [reflexivity|]);
      destruct (has_items (imagePreviews c)), (has_items (fileQueue c));
      cbn; repeat split.
Qed.

Lemma composer_send_reaches_the_conversation_witness :
  let c := {| input := " hi "; isDragging := false; imagePreviews := []; fileQueue := [];
              sending := false; error := None; revoked := [] |} in
  let chat := {| conversations := []; messagesByConv := ∅;
                 activeConversationId := Some "c_1" |} in
  isDisabled id c = false /\
  or_null (activeConversationId chat) = Some "c_1" /\
  input (fst (handleSend id (page_props (Some alice) 5 "t" "t") c chat)) = "".
Proof.
  cbv zeta.
  assert (H : isDisabled id
                {| input := " hi "; isDragging := false; imagePreviews := [];
                   fileQueue := []; sending := false; error := None; revoked := [] |}
              = false) by reflexivity.
  split; [exact H|]. split; [reflexivity|].
  exact (proj1 (proj2 (composer_send_reaches_the_conversation id alice 5 "t" "t"
                         {| input := " hi "; isDragging := false; imagePreviews := [];
                            fileQueue := []; sending := false; error := None;
                            revoked := [] |}
                         {| conversations := []; messagesByConv := ∅;
                            activeConversationId := Some "c_1" |}
                         "c_1" H eq_refl))).
Defined.
